(** * The form widget of tview: layout, focus navigation and viewport

    A shallow embedding of [form.go].  Go's [int] is read as [Z]: the values
    are lengths, indices and screen cells, far inside the 64-bit range, so
    no operation wraps.  A slice is a [list], an access [a[i]] is a partial
    lookup whose failure is Go's index-out-of-range panic, and a function
    that may panic returns an [option] ([None] is the panic).  Integer
    division is Go's truncating division, [Z.quot].  The items, the buttons
    and the box are known by what the form reads from them. *)

From stdpp Require Import base option list numbers strings.
From Stdlib Require Import ZArith Lia.

Local Open Scope Z_scope.

(** ** Go slices *)

(** [a[i]]: panics for a negative index or one beyond the length. *)
Definition goIndex {A : Type} (a : list A) (i : Z) : option A :=
  if decide (0 ≤ i) then a !! Z.to_nat i else None.

(** [a[i] = v]: the same bounds check, then an update in place. *)
Definition goStore {A : Type} (a : list A) (i : Z) (v : A) : option (list A) :=
  if decide (0 ≤ i < Z.of_nat (length a)) then Some (<[Z.to_nat i := v]> a) else None.

(** [len(a)] as an [int]. *)
Definition len {A : Type} (a : list A) : Z := Z.of_nat (length a).

(** [make([]int, n)]; a negative [n] panics. *)
Definition makeInts (n : Z) : option (list Z) :=
  if decide (0 ≤ n) then Some (replicate (Z.to_nat n) 0) else None.

(** ** Data model *)

(** [tcell.Color] is an integer type; only [tcell.ColorBlack] is named by the
    form.  Its value is declared by the tcell package (the first colour of the
    palette). *)
Definition Color : Type := Z.
Definition ColorBlack : Color := 0.

(** The alignment constants [AlignLeft], [AlignCenter], [AlignRight] are
    distinct integer constants of the package; any other integer can be
    stored by the setters and matches no case of a [switch]. *)
Inductive Align : Type :=
  | AlignLeft
  | AlignCenter
  | AlignRight
  | AlignOther (n : Z).

#[export] Instance Align_eq_dec : EqDecision Align.
Proof. solve_decision. Defined.

(** [struct{ x, y, width, height int }] *)
Record Rect : Type := mkRect { rx : Z; ry : Z; rwidth : Z; rheight : Z }.

#[export] Instance Rect_eq_dec : EqDecision Rect.
Proof. solve_decision. Defined.

Definition zeroRect : Rect := mkRect 0 0 0 0.

(** What the form reads from a [FormItem]: the getters of the interface, the
    height of [GetRect], [IsDisable] and [GetID]. *)
Record FormItem : Type := mkItem {
  GetLabelWidth : Z;
  GetFieldWidth : Z;
  GetFieldAlign : Align;
  leftPadding : Z;          (* GetBorderPadding, third result *)
  rightPadding : Z;         (* GetBorderPadding, fourth result *)
  itemHeight : Z;           (* GetRect, fourth result *)
  IsDisable : bool;
  itemID : Z                (* GetID *)
}.

(** What the form reads from a [*Button]. *)
Record Button : Type := mkButton {
  buttonLabelWidth : Z;     (* StringWidth(button.GetLabel()) *)
  GetHidden : bool;
  buttonID : Z              (* GetID *)
}.

(** The part of the embedded [*Box] that the form reads. *)
Record Box : Type := mkBox {
  boxX : Z;
  boxY : Z;
  width : Z;
  height : Z;
  paddingTop : Z;
  paddingBottom : Z;
  paddingLeft : Z;
  paddingRight : Z;
  border : bool;
  backgroundColor : Color
}.

(** [type Form struct].  The callback [cancel] is kept as the flag
    [cancel != nil]; calling it is an event of the navigation trace. *)
Record Form : Type := mkForm {
  box : Box;
  items : list FormItem;
  buttons : list Button;
  horizontal : bool;
  buttonsAlign : Align;
  buttonsPaddingTop : Z;
  buttonsIndent : Z;
  lastItem : Z;
  lastButton : Z;
  itemPadding : Z;
  focusedElement : Z;
  labelColor : Color;
  fieldBackgroundColor : Color;
  fieldTextColor : Color;
  buttonBackgroundColor : Color;
  buttonTextColor : Color;
  cancel : bool;
  align : Align;
  itemsColumn : list Z;
  columnPadding : Z
}.

(** Field updates, one per field that the operations below assign. *)
Definition setItems (v : list FormItem) (f : Form) : Form :=
  mkForm (box f) v (buttons f) (horizontal f) (buttonsAlign f)
    (buttonsPaddingTop f) (buttonsIndent f) (lastItem f) (lastButton f)
    (itemPadding f) (focusedElement f) (labelColor f) (fieldBackgroundColor f)
    (fieldTextColor f) (buttonBackgroundColor f) (buttonTextColor f) (cancel f)
    (align f) (itemsColumn f) (columnPadding f).

Definition setButtons (v : list Button) (f : Form) : Form :=
  mkForm (box f) (items f) v (horizontal f) (buttonsAlign f)
    (buttonsPaddingTop f) (buttonsIndent f) (lastItem f) (lastButton f)
    (itemPadding f) (focusedElement f) (labelColor f) (fieldBackgroundColor f)
    (fieldTextColor f) (buttonBackgroundColor f) (buttonTextColor f) (cancel f)
    (align f) (itemsColumn f) (columnPadding f).

Definition setLastItem (v : Z) (f : Form) : Form :=
  mkForm (box f) (items f) (buttons f) (horizontal f) (buttonsAlign f)
    (buttonsPaddingTop f) (buttonsIndent f) v (lastButton f)
    (itemPadding f) (focusedElement f) (labelColor f) (fieldBackgroundColor f)
    (fieldTextColor f) (buttonBackgroundColor f) (buttonTextColor f) (cancel f)
    (align f) (itemsColumn f) (columnPadding f).

Definition setLastButton (v : Z) (f : Form) : Form :=
  mkForm (box f) (items f) (buttons f) (horizontal f) (buttonsAlign f)
    (buttonsPaddingTop f) (buttonsIndent f) (lastItem f) v
    (itemPadding f) (focusedElement f) (labelColor f) (fieldBackgroundColor f)
    (fieldTextColor f) (buttonBackgroundColor f) (buttonTextColor f) (cancel f)
    (align f) (itemsColumn f) (columnPadding f).

Definition setFocusedElement (v : Z) (f : Form) : Form :=
  mkForm (box f) (items f) (buttons f) (horizontal f) (buttonsAlign f)
    (buttonsPaddingTop f) (buttonsIndent f) (lastItem f) (lastButton f)
    (itemPadding f) v (labelColor f) (fieldBackgroundColor f)
    (fieldTextColor f) (buttonBackgroundColor f) (buttonTextColor f) (cancel f)
    (align f) (itemsColumn f) (columnPadding f).

Definition setItemsColumn (v : list Z) (f : Form) : Form :=
  mkForm (box f) (items f) (buttons f) (horizontal f) (buttonsAlign f)
    (buttonsPaddingTop f) (buttonsIndent f) (lastItem f) (lastButton f)
    (itemPadding f) (focusedElement f) (labelColor f) (fieldBackgroundColor f)
    (fieldTextColor f) (buttonBackgroundColor f) (buttonTextColor f) (cancel f)
    (align f) v (columnPadding f).


(** ** The registry of fields and buttons *)

(** [Styles], the theme the constructor reads its colours from. *)
Record Theme : Type := mkTheme {
  LabelTextColor : Color;
  FieldBackgroundColor : Color;
  FieldTextColor : Color;
  ButtonBackgroundColor : Color;
  ButtonTextColor : Color
}.

(** [NewForm]; [box0] is the result of [NewBox()]. *)
Definition NewForm (styles : Theme) (box0 : Box) : Form :=
  mkForm
    (mkBox (boxX box0) (boxY box0) 0 0 1 1 1 1 (border box0) (backgroundColor box0))
    [] [] false AlignLeft 2 4 0 0 1 0
    (LabelTextColor styles) (FieldBackgroundColor styles) (FieldTextColor styles)
    (ButtonBackgroundColor styles) (ButtonTextColor styles)
    false AlignLeft [] 1.

(** [Buttons]: the visible buttons, in storage order.  A [*Button] is known by
    its position in [f.buttons], kept next to the button. *)
Definition Buttons (f : Form) : list (nat * Button) :=
  filter (λ p, GetHidden p.2 = false) (imap (λ i b, (i, b)) (buttons f)).

(** [AddInputField], [AddPasswordField], [AddDropDown], [AddRadioButton] and
    [AddCheckbox] build an item of their kind and all end in
    [f.items = append(f.items, item)]; [item] is the item built. *)
Definition AddInputField (item : FormItem) (f : Form) : Form :=
  setItems (items f ++ [item]) f.

Definition AddPasswordField (item : FormItem) (f : Form) : Form :=
  setItems (items f ++ [item]) f.

Definition AddDropDown (item : FormItem) (f : Form) : Form :=
  setItems (items f ++ [item]) f.

Definition AddRadioButton (item : FormItem) (f : Form) : Form :=
  setItems (items f ++ [item]) f.

Definition AddCheckbox (item : FormItem) (f : Form) : Form :=
  setItems (items f ++ [item]) f.

Definition AddButton (b : Button) (f : Form) : Form :=
  setButtons (buttons f ++ [b]) f.

Definition setHidden (state : bool) (b : Button) : Button :=
  mkButton (buttonLabelWidth b) state (buttonID b).

(** [HiddenButton]: [len(f.buttons) > index] guards the access, a negative
    index still panics. *)
Definition HiddenButton (index : Z) (state : bool) (f : Form) : option Form :=
  if decide (index < len (buttons f)) then
    b ← goIndex (buttons f) index;
    bs ← goStore (buttons f) index (setHidden state b);
    Some (setButtons bs f)
  else Some f.

Definition Clear (includeButtons : bool) (f : Form) : Form :=
  let f1 := setItems [] f in
  let f2 := if includeButtons then setButtons [] f1 else f1 in
  setFocusedElement 0 f2.


Definition AddFormItemWithColumn (item : FormItem) (column : Z) (f : Form) : Form :=
  let f1 := setItems (items f ++ [item]) f in
  let f2 := setItemsColumn (itemsColumn f1 ++ [column]) f1 in
  setLastButton (len (items f2)) f2.

Definition AddFormItem (item : FormItem) (f : Form) : Form :=
  AddFormItemWithColumn item 0 f.

(** ** Measurement *)

(** [getColoumnsCount] *)
Definition getColoumnsCount (f : Form) : Z :=
  foldl (λ maxColumns num, if decide (maxColumns < num) then num else maxColumns)
        0 (itemsColumn f) + 1.

(** A [for index, item := range f.items] loop whose body may panic: the
    body is run on every item in turn, with its index, on the loop state. *)
Fixpoint rangeItems {A St : Type} (body : nat → A → St → option St)
    (index : nat) (l : list A) (s : St) : option St :=
  match l with
  | [] => Some s
  | item :: rest => s' ← body index item s; rangeItems body (S index) rest s'
  end.

(** The running maximum of the second loop of [getMaxHeightColumn] and of the
    loop of [GetRect]: [if acc < a[column] { acc = a[column] }] over all
    columns of [a], whose length is the column count. *)
Definition maxOver (acc : Z) (a : list Z) : Z :=
  foldl (λ m v, if decide (m < v) then v else m) acc a.

(** [getMaxHeightColumn] *)
Definition getMaxHeightColumn (f : Form) : option Z :=
  maxHeight ← makeInts (getColoumnsCount f);
  if decide (0 < len (items f)) then
    maxHeight ← rangeItems (λ i item maxHeight,
        column ← goIndex (itemsColumn f) (Z.of_nat i);
        old ← goIndex maxHeight column;
        goStore maxHeight column (old + (itemHeight item + itemPadding f)))
      0%nat (items f) maxHeight;
    Some (maxOver 0 maxHeight - itemPadding f)
  else Some 0.

(** First loop of [getMaxWidthItems]: the label and field maxima. *)
Definition measureLabelField (f : Form) (index : nat) (item : FormItem)
    (acc : list Z * list Z) : option (list Z * list Z) :=
  let '(maxLabelWidth, maxFieldWidth) := acc in
  let labelWidth := GetLabelWidth item + leftPadding item in
  let fieldWidth := GetFieldWidth item + rightPadding item in
  column ← goIndex (itemsColumn f) (Z.of_nat index);
  maxLabelWidth ←
    (if decide (0 < labelWidth) then
       old ← goIndex maxLabelWidth column;
       if decide (old - 1 < labelWidth) then
         if decide (GetFieldAlign item = AlignCenter)
         then goStore maxLabelWidth column (labelWidth + 1)
         else Some maxLabelWidth
       else Some maxLabelWidth
     else Some maxLabelWidth);
  old ← goIndex maxFieldWidth column;
  maxFieldWidth ←
    (if decide (old < fieldWidth)
     then goStore maxFieldWidth column fieldWidth
     else Some maxFieldWidth);
  Some (maxLabelWidth, maxFieldWidth).

(** Second loop of [getMaxWidthItems]: the total width of each column. *)
Definition measureTotal (f : Form) (maxLabelWidth maxFieldWidth : list Z)
    (index : nat) (item : FormItem) (maxWidth : list Z) : option (list Z) :=
  let labelWidth := GetLabelWidth item + leftPadding item in
  let fieldWidth := GetFieldWidth item + rightPadding item in
  column ← goIndex (itemsColumn f) (Z.of_nat index);
  old ← goIndex maxWidth column;
  maxWidth ←
    (if decide (old < labelWidth + fieldWidth)
     then goStore maxWidth column (labelWidth + fieldWidth)
     else Some maxWidth);
  if decide (GetFieldAlign item = AlignCenter) then
    l ← goIndex maxLabelWidth column;
    w ← goIndex maxFieldWidth column;
    goStore maxWidth column (l + w)
  else Some maxWidth.

(** [getMaxWidthItems] returns [(maxWidth, maxLabelWidth, maxFieldWidth)]. *)
Definition getMaxWidthItems (f : Form) : option (list Z * list Z * list Z) :=
  zeros ← makeInts (getColoumnsCount f);
  '(maxLabelWidth, maxFieldWidth) ←
    rangeItems (measureLabelField f) 0%nat (items f) (zeros, zeros);
  maxWidth ← rangeItems (measureTotal f maxLabelWidth maxFieldWidth)
    0%nat (items f) zeros;
  Some (maxWidth, maxLabelWidth, maxFieldWidth).

(** [GetRect]: the stored rectangle, with a width or height of 0 replaced by
    the measured one. *)
Definition GetRect (f : Form) : option Rect :=
  let b := box f in
  w ← (if decide (width b = 0) then
         '(maxWidth, _, _) ← getMaxWidthItems f;
         let w := maxOver (width b) maxWidth in
         let w := w + (paddingLeft b + paddingRight b) in
         Some (if border b then w + 2 else w)
       else Some (width b));
  h ← (if decide (height b = 0) then
         h ← getMaxHeightColumn f;
         let h := if decide (0 < len (Buttons f)) then h + (1 + buttonsPaddingTop f) else h in
         let h := if border b then h + 2 else h in
         Some (h + (paddingTop b + paddingBottom b))
       else Some (height b));
  Some (mkRect (boxX b) (boxY b) w h).

(** [ResetFocus]: the loop leaves at the first item that is not disabled. *)
Fixpoint firstEnabled (i : nat) (l : list FormItem) : option nat :=
  match l with
  | [] => None
  | item :: rest => if IsDisable item then firstEnabled (S i) rest else Some i
  end.

Definition ResetFocus (f : Form) : Form :=
  let f1 := match firstEnabled 0%nat (items f) with
            | Some i => setFocusedElement (Z.of_nat i) f
            | None => f
            end in
  setLastButton (len (items f1)) (setLastItem 0 f1).

(** ** Focus navigation *)

(** The primitives focus is handed to: the item at a position of [f.items],
    or the button at a position of [f.buttons]. *)
Inductive Target : Type :=
  | TItem (i : nat)
  | TButton (j : nat).

#[export] Instance Target_eq_dec : EqDecision Target.
Proof. solve_decision. Defined.

(** What [Focus] and the key handlers do to their surroundings, in order. *)
Inductive Event : Type :=
  | EvSetFinishedFunc (i : nat)     (* item.SetFinishedFunc(itemHandler) *)
  | EvSetBlurFunc (j : nat)         (* button.SetBlurFunc(buttonHandler) *)
  | EvDelegate (t : Target)         (* delegate(p) *)
  | EvCancel.                       (* f.cancel() *)

Inductive Key : Type :=
  | KeyTab | KeyBacktab | KeyEnter | KeyUp | KeyDown | KeyLeft | KeyRight
  | KeyEscape | KeyOther.

(** The form, the state of the surrounding application that [delegate]
    changes and [HasFocus] reads, and the events so far. *)
Record State (World : Type) : Type := mkState {
  form : Form;
  world : World;
  events : list Event
}.
Arguments mkState {World} _ _ _.
Arguments form {World} _.
Arguments world {World} _.
Arguments events {World} _.

Definition withForm {World : Type} (g : Form → Form) (s : State World) : State World :=
  mkState (g (form s)) (world s) (events s).

(** [makeRange] *)
Definition makeRange (start end_ : Z) : list Z :=
  if decide (start < end_)
  then (λ i, start + i) <$> seqZ 0 (end_ - start + 1)
  else (λ i, start - i) <$> seqZ 0 (start - end_ + 1).

(** The test of the first loop of [nextStep] on two neighbours of the
    candidate list. *)
Definition turnsAt (focused prev cur : Z) : bool :=
  bool_decide (prev < cur ∧ focused < cur) || bool_decide (prev > cur ∧ focused > cur).

(** The first [i ≥ 1] at which the test holds, if any; [prev] is
    [indexes[i-1]] and [rest] is [indexes[i:]]. *)
Fixpoint rotationPoint (focused prev : Z) (rest : list Z) (i : nat) : option nat :=
  match rest with
  | [] => None
  | cur :: rest' =>
      if turnsAt focused prev cur then Some i
      else rotationPoint focused cur rest' (S i)
  end.

(** [indexes = append(indexes[i:], indexes[0:i]...)] at that [i].  The list
    comes from [makeRange], whose slices are as long as their capacity, so
    the [append] copies: the result is the tail followed by the head. *)
Definition rotateIndexes (focused : Z) (indexes : list Z) : list Z :=
  match indexes with
  | [] => []
  | first :: rest =>
      match rotationPoint focused first rest 1 with
      | Some i => drop i indexes ++ take i indexes
      | None => indexes
      end
  end.

Section Navigation.
Context {World : Type}.
Variable hasFocus : World → Target → bool.
Variable delegate : Target → World → World.

(** [Focus] *)
Definition Focus (s : State World) : option (State World) :=
  let f := form s in
  if decide (len (items f) + len (Buttons f) = 0) then Some s else
  let f := if decide (focusedElement f < 0 ∨
                      focusedElement f >= len (items f) + len (Buttons f))
           then setFocusedElement 0 f else f in
  if decide (focusedElement f < len (items f)) then
    _ ← goIndex (items f) (focusedElement f);
    let i := Z.to_nat (focusedElement f) in
    Some (mkState f (delegate (TItem i) (world s))
            (events s ++ [EvSetFinishedFunc i; EvDelegate (TItem i)]))
  else
    '(j, _) ← goIndex (Buttons f)
                (len (Buttons f) - 1 - (focusedElement f - len (items f)));
    Some (mkState f (delegate (TButton j) (world s))
            (events s ++ [EvSetBlurFunc j; EvDelegate (TButton j)])).

(** The two identity tests of [nextStep]; [candidate] is the value just
    stored in [f.focusedElement]. *)
Definition sameItem (f : Form) (current candidate : Z) : option bool :=
  if decide (candidate < len (items f) ∧ current < len (items f)) then
    a ← goIndex (items f) current;
    b ← goIndex (items f) candidate;
    Some (bool_decide (itemID a = itemID b))
  else Some false.

Definition sameButton (f : Form) (current candidate : Z) : option bool :=
  if decide (candidate >= len (items f) ∧ current >= len (items f)) then
    a ← goIndex (Buttons f) (current - len (items f));
    b ← goIndex (Buttons f) (candidate - len (items f));
    Some (bool_decide (buttonID a.2 = buttonID b.2))
  else Some false.

(** The two acceptance tests after the recursive [f.Focus(delegate)]. *)
Definition itemAccepted (s : State World) : option bool :=
  let f := form s in
  if decide (focusedElement f < len (items f)) then
    _ ← goIndex (items f) (focusedElement f);
    Some (hasFocus (world s) (TItem (Z.to_nat (focusedElement f))))
  else Some false.

Definition buttonAccepted (s : State World) : option bool :=
  let f := form s in
  if decide (focusedElement f >= len (items f)) then
    '(j, _) ← goIndex (Buttons f)
                (len (Buttons f) - 1 - (focusedElement f - len (items f)));
    Some (hasFocus (world s) (TButton j))
  else Some false.

(** The second loop of [nextStep], over the candidates that remain. *)
Fixpoint walk (current : Z) (indexes : list Z) (s : State World)
    : option (State World) :=
  match indexes with
  | [] => Some s
  | candidate :: rest =>
      let f := form s in
      if decide (candidate >= len (items f) + len (Buttons f)) then walk current rest s
      else
        let s := withForm (setFocusedElement candidate) s in
        match sameItem (form s) current candidate with
        | None => None
        | Some true => walk current rest s
        | Some false =>
        match sameButton (form s) current candidate with
        | None => None
        | Some true => walk current rest s
        | Some false =>
        match Focus s with
        | None => None
        | Some s =>
        match itemAccepted s with
        | None => None
        | Some true => Some (withForm (setLastItem (focusedElement (form s))) s)
        | Some false =>
        match buttonAccepted s with
        | None => None
        | Some true => Some (withForm (setLastButton (focusedElement (form s))) s)
        | Some false => walk current rest s
        end end end end end
  end.

(** [nextStep] *)
Definition nextStep (indexes : list Z) (s : State World) : option (State World) :=
  walk (focusedElement (form s))
       (rotateIndexes (focusedElement (form s)) indexes) s.

(** The [KeyEscape] case of both handlers. *)
Definition escape (s : State World) : option (State World) :=
  if cancel (form s)
  then Some (mkState (form s) (world s) (events s ++ [EvCancel]))
  else Focus (withForm (setFocusedElement 0) s).

(** [itemHandler], the function [Focus] registers on an item. *)
Definition itemHandler (key : Key) (s : State World) : option (State World) :=
  let n := len (items (form s)) in
  match key with
  | KeyTab => nextStep (makeRange 0 n) s
  | KeyBacktab => nextStep (makeRange n 0) s
  | KeyEnter => nextStep (makeRange 0 n) s
  | KeyUp => nextStep (makeRange (n - 1) 0) s
  | KeyDown => nextStep (makeRange 0 (n - 1)) s
  | KeyEscape => escape s
  | _ => Some s
  end.

(** [buttonHandler], the function [Focus] registers on a button. *)
Definition buttonHandler (key : Key) (s : State World) : option (State World) :=
  let n := len (items (form s)) in
  let b := len (Buttons (form s)) in
  match key with
  | KeyTab => nextStep (makeRange 0 n) s
  | KeyBacktab => nextStep (makeRange n 0) s
  | KeyUp | KeyLeft => nextStep (makeRange n (n + b - 1)) s
  | KeyDown | KeyRight => nextStep (makeRange (n + b - 1) n) s
  | KeyEscape => escape s
  | _ => Some s
  end.

(** A key reaches the element the form last handed focus to, which calls
    the handler [Focus] registered on it: [itemHandler] on an item,
    [buttonHandler] on a button. *)
Definition handleKey (key : Key) (s : State World) : option (State World) :=
  if decide (focusedElement (form s) < len (items (form s)))
  then itemHandler key s
  else buttonHandler key s.

(** The same key, [n] times. *)
Fixpoint pressKeys (key : Key) (n : nat) (s : State World) : option (State World) :=
  match n with
  | O => Some s
  | S n' => s' ← handleKey key s; pressKeys key n' s'
  end.
End Navigation.

(** ** Layout and drawing *)

(** The arguments of one [SetFormAttributes] call. *)
Record FormAttributes : Type := mkAttributes {
  attrLabelWidth : Z;
  attrFieldWidth : Z;
  attrLabelColor : Color;
  attrBgColor : Color;
  attrFieldTextColor : Color;
  attrFieldBgColor : Color
}.

(** The four colours [Draw] sets on a button it places. *)
Record ButtonColors : Type := mkButtonColors {
  bcLabelColor : Color;
  bcLabelColorActivated : Color;
  bcBackgroundColorActivated : Color;
  bcBackgroundColor : Color
}.

(** The variables of [Draw] that its loops update. *)
Record Layout : Type := mkLayout {
  colY : list Z;
  positions : list Rect;
  focusedPosition : Rect;
  attributes : list FormAttributes;       (* SetFormAttributes calls, in order *)
  styled : list (nat * ButtonColors)      (* buttons whose colours were set *)
}.

(** [maxWidth] after the first loop over the columns. *)
Definition contentWidth (f : Form) (maxColWidth : list Z) : Z :=
  (foldl (λ '(width, maxWidth) w, (width + w + (1 + columnPadding f), width + w))
         (0, 0) maxColWidth).2.

(** [switch f.align] *)
Definition alignedX (f : Form) (x boxWidth maxWidth : Z) : Z :=
  match align f with
  | AlignCenter => x + Z.quot (boxWidth - maxWidth) 2
  | AlignRight => x + (boxWidth - maxWidth)
  | _ => x
  end.

(** [colX] after the second loop over the columns. *)
Definition columnStarts (f : Form) (x : Z) (maxColWidth : list Z) : list Z :=
  (foldl (λ '(width, colX) w, (width + (w + 1 + columnPadding f), colX ++ [x + width]))
         (0, []) maxColWidth).2.

(** The label width, field width and item width of an item, before the
    line-break test. *)
Definition itemWidths (f : Form) (DefaultFormFieldWidth boxWidth : Z)
    (maxColWidth maxColLabelWidth : list Z) (column : Z) (item : FormItem)
    : option (Z * Z * Z) :=
  let labelWidth := GetLabelWidth item in
  let fieldWidth := GetFieldWidth item in
  if horizontal f then
    let fieldWidth := if decide (fieldWidth = 0) then DefaultFormFieldWidth else fieldWidth in
    Some (labelWidth, fieldWidth, labelWidth + fieldWidth)
  else
    match GetFieldAlign item with
    | AlignCenter =>
        l ← goIndex maxColLabelWidth column;
        w ← goIndex maxColWidth column;
        let labelWidth := l - leftPadding item in
        Some (labelWidth, w - leftPadding item - labelWidth - rightPadding item, boxWidth)
    | AlignRight =>
        w ← goIndex maxColWidth column;
        Some (w - leftPadding item - fieldWidth - rightPadding item, fieldWidth, boxWidth)
    | AlignLeft =>
        w ← goIndex maxColWidth column;
        Some (labelWidth, w - leftPadding item - labelWidth - rightPadding item, boxWidth)
    | AlignOther _ => Some (labelWidth, fieldWidth, boxWidth)
    end.

(** "Advance to next line if there is no space." *)
Definition wraps (f : Form) (x labelWidth rightLimit : Z) : bool :=
  horizontal f && bool_decide (x + labelWidth + 1 >= rightLimit).

(** The body of the loop "Calculate positions of form items".  The [x] that
    the loop advances in a horizontal form is the variable declared in the
    body, so the advance ends with the iteration; only [y] is saved, in
    [colY]. *)
Definition placeItem (f : Form) (focused : Target → bool)
    (DefaultFormFieldWidth startX rightLimit boxWidth : Z)
    (maxColWidth maxColLabelWidth colX : list Z)
    (index : nat) (item : FormItem) (st : Layout) : option Layout :=
  column ← goIndex (itemsColumn f) (Z.of_nat index);
  x ← goIndex colX column;
  y ← goIndex (colY st) column;
  '(labelWidth, fieldWidth, itemWidth) ←
    itemWidths f DefaultFormFieldWidth boxWidth maxColWidth maxColLabelWidth column item;
  let '(x, y) := if wraps f x labelWidth rightLimit then (startX, y + 2) else (x, y) in
  let itemWidth := if decide (x + itemWidth >= rightLimit) then rightLimit - x else itemWidth in
  w ← goIndex maxColWidth column;
  let position := mkRect x y w (itemHeight item) in
  positions' ← goStore (positions st) (Z.of_nat index) position;
  let focusedPosition' := if focused (TItem index) then position else focusedPosition st in
  let '(x, y) := if horizontal f
                 then (x + (itemWidth + itemPadding f), y)
                 else (x, y + (rheight position + itemPadding f)) in
  colY' ← goStore (colY st) column y;
  Some (mkLayout colY' positions' focusedPosition'
          (attributes st ++
             [mkAttributes labelWidth fieldWidth (labelColor f) ColorBlack
                (fieldTextColor f) (fieldBackgroundColor f)])
          (styled st)).

(** [buttonWidths] and [buttonsWidth] *)
Definition buttonWidths (f : Form) : list Z :=
  (λ p, buttonLabelWidth p.2 + 4) <$> Buttons f.

Definition buttonsWidth (f : Form) : Z :=
  foldl (λ acc w, acc + (w + buttonsIndent f)) 0 (buttonWidths f) - 1.

(** "Where do we place them?": the [x] the row of buttons starts at. *)
Definition buttonRowX (f : Form) (x startX rightLimit boxWidth : Z) : Z :=
  if negb (horizontal f) && bool_decide (x + buttonsWidth f < rightLimit) then
    match buttonsAlign f with
    | AlignRight => rightLimit - buttonsWidth f
    | AlignCenter => Z.quot (boxWidth - buttonsWidth f) 2 + startX
    | _ => x
    end
  else x.

(** The [y] of the row of buttons. *)
Definition buttonRowY (f : Form) (topLimit maxHeight : Z) : Z :=
  let y := topLimit + maxHeight in
  if decide (0 < len (Buttons f)) then y + buttonsPaddingTop f else y.

(** The loop "Calculate positions of buttons", from the button at [index]
    of [f.Buttons()] on; [None] of the inner [option] is a panic, and the
    vertical form leaves the loop at the first button with no space. *)
Fixpoint placeButtons (f : Form) (focused : Target → bool)
    (startX rightLimit boxWidth : Z) (index : nat) (bs : list (nat * Button))
    (x y : Z) (st : Layout) : option Layout :=
  match bs with
  | [] => Some st
  | (j, button) :: rest =>
      let space := rightLimit - x in
      let buttonWidth := buttonLabelWidth button + 4 in
      let wrap := horizontal f && bool_decide (space < buttonWidth - 4) in
      let x := if wrap then startX else x in
      let y := if wrap then y + 2 else y in
      let space := if wrap then boxWidth else space in
      if negb (horizontal f) && bool_decide (space < 1) then Some st
      else
        let buttonWidth := if decide (buttonWidth > space) then space else buttonWidth in
        let position := mkRect x y buttonWidth 1 in
        match goStore (positions st) (Z.of_nat index + len (items f)) position with
        | None => None
        | Some positions' =>
            placeButtons f focused startX rightLimit boxWidth (S index) rest
              (x + (buttonWidth + buttonsIndent f)) y
              (mkLayout (colY st) positions'
                 (if focused (TButton j) then position else focusedPosition st)
                 (attributes st)
                 (styled st ++
                    [(j, mkButtonColors (buttonTextColor f) (buttonBackgroundColor f)
                           (buttonTextColor f) (buttonBackgroundColor f))]))
        end
  end.

(** "Determine vertical offset based on the position of the focused item." *)
Definition viewportOffset (focusedPosition : Rect) (topLimit bottomLimit : Z) : Z :=
  if decide (ry focusedPosition + rheight focusedPosition > bottomLimit) then
    let offset := ry focusedPosition + rheight focusedPosition - bottomLimit in
    if decide (ry focusedPosition - offset < topLimit)
    then ry focusedPosition - topLimit
    else offset
  else 0.

(** The rectangle of a [SetRect] call of the two drawing loops. *)
Definition shifted (offset : Z) (p : Rect) : Rect :=
  mkRect (rx p) (ry p - offset) (rwidth p) (rheight p).

(** What the two drawing loops do: the rectangles set, the primitives drawn
    at once and the items whose drawing is deferred. *)
Record Drawing : Type := mkDrawing {
  rects : list Rect;
  drawnNow : list Target;
  deferred : list Target
}.

(** The body of the loop "Draw items". *)
Definition drawItem (focused : Target → bool) (positions : list Rect)
    (offset topLimit bottomLimit : Z)
    (index : nat) (item : FormItem) (d : Drawing) : option Drawing :=
  p ← goIndex positions (Z.of_nat index);
  let r := shifted offset p in
  let d := mkDrawing (rects d ++ [r]) (drawnNow d) (deferred d) in
  if decide (ry r + rheight r ≤ topLimit ∨ ry r > bottomLimit) then Some d
  else if focused (TItem index)
       then Some (mkDrawing (rects d) (drawnNow d) (deferred d ++ [TItem index]))
       else Some (mkDrawing (rects d) (drawnNow d ++ [TItem index]) (deferred d)).

(** The body of the loop "Draw buttons". *)
Definition drawButton (nItems : Z) (positions : list Rect)
    (offset topLimit bottomLimit boxHeight : Z)
    (index : nat) (b : nat * Button) (d : Drawing) : option Drawing :=
  p ← goIndex positions (Z.of_nat index + nItems);
  let r := shifted offset p in
  let d := mkDrawing (rects d ++ [r]) (drawnNow d) (deferred d) in
  if decide (ry r + rheight r ≤ topLimit ∨ (ry r >= bottomLimit ∧ boxHeight > 0)) then Some d
  else Some (mkDrawing (rects d) (drawnNow d ++ [TButton b.1]) (deferred d)).

(** The outcome of one [Draw]. *)
Record DrawResult : Type := mkDrawResult {
  layout : Layout;            (* the variables after the two placement loops *)
  offset : Z;
  itemRects : list Rect;      (* item.SetRect, one per item *)
  buttonRects : list Rect;    (* button.SetRect, one per visible button *)
  drawOrder : list Target     (* the Draw calls; deferred ones run last,
                                 the last deferred first *)
}.

(** [colX]: the start of each column, after the shift of [f.align]. *)
Definition columnsX (f : Form) (inner : Rect) (maxColWidth : list Z) : list Z :=
  columnStarts f
    (alignedX f (rx inner) (rwidth inner) (contentWidth f maxColWidth)) maxColWidth.

(** The variables before the loop over the items: every column starts at
    the top, and [positions] has a zero rectangle for each item and each
    visible button. *)
Definition initialLayout (f : Form) (inner : Rect) (maxColWidth : list Z) : Layout :=
  mkLayout ((λ _, ry inner) <$> maxColWidth)
    (replicate (length (items f) + length (Buttons f)) zeroRect)
    zeroRect [] [].

(** The loop "Calculate positions of form items". *)
Definition placeItems (f : Form) (focused : Target → bool)
    (DefaultFormFieldWidth : Z) (inner : Rect)
    (maxColWidth maxColLabelWidth : list Z) : option Layout :=
  rangeItems
    (placeItem f focused DefaultFormFieldWidth (rx inner) (rx inner + rwidth inner)
       (rwidth inner) maxColWidth maxColLabelWidth (columnsX f inner maxColWidth))
    0%nat (items f) (initialLayout f inner maxColWidth).

(** The [x] and [y] at which the loop over the buttons starts. *)
Definition buttonsX (f : Form) (inner : Rect) (maxColWidth : list Z) : Z :=
  buttonRowX f
    (alignedX f (rx inner) (rwidth inner) (contentWidth f maxColWidth))
    (rx inner) (rx inner + rwidth inner) (rwidth inner).

Definition buttonsY (f : Form) (inner : Rect) (maxHeight : Z) : Z :=
  buttonRowY f (ry inner) maxHeight.

(** The placement part of [Draw]: from the inner rectangle to the variables
    after the loop over the buttons. *)
Definition place (f : Form) (focused : Target → bool)
    (DefaultFormFieldWidth : Z) (inner : Rect) : option Layout :=
  '(maxColWidth, maxColLabelWidth, _) ← getMaxWidthItems f;
  st ← placeItems f focused DefaultFormFieldWidth inner maxColWidth maxColLabelWidth;
  maxHeight ← getMaxHeightColumn f;
  placeButtons f focused (rx inner) (rx inner + rwidth inner) (rwidth inner)
    0%nat (Buttons f)
    (buttonsX f inner maxColWidth) (buttonsY f inner maxHeight) st.

(** [Draw], given the inner rectangle of the box ([GetInnerRect]) and the
    primitives that report focus. *)
Definition Draw (f : Form) (focused : Target → bool)
    (DefaultFormFieldWidth : Z) (inner : Rect) : option DrawResult :=
  let topLimit := ry inner in
  let bottomLimit := ry inner + rheight inner in
  st ← place f focused DefaultFormFieldWidth inner;
  let offset := viewportOffset (focusedPosition st) topLimit bottomLimit in
  di ← rangeItems (drawItem focused (positions st) offset topLimit bottomLimit)
        0%nat (items f) (mkDrawing [] [] []);
  db ← rangeItems (drawButton (len (items f)) (positions st) offset topLimit
                     bottomLimit (rheight inner))
        0%nat (Buttons f) (mkDrawing [] (drawnNow di) []);
  Some (mkDrawResult st offset (rects di) (rects db)
          (drawnNow db ++ reverse (deferred di))).

(** ** Lookups and focus state *)

(** [GetFormItem]: [f.items[index]], which panics out of range. *)
Definition GetFormItem (index : Z) (f : Form) : option FormItem :=
  goIndex (items f) index.

(** [GetFormButton]: [f.buttons[index]], hidden buttons included. *)
Definition GetFormButton (index : Z) (f : Form) : option Button :=
  goIndex (buttons f) index.

(** [GetFormItemByLabel]; [GetLabel] is the getter of the items, and [None]
    is the [nil] returned when no item has the label. *)
Fixpoint firstWithLabel (GetLabel : FormItem → string) (label : string)
    (l : list FormItem) : option FormItem :=
  match l with
  | [] => None
  | item :: rest =>
      if decide (GetLabel item = label) then Some item
      else firstWithLabel GetLabel label rest
  end.

Definition GetFormItemByLabel (GetLabel : FormItem → string) (label : string)
    (f : Form) : option FormItem :=
  firstWithLabel GetLabel label (items f).

(** [HasFocus]: some item, or some visible button, reports focus. *)
Definition HasFocus {World : Type} (hasFocus : World → Target → bool)
    (w : World) (f : Form) : bool :=
  existsb (λ i, hasFocus w (TItem i)) (seq 0 (length (items f))) ||
  existsb (λ p : nat * Button, hasFocus w (TButton p.1)) (Buttons f).

(** ** Notions the properties are stated with *)

(** The forms on which measuring and drawing do not panic: every field has a
    column, and no column is negative. *)
Definition columnsOK (f : Form) : Prop :=
  (length (items f) ≤ length (itemsColumn f))%nat ∧
  Forall (λ c, 0 ≤ c) (itemsColumn f).

(** The four colours of a [SetFormAttributes] call of [Draw]. *)
Definition pushedColors (f : Form) (a : FormAttributes) : Prop :=
  attrLabelColor a = labelColor f ∧ attrBgColor a = ColorBlack ∧
  attrFieldTextColor a = fieldTextColor f ∧
  attrFieldBgColor a = fieldBackgroundColor f.

(** The row of buttons as the vertical form places it: from [x], left to
    right, each button as wide as its label plus 4 or as the space left,
    until the space left is less than 1. *)
Fixpoint buttonRow (indent rightLimit y x : Z) (widths : list Z) : list Rect :=
  match widths with
  | [] => []
  | w :: rest =>
      if decide (rightLimit - x < 1) then []
      else
        let w' := if decide (w > rightLimit - x) then rightLimit - x else w in
        mkRect x y w' 1 :: buttonRow indent rightLimit y (x + (w' + indent)) rest
  end.

(** The [x] after a row of placed buttons: the next button would start
    there. *)
Definition rowEnd (indent x : Z) (row : list Rect) : Z :=
  foldl (λ _ p, rx p + (rwidth p + indent)) x row.



(** The two shapes of a [makeRange]: [n] consecutive indices upwards or
    downwards from [a]. *)
Definition upFrom (a : Z) (n : nat) : list Z := (λ i : nat, a + Z.of_nat i) <$> seq 0 n.
Definition downFrom (a : Z) (n : nat) : list Z := (λ i : nat, a - Z.of_nat i) <$> seq 0 n.

(** The candidate the second loop of [nextStep] ends on when every element
    accepts focus: the first one that is in range and is not the current
    index, and the current index when there is none. *)
Fixpoint firstOther (bound current : Z) (indexes : list Z) : Z :=
  match indexes with
  | [] => current
  | candidate :: rest =>
      if decide (candidate < bound ∧ candidate ≠ current) then candidate
      else firstOther bound current rest
  end.

(** The forms the navigation cycles are stated for: the items have distinct
    identities, and so have the visible buttons. *)
Definition distinctIDs (f : Form) : Prop :=
  NoDup (itemID <$> items f) ∧ NoDup ((λ p, buttonID p.2) <$> Buttons f).

(** One step around a cycle of [size] indices that starts at [low]. *)
Definition forward (low size x : Z) : Z :=
  if decide (x + 1 < low + size) then x + 1 else low.
Definition backward (low size x : Z) : Z :=
  if decide (low < x) then x - 1 else low + size - 1.

(** The state a key leaves is a state of the same form, up to the focus
    index and the last visited item and button. *)
Definition sameElements {World : Type} (s s' : State World) : Prop :=
  items (form s') = items (form s) ∧ buttons (form s') = buttons (form s).

(** The measured widths of an item: the label with the left padding, the
    field with the right padding. *)
Definition paddedLabel (item : FormItem) : Z := GetLabelWidth item + leftPadding item.
Definition paddedField (item : FormItem) : Z := GetFieldWidth item + rightPadding item.

(** Item [i] of the form is [item], in column [c]. *)
Definition inColumn (f : Form) (c : Z) (i : nat) (item : FormItem) : Prop :=
  items f !! i = Some item ∧ itemsColumn f !! i = Some c.

(** The height of the first [n] items that are in column [c], each followed
    by the item padding. *)
Definition stacked (f : Form) (c : Z) (n : nat) : Z :=
  foldr Z.add 0
    ((λ i, match items f !! i, itemsColumn f !! i with
           | Some item, Some ci =>
               if decide (ci = c) then itemHeight item + itemPadding f else 0
           | _, _ => 0
           end) <$> seq 0 n).


(** A form filled with the items of [l], each with its column. *)
Definition addAll (l : list (FormItem * Z)) (f : Form) : Form :=
  foldl (λ g p, AddFormItemWithColumn p.1 p.2 g) f l.

(** The element a focus index stands for: the field at that position, or the
    visible button at position [index - numFields] of the reversed order. *)
Definition targetAt (f : Form) (index : Z) : option Target :=
  if decide (index < len (items f)) then
    if decide (0 ≤ index) then Some (TItem (Z.to_nat index)) else None
  else
    '(j, _) ← goIndex (Buttons f) (len (Buttons f) - 1 - (index - len (items f)));
    Some (TButton j).

(** The handler [Focus] registers on the element before it delegates. *)
Definition registration (t : Target) : Event :=
  match t with
  | TItem i => EvSetFinishedFunc i
  | TButton j => EvSetBlurFunc j
  end.

(** The focus index is a position of the fields and visible buttons. *)
Definition indexInRange (f : Form) : Prop :=
  0 ≤ focusedElement f < len (items f) + len (Buttons f).

(** The sum of a list of widths. *)
Definition sumZ (l : list Z) : Z := foldr Z.add 0 l.

(** The colours [Draw] sets on a button it places. *)
Definition buttonColors (f : Form) : ButtonColors :=
  mkButtonColors (buttonTextColor f) (buttonBackgroundColor f)
    (buttonTextColor f) (buttonBackgroundColor f).

(** The visibility tests of the two drawing loops, on the rectangle set on
    the element. *)
Definition itemShown (topLimit bottomLimit : Z) (q : Rect) : Prop :=
  ¬ (ry q + rheight q ≤ topLimit ∨ ry q > bottomLimit).

Definition buttonShown (topLimit bottomLimit boxHeight : Z) (q : Rect) : Prop :=
  ¬ (ry q + rheight q ≤ topLimit ∨ (ry q >= bottomLimit ∧ boxHeight > 0)).

(** The items that pass the test and report focus, or do not, in the order
    of the fields; [rects] are the rectangles set on the items. *)
Definition drawnItems (focused : Target → bool) (topLimit bottomLimit : Z)
    (rects : list Rect) (withFocus : bool) : list Target :=
  omap (λ p : nat * Rect,
          if decide (itemShown topLimit bottomLimit p.2 ∧
                     focused (TItem p.1) = withFocus)
          then Some (TItem p.1) else None)
       (imap pair rects).

(** The visible buttons that pass the test, in their order; [rects] are the
    rectangles set on them. *)
Definition drawnButtons (topLimit bottomLimit boxHeight : Z)
    (bs : list (nat * Button)) (rects : list Rect) : list Target :=
  omap (λ p : (nat * Button) * Rect,
          if decide (buttonShown topLimit bottomLimit boxHeight p.2)
          then Some (TButton p.1.1) else None)
       (zip bs rects).

(** The index the second loop of [nextStep] ends on when the element at
    index [c] takes the focus it is handed exactly if [takes c]: the first
    candidate in range that is not the current index and takes focus; when
    there is none, the last candidate in range, and [last] without any. *)
Fixpoint landing (takes : Z → bool) (bound current last : Z) (indexes : list Z) : Z :=
  match indexes with
  | [] => last
  | candidate :: rest =>
      if decide (candidate >= bound) then landing takes bound current last rest
      else if decide (candidate ≠ current) then
        if takes candidate then candidate
        else landing takes bound current candidate rest
      else landing takes bound current candidate rest
  end.

(** Whether the element a focus index stands for takes focus. *)
Definition takesFocus (accepts : Target → bool) (f : Form) (index : Z) : bool :=
  match targetAt f index with
  | Some t => accepts t
  | None => false
  end.

(** [key] takes the focus index of [s] around a cycle of [size] indices, one
    [step] per press: a press moves the index by one step and keeps the
    fields and buttons, so do [n] presses by [n] steps, [size] presses lead
    back to the index of [s], and fewer presses end on another index. *)
Definition cyclesBy {World : Type} (hasFocus : World → Target → bool)
    (delegate : Target → World → World) (key : Key) (step : Z → Z) (size : Z)
    (s : State World) : Prop :=
  let index := focusedElement (form s) in
  (∃ s', handleKey hasFocus delegate key s = Some s' ∧ sameElements s s' ∧
         focusedElement (form s') = step index) ∧
  (∀ n : nat,
     ∃ s', pressKeys hasFocus delegate key n s = Some s' ∧ sameElements s s' ∧
           focusedElement (form s') = Nat.iter n step index) ∧
  (∃ s', pressKeys hasFocus delegate key (Z.to_nat size) s = Some s' ∧
         focusedElement (form s') = index) ∧
  (∀ n : nat, (0 < n < Z.to_nat size)%nat →
     ∃ s', pressKeys hasFocus delegate key n s = Some s' ∧
           focusedElement (form s') ≠ index).

(** ** Concrete forms and surroundings used by the examples *)

(** An application in which every primitive accepts focus: the world is the
    primitive that holds it. *)
Definition holder : Type := option Target.
Definition holds (w : holder) (t : Target) : bool := bool_decide (w = Some t).
Definition giveFocus (t : Target) (_ : holder) : holder := Some t.

Definition demoTheme : Theme := mkTheme 11 12 13 14 15.
Definition demoBox : Box := mkBox 0 0 15 10 0 0 0 0 false 16.

(** A one-line item with the given label width, field width and identity. *)
Definition plainItem (labelWidth fieldWidth id : Z) : FormItem :=
  mkItem labelWidth fieldWidth AlignLeft 0 0 1 false id.

(** No field, two visible buttons. *)
Definition twoButtons : Form :=
  AddButton (mkButton 2 false 101) (AddButton (mkButton 6 false 100)
    (NewForm demoTheme demoBox)).

(** One field, two visible buttons. *)
Definition oneFieldTwoButtons : Form :=
  AddButton (mkButton 2 false 101) (AddButton (mkButton 6 false 100)
    (AddFormItem (plainItem 5 8 1) (NewForm demoTheme demoBox))).

(** Two fields in two columns, of total widths 5 and 7. *)
Definition twoColumns : Form :=
  AddFormItemWithColumn (plainItem 3 4 2) 1
    (AddFormItemWithColumn (plainItem 2 3 1) 0 (NewForm demoTheme demoBox)).

(** One field, no button. *)
Definition oneField : Form :=
  AddFormItem (plainItem 5 8 1) (NewForm demoTheme demoBox).


(** The colours a form is configured with, the background of its box
    included. *)
Definition configuredColors (f : Form) : list Color :=
  [labelColor f; fieldBackgroundColor f; fieldTextColor f;
   buttonBackgroundColor f; buttonTextColor f; backgroundColor (box f)].

(** A one-line, center-aligned item with one cell of padding on each side. *)
Definition centredItem (labelWidth fieldWidth id : Z) : FormItem :=
  mkItem labelWidth fieldWidth AlignCenter 1 1 1 false id.

(** Three fields in two columns; the last field of column 1 is
    center-aligned. *)
Definition mixedColumns : Form :=
  AddFormItemWithColumn (centredItem 4 6 3) 1
    (AddFormItemWithColumn (plainItem 9 9 2) 1
       (AddFormItemWithColumn (plainItem 2 3 1) 0 (NewForm demoTheme demoBox))).

(** Two fields, the first of them disabled, with the focus index on a
    button position. *)
Definition disabledFirst : Form :=
  setFocusedElement 2
    (AddFormItem (plainItem 4 6 2)
       (AddFormItem (mkItem 5 8 AlignLeft 0 0 1 true 1) (NewForm demoTheme demoBox))).

(** An application state in which the focus index of [oneFieldTwoButtons]
    is out of range and nothing has focus. *)
Definition staleIndex : State holder :=
  mkState (setFocusedElement 7 oneFieldTwoButtons) None [].

(** The same form with the focus index on the first button index. *)
Definition onButton : State holder :=
  mkState (setFocusedElement 1 oneFieldTwoButtons) None [].

(** Three fields and no button. *)
Definition threeFields : Form :=
  AddFormItem (plainItem 4 6 3)
    (AddFormItem (plainItem 4 6 2)
       (AddFormItem (plainItem 4 6 1) (NewForm demoTheme demoBox))).

(** An application in which the second field refuses focus: handing it
    focus leaves no element focused. *)
Definition shy (t : Target) : bool := bool_decide (t ≠ TItem 1).
Definition giveFocusUnlessShy (t : Target) (_ : holder) : holder :=
  if shy t then Some t else None.

(** Two fields, two visible buttons. *)
Definition twoFieldsTwoButtons : Form :=
  AddButton (mkButton 2 false 101) (AddButton (mkButton 6 false 100)
    (AddFormItem (plainItem 4 6 2)
       (AddFormItem (plainItem 5 8 1) (NewForm demoTheme demoBox)))).

(** ** Properties *)

Lemma goIndex_Some {A : Type} (a : list A) (i : Z) (v : A) :
  goIndex a i = Some v ↔ 0 ≤ i ∧ a !! Z.to_nat i = Some v.
Proof.
  unfold goIndex. destruct (decide (0 ≤ i)); split; intros; intuition congruence.
Qed.

Lemma goIndex_lt {A : Type} (a : list A) (i : Z) :
  0 ≤ i < len a → ∃ v, goIndex a i = Some v ∧ a !! Z.to_nat i = Some v.
Proof.
  intros [H0 H1]. unfold len in H1.
  destruct (lookup_lt_is_Some_2 a (Z.to_nat i)) as [v Hv]; [lia|].
  exists v. split; [|done]. apply goIndex_Some. done.
Qed.

Lemma goIndex_nat {A : Type} (a : list A) (i : nat) :
  goIndex a (Z.of_nat i) = a !! i.
Proof.
  unfold goIndex. destruct (decide (0 ≤ Z.of_nat i)); [|lia].
  by rewrite Nat2Z.id.
Qed.

Lemma goStore_Some {A : Type} (a : list A) (i : Z) (v : A) :
  0 ≤ i < len a → goStore a i v = Some (<[Z.to_nat i := v]> a).
Proof. intros H. unfold goStore, len in *. by destruct (decide _). Qed.

Lemma goStore_inv {A : Type} (a a' : list A) (i : Z) (v : A) :
  goStore a i v = Some a' → 0 ≤ i < len a ∧ a' = <[Z.to_nat i := v]> a.
Proof.
  unfold goStore, len. destruct (decide _); [|done]. intros [= <-]. done.
Qed.

Section NavigationFacts.
Context {World : Type}.
Variable hasFocus : World → Target → bool.
Variable delegate : Target → World → World.

(** C10.  On a form with no item and no visible button [Focus] returns at
    once: the state it returns is the state it was given, so nothing was
    delegated (no event, the same world) and the focus index is the one
    stored before, whatever its value. *)
Theorem Focus_empty_noop (s : State World) :
  len (items (form s)) + len (Buttons (form s)) = 0 →
  Focus delegate s = Some s.
Proof.
  intros H. unfold Focus. by destruct (decide _).
Qed.

(** C2.  With the focus index [i] on a button, [numFields <= i <
    numFields + numVisibleButtons], [Focus] registers the blur handler on,
    and delegates focus to, the visible button at position
    [numVisibleButtons - 1 - (i - numFields)] of the display order, which is
    the button at position [i - numFields] of the reversed order. *)
Theorem Focus_button_reversed (s : State World) (i : Z) :
  focusedElement (form s) = i →
  len (items (form s)) ≤ i < len (items (form s)) + len (Buttons (form s)) →
  ∃ j b,
    Buttons (form s) !! Z.to_nat (len (Buttons (form s)) - 1 - (i - len (items (form s))))
      = Some (j, b) ∧
    reverse (Buttons (form s)) !! Z.to_nat (i - len (items (form s))) = Some (j, b) ∧
    Focus delegate s =
      Some (mkState (form s) (delegate (TButton j) (world s))
              (events s ++ [EvSetBlurFunc j; EvDelegate (TButton j)])).
Proof.
  intros Hi Hr. set (f := form s) in *.
  destruct (goIndex_lt (Buttons f) (len (Buttons f) - 1 - (i - len (items f))))
    as ([j b] & Hg & Hl); [lia|].
  exists j, b. split; [done|]. split.
  - rewrite reverse_lookup; [|unfold len in *; lia].
    rewrite <- Hl. f_equal. unfold len in *. lia.
  - unfold Focus. fold f.
    assert (0 ≤ len (items f) ∧ 0 ≤ len (Buttons f)) by (unfold len; lia).
    destruct (decide (len (items f) + len (Buttons f) = 0)); [lia|].
    destruct (decide (focusedElement f < 0 ∨ _)); [lia|].
    destruct (decide (focusedElement f < len (items f))); [lia|].
    rewrite Hi, Hg. simpl. done.
Qed.
End NavigationFacts.

(** C10, at a form without elements whose focus index is 5. *)
Lemma Focus_empty_noop_witness :
  let s := mkState (setFocusedElement 5 (NewForm demoTheme demoBox)) (None : holder) [] in
  len (items (form s)) + len (Buttons (form s)) = 0 ∧
  Focus giveFocus s = Some s ∧ focusedElement (form s) = 5.
Proof.
  simpl. split; [reflexivity|]. split; [|reflexivity].
  apply (Focus_empty_noop giveFocus). reflexivity.
Defined.

(** C2, at index 1 of a form with one field and two buttons: the button
    stored second, which is displayed second. *)
Lemma Focus_button_reversed_witness :
  let s := mkState (setFocusedElement 1 oneFieldTwoButtons) (None : holder) [] in
  ∃ j b,
    Buttons (form s) !! Z.to_nat (len (Buttons (form s)) - 1 - (1 - len (items (form s))))
      = Some (j, b) ∧
    reverse (Buttons (form s)) !! Z.to_nat (1 - len (items (form s))) = Some (j, b) ∧
    Focus giveFocus s =
      Some (mkState (form s) (giveFocus (TButton j) (world s))
              (events s ++ [EvSetBlurFunc j; EvDelegate (TButton j)])).
Proof.
  apply (Focus_button_reversed giveFocus); [reflexivity|]. vm_compute. split; [discriminate|reflexivity].
Defined.

(** *** ResetFocus *)

Lemma firstEnabled_Some (l : list FormItem) (i0 i : nat) :
  firstEnabled i0 l = Some i →
  (i0 ≤ i)%nat ∧
  (∃ item, l !! (i - i0)%nat = Some item ∧ IsDisable item = false) ∧
  ∀ k item, (k < i - i0)%nat → l !! k = Some item → IsDisable item = true.
Proof.
  revert i0. induction l as [|a l IH]; intros i0; simpl; [done|].
  destruct (IsDisable a) eqn:Ha.
  - intros H. destruct (IH _ H) as (Hle & (item & Hl & Hd) & Hbefore).
    split; [lia|]. split.
    + exists item. split; [|done].
      replace (i - i0)%nat with (S (i - S i0)) by lia. done.
    + intros k item' Hk. destruct k as [|k]; simpl.
      * by intros [= <-].
      * apply Hbefore. lia.
  - intros [= <-]. split; [lia|]. split.
    + exists a. by rewrite Nat.sub_diag.
    + intros k item' Hk. lia.
Qed.

Lemma firstEnabled_None (l : list FormItem) (i0 : nat) :
  firstEnabled i0 l = None ↔ Forall (λ item, IsDisable item = true) l.
Proof.
  revert i0. induction l as [|a l IH]; intros i0; simpl.
  - split; [constructor|done].
  - destruct (IsDisable a) eqn:Ha.
    + rewrite IH. split; [by constructor|]. by inversion 1.
    + split; [done|]. inversion 1; congruence.
Qed.

(** With an enabled field, [ResetFocus] moves the focus index to the first
    one and resets [lastItem] and [lastButton]. *)
Lemma ResetFocus_first_enabled (f : Form) (i : nat) (item : FormItem) :
  items f !! i = Some item → IsDisable item = false →
  (∀ k item', (k < i)%nat → items f !! k = Some item' → IsDisable item' = true) →
  focusedElement (ResetFocus f) = Z.of_nat i ∧
  lastItem (ResetFocus f) = 0 ∧
  lastButton (ResetFocus f) = len (items f).
Proof.
  intros Hi Hen Hbefore. unfold ResetFocus.
  destruct (firstEnabled 0 (items f)) as [j|] eqn:Hj.
  - apply firstEnabled_Some in Hj as (_ & (item' & Hl & Hd) & Hb).
    rewrite Nat.sub_0_r in *. simpl.
    assert (j = i) as ->; [|done].
    destruct (Nat.lt_total j i) as [Hlt|[->|Hlt]]; [|done|].
    + rewrite (Hbefore _ _ Hlt Hl) in Hd. done.
    + rewrite (Hb _ _ Hlt Hi) in Hen. done.
  - apply firstEnabled_None in Hj.
    rewrite Forall_lookup in Hj. rewrite (Hj _ _ Hi) in Hen. done.
Qed.

(** Without one (no field at all, or only disabled ones) the focus index is
    left as it was. *)
Lemma ResetFocus_no_enabled (f : Form) :
  Forall (λ item, IsDisable item = true) (items f) →
  focusedElement (ResetFocus f) = focusedElement f ∧
  lastItem (ResetFocus f) = 0 ∧
  lastButton (ResetFocus f) = len (items f).
Proof.
  intros H. apply firstEnabled_None with (i0 := 0%nat) in H.
  unfold ResetFocus. rewrite H. done.
Qed.

(** C6.  A form with no field and two buttons is given focus and the Up key,
    which moves the focus index to 1.  [ResetFocus] then leaves the index at
    1: with an empty field list it does not set it to 0, although it resets
    [lastItem] and [lastButton]. *)
Theorem ResetFocus_without_fields_keeps_index :
  ∃ s, (s0 ← Focus giveFocus (mkState twoButtons (None : holder) []);
        handleKey holds giveFocus KeyUp s0) = Some s ∧
       items (form s) = [] ∧
       focusedElement (form s) = 1 ∧
       focusedElement (ResetFocus (form s)) = 1 ∧
       lastItem (ResetFocus (form s)) = 0 ∧
       lastButton (ResetFocus (form s)) = 0.
Proof.
  eexists. split; [vm_compute; reflexivity|]. repeat split.
Qed.

(** *** The column of each field *)

(** [AddFormItemWithColumn] appends to both sequences. *)
Lemma AddFormItemWithColumn_lockstep (item : FormItem) (column : Z) (f : Form) :
  length (itemsColumn f) = length (items f) →
  length (itemsColumn (AddFormItemWithColumn item column f)) =
  length (items (AddFormItemWithColumn item column f)).
Proof. intros H. simpl. rewrite !length_app, H. done. Qed.

(** C5.  [AddInputField] on a new form appends the field and no column: the
    column sequence stays empty, and measuring or drawing the form panics on
    [f.itemsColumn[0]] instead of reading column 0.  [Clear] empties the
    fields and keeps the columns, so the two sequences differ after it too. *)
Theorem AddInputField_and_Clear_break_lockstep
    (styles : Theme) (box0 : Box) (item : FormItem) (column : Z) :
  let f := AddInputField item (NewForm styles box0) in
  let g := Clear false (AddFormItemWithColumn item column (NewForm styles box0)) in
  items f = [item] ∧ itemsColumn f = [] ∧
  getMaxWidthItems f = None ∧ GetRect f = None ∧
  (∀ focused d inner, Draw f focused d inner = None) ∧
  items g = [] ∧ itemsColumn g = [column].
Proof.
  repeat split.
Qed.

(** *** Loops *)

(** A loop whose body keeps an invariant and does not panic on states that
    satisfy it runs to its end and establishes the invariant there. *)
Lemma rangeItems_total {A St : Type} (body : nat → A → St → option St)
    (P : nat → St → Prop) (l : list A) :
  ∀ (i : nat) (s : St),
    P i s →
    (∀ k a s, l !! k = Some a → P (i + k)%nat s →
       ∃ s', body (i + k)%nat a s = Some s' ∧ P (S (i + k)) s') →
    ∃ s', rangeItems body i l s = Some s' ∧ P (i + length l)%nat s'.
Proof.
  induction l as [|a l IH]; intros i s HP Hstep; simpl.
  - exists s. by rewrite Nat.add_0_r.
  - destruct (Hstep 0%nat a s) as (s1 & Hb & HP1); [done|by rewrite Nat.add_0_r|].
    rewrite Nat.add_0_r in Hb, HP1. rewrite Hb. simpl.
    destruct (IH (S i) s1 HP1) as (s' & Hs' & HP').
    + intros k b s2 Hk HP2. replace (S i + k)%nat with (i + S k)%nat in * by lia.
      by apply Hstep.
    + exists s'. split; [done|]. by replace (i + S (length l))%nat with (S i + length l)%nat by lia.
Qed.

(** The same for a run that is known to end. *)
Lemma rangeItems_invariant {A St : Type} (body : nat → A → St → option St)
    (P : nat → St → Prop) (l : list A) :
  ∀ (i : nat) (s s' : St),
    P i s →
    (∀ k a s s', l !! k = Some a → P (i + k)%nat s →
       body (i + k)%nat a s = Some s' → P (S (i + k)) s') →
    rangeItems body i l s = Some s' →
    P (i + length l)%nat s'.
Proof.
  induction l as [|a l IH]; intros i s s' HP Hstep; simpl.
  - intros [= <-]. by rewrite Nat.add_0_r.
  - destruct (body i a s) as [s1|] eqn:Hb; simpl; [|done].
    intros Hrun.
    replace (i + S (length l))%nat with (S i + length l)%nat by lia.
    apply (IH (S i) s1 s'); [| |done].
    + specialize (Hstep 0%nat a s s1). rewrite Nat.add_0_r in Hstep. by apply Hstep.
    + intros k b s2 s3 Hk HP2 Hb2. replace (S i + k)%nat with (i + S k)%nat in * by lia.
      by apply (Hstep (S k) b s2 s3).
Qed.

(** *** Measurement *)

Lemma maxOver_max (acc : Z) (a : list Z) :
  acc ≤ maxOver acc a ∧
  (∀ v, v ∈ a → v ≤ maxOver acc a) ∧
  (maxOver acc a = acc ∨ maxOver acc a ∈ a).
Proof.
  unfold maxOver. revert acc. induction a as [|v a IH]; intros acc; simpl.
  - split; [lia|]. split; [|by left]. intros v Hv. by apply elem_of_nil in Hv.
  - destruct (IH (if decide (acc < v) then v else acc)) as (H1 & H2 & H3).
    split; [destruct (decide (acc < v)); lia|]. split.
    + intros u Hu. apply elem_of_cons in Hu as [->|Hu]; [|by apply H2].
      destruct (decide (acc < v)); lia.
    + destruct H3 as [H3|H3].
      * rewrite H3. destruct (decide (acc < v)); [right; left|by left].
      * right. by right.
Qed.

(** Every column index of the form is below the column count. *)
Lemma column_lt_count (f : Form) (c : Z) :
  c ∈ itemsColumn f → c < getColoumnsCount f.
Proof.
  intros H. unfold getColoumnsCount.
  destruct (maxOver_max 0 (itemsColumn f)) as (_ & Hmax & _).
  specialize (Hmax c H). unfold maxOver in Hmax. lia.
Qed.

Lemma getColoumnsCount_pos (f : Form) : 0 < getColoumnsCount f.
Proof.
  unfold getColoumnsCount.
  destruct (maxOver_max 0 (itemsColumn f)) as (H & _ & _). unfold maxOver in H. lia.
Qed.

Lemma columnsOK_column (f : Form) (i : nat) (item : FormItem) :
  columnsOK f → items f !! i = Some item →
  ∃ c, goIndex (itemsColumn f) (Z.of_nat i) = Some c ∧
       itemsColumn f !! i = Some c ∧ 0 ≤ c < getColoumnsCount f.
Proof.
  intros [Hlen Hpos] Hi. apply lookup_lt_Some in Hi.
  destruct (lookup_lt_is_Some_2 (itemsColumn f) i) as [c Hc]; [lia|].
  exists c. rewrite goIndex_nat. repeat split; try done.
  - rewrite Forall_lookup in Hpos. by apply (Hpos i).
  - apply column_lt_count. by eapply list_elem_of_lookup_2.
Qed.

Lemma goStore_ok {A : Type} (a : list A) (i : Z) (v : A) :
  0 ≤ i < len a → ∃ a', goStore a i v = Some a' ∧ length a' = length a.
Proof.
  intros H. rewrite goStore_Some by done. eexists. split; [done|]. by rewrite length_insert.
Qed.

(** Reads and writes of a column array at a column below its length. *)
Ltac column_access :=
  repeat match goal with
  | |- context [goIndex ?a ?c] =>
      let v := fresh "v" in let H := fresh "H" in
      destruct (goIndex_lt a c) as (v & H & _); [unfold len; lia|];
      rewrite H; clear H; simpl
  | |- context [goStore ?a ?c ?v] =>
      let a' := fresh "a" in let H := fresh "H" in let Hl := fresh "Hl" in
      destruct (goStore_ok a c v) as (a' & H & Hl); [unfold len; lia|];
      rewrite H; clear H; simpl
  | |- context [decide ?P] => destruct (decide P); simpl
  end.

Lemma measureLabelField_total (f : Form) (n : nat) (i : nat) (item : FormItem)
    (ml mf : list Z) :
  columnsOK f → items f !! i = Some item →
  n = Z.to_nat (getColoumnsCount f) → length ml = n → length mf = n →
  ∃ ml' mf', measureLabelField f i item (ml, mf) = Some (ml', mf') ∧
             length ml' = n ∧ length mf' = n.
Proof.
  intros Hok Hi Hn Hml Hmf.
  destruct (columnsOK_column f i item Hok Hi) as (c & Hc & _ & Hr).
  unfold measureLabelField. rewrite Hc. simpl.
  column_access; eexists _, _; (split; [reflexivity|]); split; congruence.
Qed.

Lemma measureTotal_total (f : Form) (n : nat) (i : nat) (item : FormItem)
    (ml mf mw : list Z) :
  columnsOK f → items f !! i = Some item →
  n = Z.to_nat (getColoumnsCount f) → length ml = n → length mf = n → length mw = n →
  ∃ mw', measureTotal f ml mf i item mw = Some mw' ∧ length mw' = n.
Proof.
  intros Hok Hi Hn Hml Hmf Hmw.
  destruct (columnsOK_column f i item Hok Hi) as (c & Hc & _ & Hr).
  unfold measureTotal. rewrite Hc. simpl.
  column_access; eexists; (split; [reflexivity|]); congruence.
Qed.

Lemma getMaxWidthItems_total (f : Form) :
  columnsOK f →
  ∃ mw ml mf, getMaxWidthItems f = Some (mw, ml, mf) ∧
    length mw = Z.to_nat (getColoumnsCount f) ∧
    length ml = Z.to_nat (getColoumnsCount f) ∧
    length mf = Z.to_nat (getColoumnsCount f).
Proof.
  intros Hok. unfold getMaxWidthItems, makeInts.
  pose proof (getColoumnsCount_pos f) as Hpos.
  destruct (decide (0 ≤ getColoumnsCount f)); [|lia]. simpl.
  set (n := Z.to_nat (getColoumnsCount f)).
  destruct (rangeItems_total (measureLabelField f)
              (λ _ s, length s.1 = n ∧ length s.2 = n) (items f) 0%nat
              (replicate n 0, replicate n 0)) as ([ml mf] & Hrun & Hml & Hmf).
  { simpl. by rewrite length_replicate. }
  { intros k item [ml mf] Hk [Hml Hmf]. simpl in *.
    destruct (measureLabelField_total f n k item ml mf) as (ml' & mf' & H & ? & ?); try done.
    exists (ml', mf'). done. }
  rewrite Hrun. simpl in *.
  destruct (rangeItems_total (measureTotal f ml mf)
              (λ _ s, length s = n) (items f) 0%nat (replicate n 0)) as (mw & Hrun2 & Hmw).
  { by rewrite length_replicate. }
  { intros k item mw Hk Hmw. simpl in *.
    by apply (measureTotal_total f n k item ml mf mw). }
  rewrite Hrun2. simpl. by exists mw, ml, mf.
Qed.

Lemma getMaxHeightColumn_total (f : Form) :
  columnsOK f → ∃ h, getMaxHeightColumn f = Some h.
Proof.
  intros Hok. unfold getMaxHeightColumn, makeInts.
  pose proof (getColoumnsCount_pos f) as Hpos.
  destruct (decide (0 ≤ getColoumnsCount f)); [|lia]. simpl.
  destruct (decide (0 < len (items f))); [|by eexists].
  set (n := Z.to_nat (getColoumnsCount f)).
  destruct (rangeItems_total (λ (i : nat) (item : FormItem) (maxHeight : list Z),
        column ← goIndex (itemsColumn f) (Z.of_nat i);
        old ← goIndex maxHeight column;
        goStore maxHeight column (old + (itemHeight item + itemPadding f)))
      (λ _ s, length s = n) (items f) 0%nat (replicate n 0)) as (mh & Hrun & Hmh).
  { by rewrite length_replicate. }
  { intros k item mh Hk Hmh. simpl in *.
    destruct (columnsOK_column f k item Hok Hk) as (c & Hc & _ & Hr).
    rewrite Hc. simpl. column_access. eexists. split; [reflexivity|]. congruence. }
  rewrite Hrun. simpl. by eexists.
Qed.





(** *** Placement: the loops run to their end *)

Lemma columnStarts_length (f : Form) (x : Z) (maxColWidth : list Z) :
  length (columnStarts f x maxColWidth) = length maxColWidth.
Proof.
  unfold columnStarts.
  assert (∀ (l acc : list Z) (width : Z),
    length (foldl (λ '(width, colX) w,
               (width + (w + 1 + columnPadding f), colX ++ [x + width]))
              (width, acc) l).2 = (length acc + length l)%nat) as H.
  { induction l as [|w l IH]; intros acc width; simpl; [lia|].
    rewrite IH, length_app. simpl. lia. }
  by rewrite H.
Qed.

Section ItemLoop.
Variables (f : Form) (focused : Target → bool).
Variables (DefaultFormFieldWidth startX rightLimit boxWidth : Z).
Variables (maxColWidth maxColLabelWidth colX : list Z).

Local Abbreviation body :=
  (placeItem f focused DefaultFormFieldWidth startX rightLimit boxWidth
     maxColWidth maxColLabelWidth colX).

(** What one run of the body does, read off its definition. *)
Lemma placeItem_Some (index : nat) (item : FormItem) (st st' : Layout) :
  body index item st = Some st' →
  ∃ column x y labelWidth fieldWidth itemWidth w,
    itemsColumn f !! index = Some column ∧ 0 ≤ column ∧
    colX !! Z.to_nat column = Some x ∧
    colY st !! Z.to_nat column = Some y ∧
    itemWidths f DefaultFormFieldWidth boxWidth maxColWidth maxColLabelWidth
      column item = Some (labelWidth, fieldWidth, itemWidth) ∧
    maxColWidth !! Z.to_nat column = Some w ∧
    (index < length (positions st))%nat ∧
    let wrap := wraps f x labelWidth rightLimit in
    let position := mkRect (if wrap then startX else x) (if wrap then y + 2 else y)
                      w (itemHeight item) in
    st' = mkLayout
            (<[Z.to_nat column :=
                 if horizontal f then ry position
                 else ry position + (itemHeight item + itemPadding f)]> (colY st))
            (<[index := position]> (positions st))
            (if focused (TItem index) then position else focusedPosition st)
            (attributes st ++
               [mkAttributes labelWidth fieldWidth (labelColor f) ColorBlack
                  (fieldTextColor f) (fieldBackgroundColor f)])
            (styled st).
Proof.
  unfold placeItem. intros H.
  destruct (goIndex (itemsColumn f) (Z.of_nat index)) as [column|] eqn:Hc; [|done].
  rewrite goIndex_nat in Hc. simpl in H.
  destruct (goIndex colX column) as [x|] eqn:Hx; [|done]. simpl in H.
  destruct (goIndex (colY st) column) as [y|] eqn:Hy; [|done]. simpl in H.
  destruct (itemWidths _ _ _ _ _ _ _) as [[[labelWidth fieldWidth] itemWidth]|] eqn:Hw;
    [|done]. simpl in H.
  apply goIndex_Some in Hx as [H0 Hx]. apply goIndex_Some in Hy as [_ Hy].
  exists column, x, y, labelWidth, fieldWidth, itemWidth.
  destruct (wraps f x labelWidth rightLimit) eqn:Hwrap;
  destruct (goIndex maxColWidth column) as [w|] eqn:Hmw; try done; simpl in H;
  apply goIndex_Some in Hmw as [_ Hmw]; exists w;
  destruct (goStore (positions st) _ _) as [positions'|] eqn:Hp; try done; simpl in H;
  apply goStore_inv in Hp as [Hpr ->]; rewrite Nat2Z.id in H;
  destruct (horizontal f) eqn:Hh; simpl in H;
  destruct (goStore (colY st) _ _) as [colY'|] eqn:Hcy; try done; simpl in H;
  apply goStore_inv in Hcy as [_ ->]; injection H as <-;
  (repeat split; try done; [unfold len in Hpr; lia]).
Qed.

Lemma itemWidths_total (n : nat) (column : Z) (item : FormItem) :
  length maxColWidth = n → length maxColLabelWidth = n →
  0 ≤ column < Z.of_nat n →
  ∃ r, itemWidths f DefaultFormFieldWidth boxWidth maxColWidth maxColLabelWidth
         column item = Some r.
Proof.
  intros Hw Hl Hc. unfold itemWidths.
  destruct (horizontal f); [by eexists|].
  destruct (GetFieldAlign item); column_access; by eexists.
Qed.

Lemma placeItem_total (n : nat) (index : nat) (item : FormItem) (st : Layout) :
  columnsOK f → items f !! index = Some item →
  n = Z.to_nat (getColoumnsCount f) →
  length maxColWidth = n → length maxColLabelWidth = n → length colX = n →
  length (colY st) = n → (index < length (positions st))%nat →
  ∃ st', body index item st = Some st'.
Proof.
  intros Hok Hi Hn Hw Hl Hx Hy Hp.
  destruct (columnsOK_column f index item Hok Hi) as (c & Hc & _ & Hr).
  destruct (itemWidths_total n c item) as ([[lw fw] iw] & Hiw); [done|done|lia|].
  unfold placeItem. rewrite Hc. simpl.
  column_access. rewrite Hiw. simpl.
  repeat match goal with
  | |- context [wraps ?a ?b ?c ?d] => destruct (wraps a b c d); simpl
  | |- context [horizontal f] => destruct (horizontal f); simpl
  | _ => progress column_access
  end; by eexists.
Qed.
End ItemLoop.

Section Placement.
Variables (f : Form) (focused : Target → bool).
Variables (DefaultFormFieldWidth : Z) (inner : Rect).

Local Abbreviation startX := (rx inner).
Local Abbreviation topLimit := (ry inner).
Local Abbreviation boxWidth := (rwidth inner).
Local Abbreviation rightLimit := (rx inner + rwidth inner).

(** The buttons loop keeps the length of [positions], and does not panic
    when every remaining button has a slot. *)
Lemma placeButtons_total (bs : list (nat * Button)) :
  ∀ (index : nat) (x y : Z) (st : Layout),
    (index + length bs + length (items f) ≤ length (positions st))%nat →
    ∃ st', placeButtons f focused startX rightLimit boxWidth index bs x y st = Some st' ∧
           length (positions st') = length (positions st).
Proof.
  induction bs as [|[j b] bs IH]; intros index x y st Hlen; simpl.
  - by eexists.
  - simpl in Hlen.
    destruct (negb (horizontal f) && bool_decide _); [by eexists|].
    rewrite goStore_Some by (unfold len; lia).
    edestruct IH as (st' & -> & Hl); [|eexists; split; [done|]].
    + simpl. rewrite length_insert. lia.
    + simpl in Hl. by rewrite length_insert in Hl.
Qed.
End Placement.

Section DrawRuns.
Variables (f : Form) (focused : Target → bool).
Variables (DefaultFormFieldWidth : Z) (inner : Rect).

Lemma placeItem_lengths startX rightLimit boxWidth mw ml colX
    (index : nat) (item : FormItem) (st st' : Layout) :
  placeItem f focused DefaultFormFieldWidth startX rightLimit boxWidth mw ml colX
    index item st = Some st' →
  length (colY st') = length (colY st) ∧
  length (positions st') = length (positions st).
Proof.
  intros H. apply placeItem_Some in H as (c & x & y & lw & fw & iw & w & H).
  destruct H as (_ & _ & _ & _ & _ & _ & _ & ->). simpl.
  by rewrite !length_insert.
Qed.

Lemma placeItems_total (mw ml : list Z) :
  columnsOK f →
  length mw = Z.to_nat (getColoumnsCount f) →
  length ml = Z.to_nat (getColoumnsCount f) →
  ∃ st, placeItems f focused DefaultFormFieldWidth inner mw ml = Some st ∧
        length (positions st) = (length (items f) + length (Buttons f))%nat.
Proof.
  intros Hok Hw Hl. unfold placeItems.
  set (n := Z.to_nat (getColoumnsCount f)) in *.
  edestruct (rangeItems_total
    (placeItem f focused DefaultFormFieldWidth (rx inner) (rx inner + rwidth inner)
       (rwidth inner) mw ml (columnsX f inner mw))
    (λ _ st, length (colY st) = n ∧
             length (positions st) = (length (items f) + length (Buttons f))%nat)
    (items f) 0%nat (initialLayout f inner mw)) as (st & Hrun & _ & Hp).
  - simpl. by rewrite length_fmap, length_replicate.
  - intros k item st Hk [Hy Hp]. simpl in *.
    destruct (placeItem_total f focused DefaultFormFieldWidth (rx inner)
                (rx inner + rwidth inner) (rwidth inner) mw ml (columnsX f inner mw)
                n k item st) as (st' & Hst'); try done.
    + unfold columnsX. by rewrite columnStarts_length.
    + apply lookup_lt_Some in Hk. lia.
    + exists st'. split; [done|].
      apply placeItem_lengths in Hst' as [-> ->]. done.
  - by exists st.
Qed.

Lemma place_Some (st : Layout) :
  place f focused DefaultFormFieldWidth inner = Some st →
  ∃ mw ml mf st1 h,
    getMaxWidthItems f = Some (mw, ml, mf) ∧
    placeItems f focused DefaultFormFieldWidth inner mw ml = Some st1 ∧
    getMaxHeightColumn f = Some h ∧
    placeButtons f focused (rx inner) (rx inner + rwidth inner) (rwidth inner)
      0%nat (Buttons f) (buttonsX f inner mw) (buttonsY f inner h) st1 = Some st.
Proof.
  unfold place. intros H.
  destruct (getMaxWidthItems f) as [[[mw ml] mf]|]; [|done]. simpl in H.
  destruct (placeItems _ _ _ _ _ _) as [st1|] eqn:H1; [|done]. simpl in H.
  destruct (getMaxHeightColumn f) as [h|]; [|done]. simpl in H.
  by exists mw, ml, mf, st1, h.
Qed.

Lemma place_total :
  columnsOK f →
  ∃ st, place f focused DefaultFormFieldWidth inner = Some st ∧
        length (positions st) = (length (items f) + length (Buttons f))%nat.
Proof.
  intros Hok. unfold place.
  destruct (getMaxWidthItems_total f Hok) as (mw & ml & mf & -> & Hw & Hl & _). simpl.
  destruct (placeItems_total mw ml Hok Hw Hl) as (st1 & -> & Hp). simpl.
  destruct (getMaxHeightColumn_total f Hok) as (h & ->). simpl.
  edestruct (placeButtons_total f focused inner (Buttons f) 0%nat) as (st & Hst & Hl');
    [|exists st; split; [exact Hst|]].
  - rewrite Hp. lia.
  - by rewrite Hl'.
Qed.

(** The drawing loops set one rectangle per element, the element's
    position moved up by the offset. *)
Lemma drawItems_rects (positions : list Rect) (offset top bottom : Z)
    (l : list FormItem) (d : Drawing) :
  rangeItems (drawItem focused positions offset top bottom) 0%nat l
    (mkDrawing [] [] []) = Some d →
  rects d = shifted offset <$> take (length l) positions.
Proof.
  intros H.
  apply (rangeItems_invariant _
           (λ i d, rects d = shifted offset <$> take i positions)) in H; [done|done|].
  intros k item d0 d1 Hk Hr. simpl in *. unfold drawItem.
  rewrite goIndex_nat.
  destruct (positions !! k) as [p|] eqn:Hp; [|done]. simpl.
  assert (rects d0 ++ [shifted offset p] = shifted offset <$> take (S k) positions) as E.
  { rewrite (take_S_r _ _ _ Hp), fmap_app, Hr. done. }
  repeat case_decide; destruct (focused (TItem k)); by intros [= <-].
Qed.

Lemma drawButtons_rects (positions : list Rect) (offset top bottom boxHeight : Z)
    (nItems : nat) (l : list (nat * Button)) (d0 d : Drawing) :
  rects d0 = [] →
  rangeItems (drawButton (Z.of_nat nItems) positions offset top bottom boxHeight)
    0%nat l d0 = Some d →
  rects d = shifted offset <$> take (length l) (drop nItems positions).
Proof.
  intros H0 H.
  apply (rangeItems_invariant _
           (λ i d, rects d = shifted offset <$> take i (drop nItems positions))) in H;
    [done|by rewrite take_0|].
  intros k b d1 d2 Hk Hr. simpl in *. unfold drawButton.
  replace (Z.of_nat k + Z.of_nat nItems) with (Z.of_nat (nItems + k)) by lia.
  rewrite goIndex_nat.
  destruct (positions !! (nItems + k)%nat) as [p|] eqn:Hp; [|done]. simpl.
  assert (rects d1 ++ [shifted offset p]
          = shifted offset <$> take (S k) (drop nItems positions)) as E.
  { rewrite (take_S_r _ _ p), fmap_app, Hr; [done|]. by rewrite lookup_drop. }
  repeat case_decide; by intros [= <-].
Qed.

Lemma drawItems_total (positions : list Rect) (offset top bottom : Z)
    (l : list FormItem) (d : Drawing) :
  (length l ≤ length positions)%nat →
  ∃ d', rangeItems (drawItem focused positions offset top bottom) 0%nat l d = Some d'.
Proof.
  intros Hlen.
  edestruct (rangeItems_total (drawItem focused positions offset top bottom)
               (λ _ _, True) l 0%nat d) as (d' & H & _); [done| |by exists d'].
  intros k item d0 Hk _. simpl. unfold drawItem. rewrite goIndex_nat.
  apply lookup_lt_Some in Hk.
  destruct (lookup_lt_is_Some_2 positions k) as [p ->]; [lia|]. simpl.
  repeat case_decide; destruct (focused (TItem k)); by eexists.
Qed.

Lemma drawButtons_total (positions : list Rect) (offset top bottom boxHeight : Z)
    (nItems : nat) (l : list (nat * Button)) (d : Drawing) :
  (nItems + length l ≤ length positions)%nat →
  ∃ d', rangeItems (drawButton (Z.of_nat nItems) positions offset top bottom boxHeight)
          0%nat l d = Some d'.
Proof.
  intros Hlen.
  edestruct (rangeItems_total
               (drawButton (Z.of_nat nItems) positions offset top bottom boxHeight)
               (λ _ _, True) l 0%nat d) as (d' & H & _); [done| |by exists d'].
  intros k b d0 Hk _. simpl. unfold drawButton.
  replace (Z.of_nat k + Z.of_nat nItems) with (Z.of_nat (nItems + k)) by lia.
  rewrite goIndex_nat. apply lookup_lt_Some in Hk.
  destruct (lookup_lt_is_Some_2 positions (nItems + k)) as [p ->]; [lia|]. simpl.
  repeat case_decide; by eexists.
Qed.

Lemma Draw_Some (r : DrawResult) :
  Draw f focused DefaultFormFieldWidth inner = Some r →
  place f focused DefaultFormFieldWidth inner = Some (layout r) ∧
  offset r = viewportOffset (focusedPosition (layout r)) (ry inner)
               (ry inner + rheight inner) ∧
  itemRects r = shifted (offset r) <$> take (length (items f)) (positions (layout r)) ∧
  buttonRects r = shifted (offset r) <$>
                    take (length (Buttons f))
                      (drop (length (items f)) (positions (layout r))).
Proof.
  unfold Draw. intros H.
  destruct (place _ _ _ _) as [st|]; [|done]. simpl in H.
  destruct (rangeItems (drawItem _ _ _ _ _) _ _ _) as [di|] eqn:Hdi; [|done]. simpl in H.
  destruct (rangeItems (drawButton _ _ _ _ _ _) _ _ _) as [db|] eqn:Hdb; [|done].
  simpl in H. injection H as <-. simpl.
  apply drawItems_rects in Hdi. apply drawButtons_rects in Hdb; [|done].
  done.
Qed.

Lemma Draw_total :
  columnsOK f → ∃ r, Draw f focused DefaultFormFieldWidth inner = Some r.
Proof.
  intros Hok. unfold Draw.
  destruct (place_total Hok) as (st & -> & Hlen). simpl.
  set (off := viewportOffset (focusedPosition st) (ry inner) (ry inner + rheight inner)).
  destruct (drawItems_total (positions st) off (ry inner) (ry inner + rheight inner)
              (items f) (mkDrawing [] [] [])) as (di & ->); [rewrite Hlen; lia|]. simpl.
  destruct (drawButtons_total (positions st) off (ry inner) (ry inner + rheight inner)
              (rheight inner) (length (items f)) (Buttons f)
              (mkDrawing [] (drawnNow di) [])) as (db & Hdb); [rewrite Hlen; lia|].
  unfold len. rewrite Hdb. simpl. by eexists.
Qed.
End DrawRuns.

(** The visible buttons are distinct buttons of [f.buttons]. *)
Lemma Buttons_NoDup (f : Form) : NoDup (Buttons f).*1.
Proof.
  unfold Buttons.
  apply (sublist_NoDup _ (imap (λ i b, (i, b)) (buttons f)).*1).
  - rewrite fmap_imap.
    rewrite (imap_ext _ (λ i _, i)) by done.
    rewrite imap_seq_0, list_fmap_id. apply NoDup_seq.
  - apply fmap_sublist, sublist_filter.
Qed.

Lemma Buttons_lookup_inj (f : Form) (k k' j : nat) (b b' : Button) :
  Buttons f !! k = Some (j, b) → Buttons f !! k' = Some (j, b') → k = k'.
Proof.
  intros H H'.
  apply (NoDup_lookup (Buttons f).*1 k k' j (Buttons_NoDup f));
    rewrite list_lookup_fmap; [by rewrite H|by rewrite H'].
Qed.

(** *** The loop over the buttons *)

Section ButtonLoop.
Variables (f : Form) (focused : Target → bool).
Variables (startX rightLimit boxWidth : Z).

Local Abbreviation run := (placeButtons f focused startX rightLimit boxWidth).

(** The loop writes the slots of the buttons it reaches, nothing else. *)
Lemma placeButtons_frame (bs : list (nat * Button)) :
  ∀ (index : nat) (x y : Z) (st st' : Layout),
    run index bs x y st = Some st' →
    colY st' = colY st ∧ attributes st' = attributes st ∧
    length (positions st') = length (positions st) ∧
    take (index + length (items f)) (positions st')
      = take (index + length (items f)) (positions st).
Proof.
  induction bs as [|[j b] bs IH]; intros index x y st st'; simpl.
  - by intros [= <-].
  - destruct (negb (horizontal f) && bool_decide _); [by intros [= <-]|].
    destruct (goStore _ _ _) as [p'|] eqn:Hp; [|done].
    apply goStore_inv in Hp as [Hr ->].
    intros H. apply IH in H as (Hy & Ha & Hl & Ht). simpl in *.
    rewrite length_insert in Hl. repeat split; try done.
    replace (Z.to_nat (Z.of_nat index + len (items f)))
      with (index + length (items f))%nat in Ht by (unfold len; lia).
    apply (f_equal (take (index + length (items f)))) in Ht.
    rewrite !take_take in Ht.
    rewrite Nat.min_l in Ht by lia.
    by rewrite take_insert_ge in Ht by lia.
Qed.

(** Without a focused button among them the focused position stays. *)
Lemma placeButtons_focus_none (bs : list (nat * Button)) :
  ∀ (index : nat) (x y : Z) (st st' : Layout),
    (∀ j b, (j, b) ∈ bs → focused (TButton j) = false) →
    run index bs x y st = Some st' →
    focusedPosition st' = focusedPosition st.
Proof.
  induction bs as [|[j b] bs IH]; intros index x y st st' Hnone; simpl.
  - by intros [= <-].
  - destruct (negb (horizontal f) && bool_decide _); [by intros [= <-]|].
    destruct (goStore _ _ _) as [p'|] eqn:Hp; [|done].
    intros H. apply IH in H.
    + rewrite H. simpl. rewrite (Hnone j b); [done|by left].
    + intros j' b' Hin. apply (Hnone j' b'). by right.
Qed.

(** When one visible button reports focus, and no item does, the focused
    position is the position of that button: the rectangle it was placed
    at, or the zero rectangle its slot keeps when the loop left before. *)
Lemma placeButtons_focus_button (k0 : nat) (bs : list (nat * Button)) :
  ∀ (index : nat) (x y : Z) (st st' : Layout),
    (∀ k j b, bs !! k = Some (j, b) →
              focused (TButton j) = true ↔ (index + k)%nat = k0) →
    (k0 < index + length bs)%nat →
    (index + length bs + length (items f) ≤ length (positions st))%nat →
    (∀ k, (index + length (items f) ≤ k < length (positions st))%nat →
          positions st !! k = Some zeroRect) →
    (k0 < index → positions st !! (k0 + length (items f))%nat = Some (focusedPosition st))%nat →
    (index ≤ k0 → focusedPosition st = zeroRect)%nat →
    run index bs x y st = Some st' →
    positions st' !! (k0 + length (items f))%nat = Some (focusedPosition st').
Proof.
  induction bs as [|[j b] bs IH]; intros index x y st st' Hfoc Hk0 Hlen Hzero Hdone Htodo;
    simpl in *.
  - intros [= <-]. apply Hdone. lia.
  - assert (Hstop : positions st !! (k0 + length (items f))%nat
                    = Some (focusedPosition st)).
    { destruct (decide (k0 < index)%nat) as [Hlt|Hge]; [by apply Hdone|].
      rewrite Htodo by lia. apply Hzero. lia. }
    destruct (negb (horizontal f) && bool_decide _); [by intros [= <-]|].
    destruct (goStore _ _ _) as [p'|] eqn:Hp; [|done].
    apply goStore_inv in Hp as [Hr ->].
    replace (Z.to_nat (Z.of_nat index + len (items f)))
      with (index + length (items f))%nat by (unfold len; lia).
    apply IH; simpl; rewrite ?length_insert.
    + intros k j' b' Hk. rewrite (Hfoc (S k) j' b' Hk). lia.
    + lia.
    + lia.
    + intros k Hk. rewrite list_lookup_insert_ne by lia. apply Hzero. lia.
    + intros Hlt.
      destruct (decide (k0 = index)) as [->|Hne].
      * rewrite list_lookup_insert_eq by lia.
        destruct (focused (TButton j)) eqn:Hj; [done|].
        pose proof (proj2 (Hfoc 0%nat j b eq_refl)) as H. rewrite Hj in H.
        discriminate H. lia.
      * rewrite list_lookup_insert_ne by lia.
        destruct (focused (TButton j)) eqn:Hj.
        -- pose proof (proj1 (Hfoc 0%nat j b eq_refl) Hj). lia.
        -- apply Hdone. lia.
    + intros Hge.
      destruct (focused (TButton j)) eqn:Hj.
      * pose proof (proj1 (Hfoc 0%nat j b eq_refl) Hj). lia.
      * apply Htodo. lia.
Qed.

(** In the vertical form the slots of the buttons end up as the row of
    [buttonRow], followed by zero rectangles for the buttons that the loop
    did not reach. *)
Lemma placeButtons_row (bs : list (nat * Button)) :
  ∀ (index : nat) (x y : Z) (st st' : Layout),
    horizontal f = false →
    drop (index + length (items f)) (positions st) = replicate (length bs) zeroRect →
    run index bs x y st = Some st' →
    let row := buttonRow (buttonsIndent f) rightLimit y x
                 ((λ p, buttonLabelWidth p.2 + 4) <$> bs) in
    drop (index + length (items f)) (positions st')
      = row ++ replicate (length bs - length row) zeroRect.
Proof.
  induction bs as [|[j b] bs IH]; intros index x y st st' Hv Hzero; simpl.
  - intros [= <-]. done.
  - rewrite Hv. simpl.
    destruct (decide (rightLimit - x < 1)) as [Hs|Hs].
    + rewrite bool_decide_eq_true_2 by done. intros [= <-]. done.
    + rewrite bool_decide_eq_false_2 by done.
      destruct (goStore _ _ _) as [p'|] eqn:Hp; [|done].
      apply goStore_inv in Hp as [Hr ->].
      replace (Z.to_nat (Z.of_nat index + len (items f)))
        with (index + length (items f))%nat by (unfold len; lia).
      intros H. pose proof H as Hframe.
      apply placeButtons_frame in Hframe as (_ & _ & Hl & Ht). simpl in *.
      rewrite length_insert in Hl.
      set (n := (index + length (items f))%nat) in *.
      assert (Hn : (n < length (positions st))%nat) by (unfold len in Hr; lia).
      apply IH in H; [|done|].
      * simpl in H. fold n in H.
        erewrite drop_S.
        -- f_equal. exact H.
        -- rewrite <- (lookup_take_lt _ (S n)) by lia. rewrite Ht.
           rewrite lookup_take_lt by lia. by rewrite list_lookup_insert_eq.
      * simpl. fold n. rewrite drop_insert_lt by lia.
        replace (S n) with (n + 1)%nat by lia.
        by rewrite <- drop_drop, Hzero.
Qed.
End ButtonLoop.

Section ItemFacts.
Variables (f : Form) (focused : Target → bool).
Variables (DefaultFormFieldWidth : Z) (inner : Rect).
Variables (mw ml : list Z) (st : Layout).
Hypothesis Hrun :
  placeItems f focused DefaultFormFieldWidth inner mw ml = Some st.

Local Abbreviation body :=
  (placeItem f focused DefaultFormFieldWidth (rx inner) (rx inner + rwidth inner)
     (rwidth inner) mw ml (columnsX f inner mw)).

(** The loop over the items leaves the slots of the buttons zero. *)
Lemma placeItems_slots :
  drop (length (items f)) (positions st) = replicate (length (Buttons f)) zeroRect ∧
  length (positions st) = (length (items f) + length (Buttons f))%nat ∧
  styled st = [].
Proof.
  unfold placeItems in Hrun.
  apply (rangeItems_invariant _
    (λ _ st, drop (length (items f)) (positions st)
               = replicate (length (Buttons f)) zeroRect ∧
             length (positions st) = (length (items f) + length (Buttons f))%nat ∧
             styled st = [])) in Hrun; [done| |].
  - simpl. by rewrite drop_replicate_add, length_replicate.
  - intros k item s s' Hk (Hd & Hl & Hs) Hb. simpl in *.
    apply placeItem_Some in Hb as (c & x & y & lw & fw & iw & w & H).
    destruct H as (_ & _ & _ & _ & _ & _ & _ & ->). simpl.
    apply lookup_lt_Some in Hk.
    by rewrite drop_insert_lt, length_insert by lia.
Qed.

(** One [SetFormAttributes] call per item, in the order of the items:
    the widths are those of [itemWidths], the colours are the label
    colour, black, the field text colour and the field background. *)
Lemma placeItems_attributes :
  length (attributes st) = length (items f) ∧
  ∀ i item, items f !! i = Some item →
    ∃ c itemWidth a,
      itemsColumn f !! i = Some c ∧ attributes st !! i = Some a ∧
      itemWidths f DefaultFormFieldWidth (rwidth inner) mw ml c item
        = Some (attrLabelWidth a, attrFieldWidth a, itemWidth) ∧
      pushedColors f a.
Proof.
  unfold placeItems in Hrun.
  apply (rangeItems_invariant _
    (λ n st, length (attributes st) = n ∧
       ∀ i item, (i < n)%nat → items f !! i = Some item →
         ∃ c itemWidth a,
           itemsColumn f !! i = Some c ∧ attributes st !! i = Some a ∧
           itemWidths f DefaultFormFieldWidth (rwidth inner) mw ml c item
             = Some (attrLabelWidth a, attrFieldWidth a, itemWidth) ∧
           pushedColors f a)) in Hrun.
  - destruct Hrun as [Hl H]. split; [done|]. intros i item Hi.
    apply (H i item); [|done]. apply lookup_lt_Some in Hi. lia.
  - split; [done|]. intros i item Hi. lia.
  - intros k item s s' Hk (Hl & Ha) Hb. simpl in *.
    apply placeItem_Some in Hb as (c & x & y & lw & fw & iw & w & H).
    destruct H as (Hc & _ & _ & _ & Hw & _ & _ & ->). simpl.
    split; [rewrite length_app; simpl; lia|].
    intros i item' Hi Hitem.
    destruct (decide (i = k)) as [->|Hne].
    + rewrite Hk in Hitem. injection Hitem as <-.
      eexists c, iw, _. split; [done|]. split.
      * rewrite lookup_app_r, Hl, Nat.sub_diag by lia. done.
      * done.
    + destruct (Ha i item') as (c' & iw' & a & ? & ? & ? & ?); [lia|done|].
      exists c', iw', a. split; [done|]. split; [|done].
      by apply lookup_app_l_Some.
Qed.

(** When one item reports focus, and nothing else does, the focused
    position is the position of that item. *)
Lemma placeItems_focus_item (i0 : nat) :
  (i0 < length (items f))%nat →
  (∀ i, focused (TItem i) = true ↔ i = i0) →
  positions st !! i0 = Some (focusedPosition st).
Proof.
  intros Hi0 Hfoc. unfold placeItems in Hrun.
  apply (rangeItems_invariant _
    (λ n st, (i0 < n → positions st !! i0 = Some (focusedPosition st))%nat ∧
             (n ≤ i0 → focusedPosition st = zeroRect)%nat)) in Hrun.
  - apply Hrun. lia.
  - simpl. split; [lia|done].
  - intros k item s s' Hk (Hdone & Htodo) Hb. simpl in *.
    apply placeItem_Some in Hb as (c & x & y & lw & fw & iw & w & H).
    destruct H as (_ & _ & _ & _ & _ & _ & Hlt & ->). simpl.
    destruct (decide (k = i0)) as [->|Hne].
    + rewrite (proj2 (Hfoc i0) eq_refl). split; [|lia].
      intros _. by rewrite list_lookup_insert_eq.
    + destruct (focused (TItem k)) eqn:Hfk; [apply Hfoc in Hfk; lia|].
      split.
      * intros ?. rewrite list_lookup_insert_ne by done. apply Hdone. lia.
      * intros ?. apply Htodo. lia.
Qed.

(** When no item reports focus the focused position is still zero. *)
Lemma placeItems_focus_none :
  (∀ i, focused (TItem i) = false) → focusedPosition st = zeroRect.
Proof.
  intros Hfoc. unfold placeItems in Hrun.
  apply (rangeItems_invariant _ (λ _ st, focusedPosition st = zeroRect)) in Hrun;
    [done|done|].
  intros k item s s' Hk Hz Hb. simpl in *.
  apply placeItem_Some in Hb as (c & x & y & lw & fw & iw & w & H).
  destruct H as (_ & _ & _ & _ & _ & _ & _ & ->). simpl.
  by rewrite Hfoc.
Qed.
End ItemFacts.

(** C9 (amended).  A draw of a form whose fields all have a column makes one
    [SetFormAttributes] call per field, in order; it passes the label width
    and field width computed for the field, the form's label colour, the
    fixed colour black as background, the form's field text colour and the
    form's field background colour. *)
Theorem Draw_pushes_attributes (f : Form) (focused : Target → bool)
    (DefaultFormFieldWidth : Z) (inner : Rect) :
  columnsOK f →
  ∃ r maxColWidth maxColLabelWidth maxColFieldWidth,
    Draw f focused DefaultFormFieldWidth inner = Some r ∧
    getMaxWidthItems f = Some (maxColWidth, maxColLabelWidth, maxColFieldWidth) ∧
    length (attributes (layout r)) = length (items f) ∧
    ∀ i item, items f !! i = Some item →
      ∃ column itemWidth a,
        itemsColumn f !! i = Some column ∧
        attributes (layout r) !! i = Some a ∧
        itemWidths f DefaultFormFieldWidth (rwidth inner) maxColWidth maxColLabelWidth
          column item = Some (attrLabelWidth a, attrFieldWidth a, itemWidth) ∧
        attrLabelColor a = labelColor f ∧
        attrBgColor a = ColorBlack ∧
        attrFieldTextColor a = fieldTextColor f ∧
        attrFieldBgColor a = fieldBackgroundColor f.
Proof.
  intros Hok.
  destruct (Draw_total f focused DefaultFormFieldWidth inner Hok) as (r & Hr).
  pose proof (Draw_Some _ _ _ _ _ Hr) as (Hplace & _).
  apply place_Some in Hplace as (mw & ml & mf & st1 & h & Hw & Hitems & _ & Hbuttons).
  apply placeButtons_frame in Hbuttons as (_ & Ha & _).
  destruct (placeItems_attributes _ _ _ _ _ _ _ Hitems) as (Hlen & Hall).
  exists r, mw, ml, mf. rewrite Ha. split; [done|]. split; [done|]. split; [done|].
  exact Hall.
Qed.

(** C4.  A draw of a form whose fields all have a column ends; the rectangle
    it keeps for the focused element is the position of the one item, or of
    the one visible button, that reports focus.  When the bottom edge of that
    rectangle is beyond the bottom limit the offset is the overflow, unless
    the top edge would then rise above the top limit, in which case it is the
    top edge minus the top limit; otherwise the offset is 0.  The rectangle
    set on every item and on every visible button is its position with the
    offset taken from the row, which is the position itself when the offset
    is 0. *)
Theorem Draw_viewport_offset (f : Form) (focused : Target → bool)
    (DefaultFormFieldWidth : Z) (inner : Rect) :
  columnsOK f →
  ∃ r,
    Draw f focused DefaultFormFieldWidth inner = Some r ∧
    let focusedPos := focusedPosition (layout r) in
    let topLimit := ry inner in
    let bottomLimit := ry inner + rheight inner in
    let overflow := ry focusedPos + rheight focusedPos - bottomLimit in
    (∀ i, (i < length (items f))%nat →
          (∀ t, focused t = true ↔ t = TItem i) →
          positions (layout r) !! i = Some focusedPos) ∧
    (∀ k j b, Buttons f !! k = Some (j, b) →
              (∀ t, focused t = true ↔ t = TButton j) →
              positions (layout r) !! (length (items f) + k)%nat = Some focusedPos) ∧
    (ry focusedPos + rheight focusedPos > bottomLimit →
       ry focusedPos - overflow >= topLimit → offset r = overflow) ∧
    (ry focusedPos + rheight focusedPos > bottomLimit →
       ry focusedPos - overflow < topLimit → offset r = ry focusedPos - topLimit) ∧
    (ry focusedPos + rheight focusedPos ≤ bottomLimit →
       offset r = 0 ∧
       itemRects r = take (length (items f)) (positions (layout r)) ∧
       buttonRects r = drop (length (items f)) (positions (layout r))) ∧
    length (itemRects r) = length (items f) ∧
    length (buttonRects r) = length (Buttons f) ∧
    (∀ i p, (i < length (items f))%nat → positions (layout r) !! i = Some p →
            itemRects r !! i
              = Some (mkRect (rx p) (ry p - offset r) (rwidth p) (rheight p))) ∧
    (∀ k p, positions (layout r) !! (length (items f) + k)%nat = Some p →
            buttonRects r !! k
              = Some (mkRect (rx p) (ry p - offset r) (rwidth p) (rheight p))).
Proof.
  intros Hok.
  destruct (Draw_total f focused DefaultFormFieldWidth inner Hok) as (r & Hr).
  exists r. split; [done|].
  pose proof (Draw_Some _ _ _ _ _ Hr) as (Hplace & Hoff & Hir & Hbr).
  apply place_Some in Hplace as (mw & ml & mf & st1 & h & Hw & Hitems & _ & Hbuttons).
  destruct (placeItems_slots _ _ _ _ _ _ _ Hitems) as (Hslots & Hlen1 & _).
  pose proof (placeButtons_frame _ _ _ _ _ _ _ _ _ _ _ Hbuttons) as (_ & _ & Hlen & Htake).
  simpl in Htake.
  assert (Hlenr : length (positions (layout r))
                  = (length (items f) + length (Buttons f))%nat) by congruence.
  assert (Hdrop : take (length (Buttons f)) (drop (length (items f)) (positions (layout r)))
                  = drop (length (items f)) (positions (layout r))).
  { apply take_ge. rewrite length_drop. lia. }
  rewrite Hdrop in Hbr. simpl.
  split; [|split; [|split; [|split; [|split; [|split; [|split; [|split]]]]]]].
  - intros i Hi Hfoc.
    assert (focusedPosition (layout r) = focusedPosition st1) as ->.
    { eapply placeButtons_focus_none; [|exact Hbuttons].
      intros j b _. destruct (focused (TButton j)) eqn:E; [|done].
      by apply Hfoc in E. }
    rewrite <- (lookup_take_lt _ (length (items f))) by done.
    rewrite Htake, lookup_take_lt by done.
    apply (placeItems_focus_item _ _ _ _ _ _ _ Hitems i Hi).
    intros i'. rewrite Hfoc. split; [by intros [= ->]|by intros ->].
  - intros k j b Hk Hfoc.
    rewrite Nat.add_comm.
    apply (placeButtons_focus_button _ _ _ _ _ k _ _ _ _ _ _) with (7 := Hbuttons).
    + intros k' j' b' Hk'. simpl. rewrite Hfoc. split.
      * intros [= ->]. by eapply Buttons_lookup_inj.
      * intros ->. rewrite Hk in Hk'. by injection Hk' as -> _.
    + apply lookup_lt_Some in Hk. lia.
    + rewrite Hlen1. lia.
    + intros k' Hk'. simpl in Hk'.
      replace k' with (length (items f) + (k' - length (items f)))%nat by lia.
      rewrite <- lookup_drop, Hslots. apply lookup_replicate_2. lia.
    + lia.
    + intros _. apply (placeItems_focus_none _ _ _ _ _ _ _ Hitems).
      intros i. destruct (focused (TItem i)) eqn:E; [|done]. by apply Hfoc in E.
  - intros H1 H2. rewrite Hoff. unfold viewportOffset.
    destruct (decide _); [|lia]. destruct (decide _); [lia|done].
  - intros H1 H2. rewrite Hoff. unfold viewportOffset.
    destruct (decide _); [|lia]. destruct (decide _); [done|lia].
  - intros H1.
    assert (offset r = 0) as H0.
    { rewrite Hoff. unfold viewportOffset. destruct (decide _); [lia|done]. }
    assert (∀ l : list Rect, shifted 0 <$> l = l) as Hid.
    { intros l. induction l as [|[x y w h'] l IH]; [done|].
      rewrite fmap_cons, IH. unfold shifted. simpl. do 2 f_equal. lia. }
    rewrite Hir, Hbr, H0, !Hid. done.
  - rewrite Hir, length_fmap, length_take. lia.
  - rewrite Hbr, length_fmap, length_drop. lia.
  - intros i p Hi Hp. rewrite Hir, list_lookup_fmap, lookup_take_lt, Hp by done. done.
  - intros k p Hp. rewrite Hbr, list_lookup_fmap, lookup_drop, Hp. done.
Qed.

(** The row of [buttonRow]: every button in it had at least one cell of
    space and is as wide as its own width or as that space; the row ends
    before the first button that has less than one cell. *)
Lemma buttonRow_spec (indent rightLimit y : Z) (widths : list Z) :
  ∀ x,
    let row := buttonRow indent rightLimit y x widths in
    (length row ≤ length widths)%nat ∧
    (∀ k p, row !! k = Some p →
       rx p = rowEnd indent x (take k row) ∧ ry p = y ∧ rheight p = 1 ∧
       1 ≤ rightLimit - rx p ∧
       ∃ w, widths !! k = Some w ∧ rwidth p = Z.min w (rightLimit - rx p)) ∧
    ((length row < length widths)%nat → rightLimit - rowEnd indent x row < 1).
Proof.
  induction widths as [|w ws IH]; intros x; simpl.
  - split; [lia|]. split; [|lia]. intros k p Hk. by rewrite lookup_nil in Hk.
  - destruct (decide (rightLimit - x < 1)) as [Hs|Hs]; simpl.
    + split; [lia|]. split; [|done]. intros k p Hk. by rewrite lookup_nil in Hk.
    + set (w' := if decide (w > rightLimit - x) then rightLimit - x else w).
      destruct (IH (x + (w' + indent))) as (Hlen & Hplaced & Hstop).
      split; [lia|]. split.
      * intros [|k] p Hk; simpl in *.
        -- injection Hk as <-. simpl. repeat split; try done; [lia|].
           exists w. split; [done|]. unfold w'. destruct (decide _); lia.
        -- destruct (Hplaced k p Hk) as (H1 & H2 & H3 & H4 & H5).
           unfold rowEnd in *. simpl. done.
      * intros Hlt. unfold rowEnd in *. simpl. apply Hstop. lia.
Qed.

(** C7 (amended).  In a vertical form whose fields all have a column, the
    buttons are placed left to right from the start of the row while at
    least one cell is left before the right limit; a placed button is as wide
    as its label plus 4, or as the space left when that is less.  At the
    first button for which less than one cell is left the placement stops:
    that button and the buttons after it keep the zero rectangle. *)
Theorem Draw_vertical_buttons (f : Form) (focused : Target → bool)
    (DefaultFormFieldWidth : Z) (inner : Rect) :
  columnsOK f → horizontal f = false →
  ∃ r maxColWidth maxColLabelWidth maxColFieldWidth maxHeight row,
    Draw f focused DefaultFormFieldWidth inner = Some r ∧
    getMaxWidthItems f = Some (maxColWidth, maxColLabelWidth, maxColFieldWidth) ∧
    getMaxHeightColumn f = Some maxHeight ∧
    let rightLimit := rx inner + rwidth inner in
    let x := buttonsX f inner maxColWidth in
    let y := buttonsY f inner maxHeight in
    drop (length (items f)) (positions (layout r))
      = row ++ replicate (length (Buttons f) - length row) zeroRect ∧
    (length row ≤ length (Buttons f))%nat ∧
    (∀ k p, row !! k = Some p →
       rx p = rowEnd (buttonsIndent f) x (take k row) ∧ ry p = y ∧ rheight p = 1 ∧
       1 ≤ rightLimit - rx p ∧
       ∃ w, buttonWidths f !! k = Some w ∧ rwidth p = Z.min w (rightLimit - rx p)) ∧
    ((length row < length (Buttons f))%nat →
       rightLimit - rowEnd (buttonsIndent f) x row < 1).
Proof.
  intros Hok Hv.
  destruct (Draw_total f focused DefaultFormFieldWidth inner Hok) as (r & Hr).
  pose proof (Draw_Some _ _ _ _ _ Hr) as (Hplace & _).
  apply place_Some in Hplace as (mw & ml & mf & st1 & h & Hw & Hitems & Hh & Hbuttons).
  destruct (placeItems_slots _ _ _ _ _ _ _ Hitems) as (Hslots & _ & _).
  apply placeButtons_row in Hbuttons; [|done|done]. simpl in Hbuttons.
  destruct (buttonRow_spec (buttonsIndent f) (rx inner + rwidth inner)
              (buttonsY f inner h) (buttonWidths f) (buttonsX f inner mw))
    as (Hlen & Hplaced & Hstop).
  unfold buttonWidths in Hlen, Hstop, Hplaced. rewrite length_fmap in Hlen, Hstop.
  exists r, mw, ml, mf, h,
    (buttonRow (buttonsIndent f) (rx inner + rwidth inner) (buttonsY f inner h)
       (buttonsX f inner mw) ((λ p, buttonLabelWidth p.2 + 4) <$> Buttons f)).
  split; [done|]. split; [done|]. split; [done|]. simpl.
  split; [exact Hbuttons|]. split; [exact Hlen|]. split; [exact Hplaced|exact Hstop].
Qed.


Section HorizontalItems.
Variables (f : Form) (focused : Target → bool).
Variables (DefaultFormFieldWidth : Z) (inner : Rect).
Variables (mw ml : list Z) (st : Layout).
Hypothesis Hh : horizontal f = true.
Hypothesis Hrun :
  placeItems f focused DefaultFormFieldWidth inner mw ml = Some st.

Local Abbreviation rightLimit := (rx inner + rwidth inner).

End HorizontalItems.


(** *** The layout properties on concrete forms *)

Lemma oneField_columnsOK : columnsOK oneField.
Proof. split; [simpl; lia|]. repeat constructor; lia. Qed.

Lemma oneFieldTwoButtons_columnsOK : columnsOK oneFieldTwoButtons.
Proof. split; [simpl; lia|]. repeat constructor; lia. Qed.


(** C9 (amended), at the form with one field. *)
Lemma Draw_pushes_attributes_witness :
  columnsOK oneField ∧
  ∃ r maxColWidth maxColLabelWidth maxColFieldWidth,
    Draw oneField (holds None) 10 (mkRect 1 1 40 10) = Some r ∧
    getMaxWidthItems oneField
      = Some (maxColWidth, maxColLabelWidth, maxColFieldWidth) ∧
    length (attributes (layout r)) = length (items oneField) ∧
    ∀ i item, items oneField !! i = Some item →
      ∃ column itemWidth a,
        itemsColumn oneField !! i = Some column ∧
        attributes (layout r) !! i = Some a ∧
        itemWidths oneField 10 (rwidth (mkRect 1 1 40 10)) maxColWidth maxColLabelWidth
          column item = Some (attrLabelWidth a, attrFieldWidth a, itemWidth) ∧
        attrLabelColor a = labelColor oneField ∧
        attrBgColor a = ColorBlack ∧
        attrFieldTextColor a = fieldTextColor oneField ∧
        attrFieldBgColor a = fieldBackgroundColor oneField.
Proof.
  split; [exact oneField_columnsOK|].
  apply (Draw_pushes_attributes oneField (holds None) 10 (mkRect 1 1 40 10)).
  exact oneField_columnsOK.
Defined.

(** C9 as stated fails: the form is configured with the colours 11 to 16,
    and the background colour its field receives is black, which is none of
    them. *)
Lemma Draw_background_not_configured :
  ∃ r a,
    Draw oneField (holds None) 10 (mkRect 1 1 40 10) = Some r ∧
    attributes (layout r) = [a] ∧
    attrBgColor a = ColorBlack ∧
    attrBgColor a ∉ configuredColors oneField.
Proof.
  eexists _, _. split; [vm_compute; reflexivity|]. split; [reflexivity|].
  split; [reflexivity|]. vm_compute.
  intros H. repeat (apply elem_of_cons in H as [H|H]; [discriminate H|]).
  by apply elem_of_nil in H.
Qed.

(** C4, at the form with one field and two buttons, the second button
    holding focus, in a box three rows high. *)
Lemma Draw_viewport_offset_witness :
  columnsOK oneFieldTwoButtons ∧
  ∃ r,
    Draw oneFieldTwoButtons (holds (Some (TButton 1%nat))) 10 (mkRect 0 0 40 3) = Some r ∧
    let focusedPos := focusedPosition (layout r) in
    let topLimit := ry (mkRect 0 0 40 3) in
    let bottomLimit := ry (mkRect 0 0 40 3) + rheight (mkRect 0 0 40 3) in
    let overflow := ry focusedPos + rheight focusedPos - bottomLimit in
    (∀ i, (i < length (items oneFieldTwoButtons))%nat →
          (∀ t, holds (Some (TButton 1%nat)) t = true ↔ t = TItem i) →
          positions (layout r) !! i = Some focusedPos) ∧
    (∀ k j b, Buttons oneFieldTwoButtons !! k = Some (j, b) →
              (∀ t, holds (Some (TButton 1%nat)) t = true ↔ t = TButton j) →
              positions (layout r) !! (length (items oneFieldTwoButtons) + k)%nat
                = Some focusedPos) ∧
    (ry focusedPos + rheight focusedPos > bottomLimit →
       ry focusedPos - overflow >= topLimit → offset r = overflow) ∧
    (ry focusedPos + rheight focusedPos > bottomLimit →
       ry focusedPos - overflow < topLimit → offset r = ry focusedPos - topLimit) ∧
    (ry focusedPos + rheight focusedPos ≤ bottomLimit →
       offset r = 0 ∧
       itemRects r = take (length (items oneFieldTwoButtons)) (positions (layout r)) ∧
       buttonRects r = drop (length (items oneFieldTwoButtons)) (positions (layout r))) ∧
    length (itemRects r) = length (items oneFieldTwoButtons) ∧
    length (buttonRects r) = length (Buttons oneFieldTwoButtons) ∧
    (∀ i p, (i < length (items oneFieldTwoButtons))%nat →
            positions (layout r) !! i = Some p →
            itemRects r !! i
              = Some (mkRect (rx p) (ry p - offset r) (rwidth p) (rheight p))) ∧
    (∀ k p, positions (layout r) !! (length (items oneFieldTwoButtons) + k)%nat = Some p →
            buttonRects r !! k
              = Some (mkRect (rx p) (ry p - offset r) (rwidth p) (rheight p))).
Proof.
  split; [exact oneFieldTwoButtons_columnsOK|].
  apply (Draw_viewport_offset oneFieldTwoButtons (holds (Some (TButton 1%nat))) 10
           (mkRect 0 0 40 3)).
  exact oneFieldTwoButtons_columnsOK.
Defined.

(** C7 (amended), at the form with one field and two buttons in a box eight
    cells wide. *)
Lemma Draw_vertical_buttons_witness :
  columnsOK oneFieldTwoButtons ∧ horizontal oneFieldTwoButtons = false ∧
  ∃ r maxColWidth maxColLabelWidth maxColFieldWidth maxHeight row,
    Draw oneFieldTwoButtons (holds None) 10 (mkRect 0 0 8 10) = Some r ∧
    getMaxWidthItems oneFieldTwoButtons
      = Some (maxColWidth, maxColLabelWidth, maxColFieldWidth) ∧
    getMaxHeightColumn oneFieldTwoButtons = Some maxHeight ∧
    let rightLimit := rx (mkRect 0 0 8 10) + rwidth (mkRect 0 0 8 10) in
    let x := buttonsX oneFieldTwoButtons (mkRect 0 0 8 10) maxColWidth in
    let y := buttonsY oneFieldTwoButtons (mkRect 0 0 8 10) maxHeight in
    drop (length (items oneFieldTwoButtons)) (positions (layout r))
      = row ++ replicate (length (Buttons oneFieldTwoButtons) - length row) zeroRect ∧
    (length row ≤ length (Buttons oneFieldTwoButtons))%nat ∧
    (∀ k p, row !! k = Some p →
       rx p = rowEnd (buttonsIndent oneFieldTwoButtons) x (take k row) ∧
       ry p = y ∧ rheight p = 1 ∧
       1 ≤ rightLimit - rx p ∧
       ∃ w, buttonWidths oneFieldTwoButtons !! k = Some w ∧
            rwidth p = Z.min w (rightLimit - rx p)) ∧
    ((length row < length (Buttons oneFieldTwoButtons))%nat →
       rightLimit - rowEnd (buttonsIndent oneFieldTwoButtons) x row < 1).
Proof.
  split; [exact oneFieldTwoButtons_columnsOK|]. split; [reflexivity|].
  apply (Draw_vertical_buttons oneFieldTwoButtons (holds None) 10 (mkRect 0 0 8 10)).
  - exact oneFieldTwoButtons_columnsOK.
  - reflexivity.
Defined.

(** C7 as stated fails: the first button is 10 cells wide and 8 cells are
    left before the right limit, so it does not fit; it is placed all the
    same, 8 cells wide.  It is the second button, for which no cell is left,
    that is not placed. *)
Lemma Draw_places_button_that_does_not_fit :
  horizontal oneFieldTwoButtons = false ∧
  ∃ r w,
    Draw oneFieldTwoButtons (holds None) 10 (mkRect 0 0 8 10) = Some r ∧
    buttonWidths oneFieldTwoButtons !! 0%nat = Some w ∧
    w > rx (mkRect 0 0 8 10) + rwidth (mkRect 0 0 8 10)
        - buttonsX oneFieldTwoButtons (mkRect 0 0 8 10) [13] ∧
    drop (length (items oneFieldTwoButtons)) (positions (layout r))
      = [mkRect 0 3 8 1; zeroRect].
Proof.
  split; [reflexivity|]. eexists _, _.
  split; [vm_compute; reflexivity|]. split; [reflexivity|].
  split; [vm_compute; reflexivity|]. reflexivity.
Qed.




(** *** Navigation: candidate lists and their rotation *)

Lemma makeRange_up (start end_ : Z) :
  start < end_ → makeRange start end_ = upFrom start (Z.to_nat (end_ - start + 1)).
Proof.
  intros H. unfold makeRange, upFrom, seqZ. destruct (decide _); [|lia].
  rewrite <- list_fmap_compose. apply list_fmap_ext. intros _ i _. simpl. lia.
Qed.

Lemma makeRange_down (start end_ : Z) :
  end_ ≤ start → makeRange start end_ = downFrom start (Z.to_nat (start - end_ + 1)).
Proof.
  intros H. unfold makeRange, downFrom, seqZ. destruct (decide _); [lia|].
  rewrite <- list_fmap_compose. apply list_fmap_ext. intros _ i _. simpl. lia.
Qed.

Lemma upFrom_S (a : Z) (n : nat) : upFrom a (S n) = a :: upFrom (a + 1) n.
Proof.
  unfold upFrom. simpl. f_equal; [lia|].
  rewrite <- fmap_S_seq, <- list_fmap_compose. apply list_fmap_ext. intros _ i _. simpl. lia.
Qed.

Lemma downFrom_S (a : Z) (n : nat) : downFrom a (S n) = a :: downFrom (a - 1) n.
Proof.
  unfold downFrom. simpl. f_equal; [lia|].
  rewrite <- fmap_S_seq, <- list_fmap_compose. apply list_fmap_ext. intros _ i _. simpl. lia.
Qed.

Lemma upFrom_lookup (a : Z) (n k : nat) (c : Z) :
  upFrom a n !! k = Some c ↔ c = a + Z.of_nat k ∧ (k < n)%nat.
Proof.
  unfold upFrom. rewrite list_lookup_fmap. split.
  - intros H. destruct (seq 0 n !! k) as [j|] eqn:E; [|done].
    apply lookup_seq in E as [-> ?]. simpl in H. injection H as <-. split; [lia|done].
  - intros [-> H]. by rewrite lookup_seq_lt.
Qed.

Lemma downFrom_lookup (a : Z) (n k : nat) (c : Z) :
  downFrom a n !! k = Some c ↔ c = a - Z.of_nat k ∧ (k < n)%nat.
Proof.
  unfold downFrom. rewrite list_lookup_fmap. split.
  - intros H. destruct (seq 0 n !! k) as [j|] eqn:E; [|done].
    apply lookup_seq in E as [-> ?]. simpl in H. injection H as <-. split; [lia|done].
  - intros [-> H]. by rewrite lookup_seq_lt.
Qed.

Lemma upFrom_length (a : Z) (n : nat) : length (upFrom a n) = n.
Proof. unfold upFrom. by rewrite length_fmap, length_seq. Qed.

Lemma downFrom_length (a : Z) (n : nat) : length (downFrom a n) = n.
Proof. unfold downFrom. by rewrite length_fmap, length_seq. Qed.

Lemma drop_upFrom (a : Z) (n k : nat) :
  drop k (upFrom a n) = upFrom (a + Z.of_nat k) (n - k).
Proof.
  apply list_eq. intros i. rewrite lookup_drop.
  destruct (upFrom (a + Z.of_nat k) (n - k) !! i) as [c|] eqn:E.
  - apply upFrom_lookup in E as [-> ?]. apply upFrom_lookup. split; lia.
  - destruct (upFrom a n !! (k + i)%nat) as [c|] eqn:E'; [|done].
    apply upFrom_lookup in E' as [-> ?].
    assert (upFrom (a + Z.of_nat k) (n - k) !! i = Some (a + Z.of_nat (k + i))) as E2.
    { apply upFrom_lookup. split; lia. }
    congruence.
Qed.

Lemma take_upFrom (a : Z) (n k : nat) :
  (k ≤ n)%nat → take k (upFrom a n) = upFrom a k.
Proof.
  intros Hk. apply list_eq. intros i.
  destruct (decide (i < k)%nat).
  - rewrite lookup_take_lt by done.
    destruct (upFrom a k !! i) as [c|] eqn:E.
    + apply upFrom_lookup in E as [-> ?]. apply upFrom_lookup. split; lia.
    + apply lookup_ge_None in E. rewrite upFrom_length in E. lia.
  - rewrite lookup_take_ge by lia. symmetry. apply lookup_ge_None.
    rewrite upFrom_length. lia.
Qed.

Lemma drop_downFrom (a : Z) (n k : nat) :
  drop k (downFrom a n) = downFrom (a - Z.of_nat k) (n - k).
Proof.
  apply list_eq. intros i. rewrite lookup_drop.
  destruct (downFrom (a - Z.of_nat k) (n - k) !! i) as [c|] eqn:E.
  - apply downFrom_lookup in E as [-> ?]. apply downFrom_lookup. split; lia.
  - destruct (downFrom a n !! (k + i)%nat) as [c|] eqn:E'; [|done].
    apply downFrom_lookup in E' as [-> ?].
    assert (downFrom (a - Z.of_nat k) (n - k) !! i = Some (a - Z.of_nat (k + i))) as E2.
    { apply downFrom_lookup. split; lia. }
    congruence.
Qed.

Lemma take_downFrom (a : Z) (n k : nat) :
  (k ≤ n)%nat → take k (downFrom a n) = downFrom a k.
Proof.
  intros Hk. apply list_eq. intros i.
  destruct (decide (i < k)%nat).
  - rewrite lookup_take_lt by done.
    destruct (downFrom a k !! i) as [c|] eqn:E.
    + apply downFrom_lookup in E as [-> ?]. apply downFrom_lookup. split; lia.
    + apply lookup_ge_None in E. rewrite downFrom_length in E. lia.
  - rewrite lookup_take_ge by lia. symmetry. apply lookup_ge_None.
    rewrite downFrom_length. lia.
Qed.

(** Where the first loop of [nextStep] turns an ascending list. *)
Lemma rotationPoint_up (focused : Z) (n : nat) :
  ∀ (a : Z) (i : nat), a ≤ focused →
    rotationPoint focused a (upFrom (a + 1) n) i
    = if decide (focused < a + Z.of_nat n)
      then Some (i + Z.to_nat (focused - a))%nat else None.
Proof.
  induction n as [|n IH]; intros a i Ha.
  - simpl. destruct (decide _); [lia|done].
  - rewrite upFrom_S. simpl. unfold turnsAt.
    destruct (decide (focused = a)) as [->|Hne].
    + rewrite bool_decide_eq_true_2 by lia. simpl.
      destruct (decide _); [|lia]. f_equal. lia.
    + rewrite bool_decide_eq_false_2 by lia.
      rewrite bool_decide_eq_false_2 by lia. simpl.
      rewrite IH by lia.
      destruct (decide (focused < a + 1 + Z.of_nat n));
        destruct (decide (focused < a + Z.of_nat (S n))); try lia; [|done].
      f_equal. lia.
Qed.

Lemma rotationPoint_down (focused : Z) (n : nat) :
  ∀ (a : Z) (i : nat), focused ≤ a →
    rotationPoint focused a (downFrom (a - 1) n) i
    = if decide (a - Z.of_nat n < focused)
      then Some (i + Z.to_nat (a - focused))%nat else None.
Proof.
  induction n as [|n IH]; intros a i Ha.
  - simpl. destruct (decide _); [lia|done].
  - rewrite downFrom_S. simpl. unfold turnsAt.
    destruct (decide (focused = a)) as [->|Hne].
    + rewrite bool_decide_eq_false_2 by lia.
      rewrite bool_decide_eq_true_2 by lia. simpl.
      destruct (decide _); [|lia]. f_equal. lia.
    + rewrite bool_decide_eq_false_2 by lia.
      rewrite bool_decide_eq_false_2 by lia. simpl.
      rewrite IH by lia.
      destruct (decide (a - 1 - Z.of_nat n < focused));
        destruct (decide (a - Z.of_nat (S n) < focused)); try lia; [|done].
      f_equal. lia.
Qed.

(** The rotated lists. *)
Lemma rotate_up (focused a : Z) (m : nat) :
  a ≤ focused →
  rotateIndexes focused (upFrom a (S m))
  = if decide (focused < a + Z.of_nat m)
    then upFrom (focused + 1) (m - Z.to_nat (focused - a))
         ++ upFrom a (S (Z.to_nat (focused - a)))
    else upFrom a (S m).
Proof.
  intros Ha. rewrite upFrom_S at 1. unfold rotateIndexes.
  rewrite rotationPoint_up by done.
  destruct (decide _); [|by rewrite upFrom_S].
  rewrite <- upFrom_S, drop_upFrom, take_upFrom by lia.
  f_equal; f_equal; lia.
Qed.

Lemma rotate_down (focused a : Z) (m : nat) :
  focused ≤ a →
  rotateIndexes focused (downFrom a (S m))
  = if decide (a - Z.of_nat m < focused)
    then downFrom (focused - 1) (m - Z.to_nat (a - focused))
         ++ downFrom a (S (Z.to_nat (a - focused)))
    else downFrom a (S m).
Proof.
  intros Ha. rewrite downFrom_S at 1. unfold rotateIndexes.
  rewrite rotationPoint_down by done.
  destruct (decide _); [|by rewrite downFrom_S].
  rewrite <- downFrom_S, drop_downFrom, take_downFrom by lia.
  f_equal; f_equal; lia.
Qed.

(** The rotation keeps the candidates. *)
Lemma rotateIndexes_Forall (P : Z → Prop) (focused : Z) (indexes : list Z) :
  Forall P indexes → Forall P (rotateIndexes focused indexes).
Proof.
  intros H. unfold rotateIndexes. destruct indexes as [|first rest]; [done|].
  destruct (rotationPoint _ _ _ _) as [i|]; [|done].
  rewrite <- (take_drop i (first :: rest)) in H.
  apply list.Forall_app in H as [H1 H2]. apply list.Forall_app. done.
Qed.

Lemma firstOther_skip (bound current : Z) (l1 l2 : list Z) :
  Forall (λ c, bound ≤ c ∨ c = current) l1 →
  firstOther bound current (l1 ++ l2) = firstOther bound current l2.
Proof.
  induction 1 as [|c l1 Hc _ IH]; [done|]. simpl.
  destruct (decide _); [lia|done].
Qed.

Lemma firstOther_none (bound current : Z) (l : list Z) :
  Forall (λ c, bound ≤ c ∨ c = current) l → firstOther bound current l = current.
Proof.
  intros H. rewrite <- (app_nil_r l). by rewrite firstOther_skip.
Qed.

(** The step of an ascending candidate list [a, ..., a + m] from a current
    index in it, when only its last candidate may be out of range. *)
Lemma up_step (a : Z) (m : nat) (bound current : Z) :
  a ≤ current ≤ a + Z.of_nat m → current < bound → a + Z.of_nat m ≤ bound →
  firstOther bound current (rotateIndexes current (upFrom a (S m)))
  = if decide (current + 1 ≤ a + Z.of_nat m ∧ current + 1 < bound)
    then current + 1 else a.
Proof.
  intros Hc Hb Hm. rewrite rotate_up by lia.
  destruct (decide (current < a + Z.of_nat m)) as [Hlt|Hge].
  - destruct (m - Z.to_nat (current - a))%nat as [|k] eqn:Hk; [lia|].
    rewrite upFrom_S. cbn [app firstOther].
    destruct (decide (current + 1 < bound ∧ _)).
    + destruct (decide _); [done|lia].
    + destruct (decide (_ ∧ _)); [lia|].
      assert (k = 0%nat) as -> by lia.
      replace (upFrom (current + 1 + 1) 0) with (@nil Z) by done.
      rewrite upFrom_S. cbn [app firstOther].
      destruct (decide (a < bound ∧ a ≠ current)); [done|].
      assert (a = current) as -> by lia.
      apply firstOther_none. apply list.Forall_forall. intros c Hin.
      apply list_elem_of_lookup in Hin as [i Hi].
      apply upFrom_lookup in Hi. lia.
  - destruct (decide (_ ∧ _)); [lia|].
    rewrite upFrom_S. cbn [app firstOther].
    destruct (decide (a < bound ∧ a ≠ current)); [done|].
    assert (a = current) as -> by lia.
    apply firstOther_none. apply list.Forall_forall. intros c Hin.
    apply list_elem_of_lookup in Hin as [i Hi].
    apply upFrom_lookup in Hi. lia.
Qed.

(** The step of a descending candidate list [a, ..., a - m]. *)
Lemma down_step (a : Z) (m : nat) (bound current : Z) :
  a - Z.of_nat m ≤ current ≤ a → current < bound → a ≤ bound →
  firstOther bound current (rotateIndexes current (downFrom a (S m)))
  = if decide (a - Z.of_nat m < current) then current - 1
    else Z.min a (bound - 1).
Proof.
  intros Hc Hb Hm. rewrite rotate_down by lia.
  destruct (decide (a - Z.of_nat m < current)) as [Hlt|Hge].
  - destruct (m - Z.to_nat (a - current))%nat as [|k] eqn:Hk; [lia|].
    rewrite downFrom_S. cbn [app firstOther]. destruct (decide _); [done|lia].
  - rewrite downFrom_S. cbn [app firstOther].
    destruct (decide (a < bound ∧ a ≠ current)); [lia|].
    destruct (decide (a = current)) as [->|Hne].
    + assert (m = 0%nat) as -> by lia. simpl. lia.
    + assert (a = bound) as -> by lia.
      destruct m as [|m]; [lia|]. rewrite downFrom_S. cbn [app firstOther].
      destruct (decide (bound - 1 < bound ∧ bound - 1 ≠ current)); [lia|].
      assert (current = bound - 1) as -> by lia.
      rewrite firstOther_none; [lia|]. apply list.Forall_forall. intros c Hin.
      apply list_elem_of_lookup in Hin as [i Hi].
      apply downFrom_lookup in Hi. lia.
Qed.

Section Walk.
Context {World : Type}.
Variable hasFocus : World → Target → bool.
Variable delegate : Target → World → World.
Hypothesis accepts : ∀ t w, hasFocus (delegate t w) t = true.

Lemma len_nonneg {A : Type} (l : list A) : 0 ≤ len l.
Proof. unfold len. lia. Qed.

Lemma sameItem_self (f : Form) (c : Z) :
  0 ≤ c < len (items f) → sameItem f c c = Some true.
Proof.
  intros Hc. unfold sameItem. destruct (decide _); [|lia].
  destruct (goIndex_lt (items f) c Hc) as (e & -> & _). simpl.
  by rewrite bool_decide_eq_true_2.
Qed.

Lemma sameItem_button (f : Form) (cur c : Z) :
  len (items f) ≤ c ∨ len (items f) ≤ cur → sameItem f cur c = Some false.
Proof. intros H. unfold sameItem. destruct (decide _); [lia|done]. Qed.

Lemma sameButton_self (f : Form) (c : Z) :
  len (items f) ≤ c < len (items f) + len (Buttons f) → sameButton f c c = Some true.
Proof.
  intros Hc. unfold sameButton. destruct (decide _); [|lia].
  destruct (goIndex_lt (Buttons f) (c - len (items f))) as (e & -> & _); [lia|]. simpl.
  by rewrite bool_decide_eq_true_2.
Qed.

Lemma sameButton_item (f : Form) (cur c : Z) :
  c < len (items f) ∨ cur < len (items f) → sameButton f cur c = Some false.
Proof. intros H. unfold sameButton. destruct (decide _); [lia|done]. Qed.

Lemma sameItem_other (f : Form) (cur c : Z) :
  distinctIDs f → 0 ≤ cur < len (items f) → 0 ≤ c < len (items f) → c ≠ cur →
  sameItem f cur c = Some false.
Proof.
  intros [Hid _] Hcur Hc Hne. unfold sameItem. destruct (decide _); [|lia].
  destruct (goIndex_lt (items f) cur Hcur) as (e1 & -> & Ha).
  destruct (goIndex_lt (items f) c Hc) as (e2 & -> & Hb). simpl.
  rewrite bool_decide_eq_false_2; [done|]. intros E.
  assert (Z.to_nat cur = Z.to_nat c); [|lia].
  apply (NoDup_lookup _ _ _ (itemID e1) Hid); rewrite list_lookup_fmap.
  - by rewrite Ha.
  - by rewrite Hb, E.
Qed.

Lemma sameButton_other (f : Form) (cur c : Z) :
  distinctIDs f →
  len (items f) ≤ cur < len (items f) + len (Buttons f) →
  len (items f) ≤ c < len (items f) + len (Buttons f) → c ≠ cur →
  sameButton f cur c = Some false.
Proof.
  intros [_ Hid] Hcur Hc Hne. unfold sameButton. destruct (decide _); [|lia].
  destruct (goIndex_lt (Buttons f) (cur - len (items f))) as (e1 & -> & Ha); [lia|].
  destruct (goIndex_lt (Buttons f) (c - len (items f))) as (e2 & -> & Hb); [lia|]. simpl.
  rewrite bool_decide_eq_false_2; [done|]. intros E.
  assert (Z.to_nat (cur - len (items f)) = Z.to_nat (c - len (items f))); [|lia].
  apply (NoDup_lookup _ _ _ (buttonID e1.2) Hid); rewrite list_lookup_fmap.
  - by rewrite Ha.
  - by rewrite Hb, E.
Qed.

(** Handing focus to an element in range, which accepts it. *)
Lemma Focus_accepted (s : State World) (c : Z) :
  focusedElement (form s) = c →
  0 ≤ c < len (items (form s)) + len (Buttons (form s)) →
  ∃ s', Focus delegate s = Some s' ∧ form s' = form s ∧
        (c < len (items (form s)) → itemAccepted hasFocus s' = Some true) ∧
        (len (items (form s)) ≤ c →
           itemAccepted hasFocus s' = Some false ∧
           buttonAccepted hasFocus s' = Some true).
Proof.
  intros Hfe Hc. unfold Focus.
  pose proof (len_nonneg (items (form s))). pose proof (len_nonneg (Buttons (form s))).
  destruct (decide (_ = 0)); [lia|].
  destruct (decide (_ ∨ _)); [lia|].
  destruct (decide (focusedElement (form s) < _)) as [Hi|Hb].
  - destruct (goIndex_lt (items (form s)) (focusedElement (form s))) as (e & Ha & _); [lia|].
    rewrite Ha. simpl. eexists. split; [done|]. split; [done|]. split; [|lia].
    intros _. unfold itemAccepted. simpl. destruct (decide _); [|lia].
    rewrite Ha. simpl. by rewrite accepts.
  - destruct (goIndex_lt (Buttons (form s))
                (len (Buttons (form s)) - 1
                 - (focusedElement (form s) - len (items (form s)))))
      as ([j b] & Hj & _); [lia|].
    rewrite Hj. simpl. eexists. split; [done|]. split; [done|]. split; [lia|].
    intros _. unfold itemAccepted, buttonAccepted. simpl.
    destruct (decide (_ < _)); [lia|]. destruct (decide (_ >= _)); [|lia].
    rewrite Hj. simpl. by rewrite accepts.
Qed.

(** The second loop of [nextStep] ends on [firstOther]. *)
Lemma walk_firstOther (current : Z) (indexes : list Z) :
  ∀ s : State World,
    distinctIDs (form s) →
    focusedElement (form s) = current →
    0 ≤ current < len (items (form s)) + len (Buttons (form s)) →
    Forall (λ c, 0 ≤ c) indexes →
    ∃ s', walk hasFocus delegate current indexes s = Some s' ∧
          items (form s') = items (form s) ∧
          buttons (form s') = buttons (form s) ∧
          focusedElement (form s')
            = firstOther (len (items (form s)) + len (Buttons (form s))) current indexes.
Proof.
  induction indexes as [|c rest IH]; intros s Hid Hfe Hcur Hpos; cbn [walk firstOther].
  - by exists s.
  - apply list.Forall_cons in Hpos as [Hc Hrest].
    set (f := form s) in *.
    destruct (decide (c >= len (items f) + len (Buttons f))) as [Hhigh|Hin].
    { destruct (decide (c < _ ∧ _)); [lia|]. by apply IH. }
    set (s1 := withForm (setFocusedElement c) s).
    assert (Hitems : items (form s1) = items f) by done.
    assert (Hbuttons : Buttons (form s1) = Buttons f) by done.
    destruct (decide (c = current)) as [->|Hne].
    { destruct (decide (_ ∧ _)); [lia|].
      assert (Hsame : sameItem (form s1) current current = Some true ∨
                      (sameItem (form s1) current current = Some false ∧
                       sameButton (form s1) current current = Some true)).
      { destruct (decide (current < len (items f))).
        - left. apply sameItem_self. rewrite Hitems. lia.
        - right. split; [apply sameItem_button; rewrite Hitems; lia|].
          apply sameButton_self. rewrite Hitems, Hbuttons. lia. }
      destruct (IH s1) as (s' & Hs' & ? & ? & ?); try done.
      exists s'. destruct Hsame as [->|[-> ->]]; done. }
    destruct (decide (_ ∧ _)); [|lia].
    assert (sameItem (form s1) current c = Some false) as ->.
    { destruct (decide (c < len (items f) ∧ current < len (items f))).
      - apply sameItem_other; rewrite ?Hitems; try done; lia.
      - apply sameItem_button. rewrite Hitems. lia. }
    assert (sameButton (form s1) current c = Some false) as ->.
    { destruct (decide (len (items f) ≤ c ∧ len (items f) ≤ current)).
      - apply sameButton_other; rewrite ?Hitems, ?Hbuttons; try done; lia.
      - apply sameButton_item. rewrite Hitems. lia. }
    destruct (Focus_accepted s1 c) as (s2 & -> & Hform & Hitem & Hbutton);
      [done|rewrite Hitems, Hbuttons; lia|].
    rewrite Hitems in Hitem, Hbutton.
    destruct (decide (c < len (items f))) as [Hi|Hb].
    + rewrite (Hitem Hi). eexists. split; [done|]. simpl. by rewrite Hform.
    + destruct Hbutton as [-> ->]; [lia|]. eexists. split; [done|]. simpl.
      by rewrite Hform.
Qed.
End Walk.

(** *** Navigation: the cycles of the keys *)

Lemma forward_iter (low size x : Z) (n : nat) :
  low ≤ x < low + size →
  Nat.iter n (forward low size) x = low + (x - low + Z.of_nat n) mod size.
Proof.
  intros Hx. induction n as [|n IH].
  - simpl. rewrite Z.add_0_r, Z.mod_small by lia. lia.
  - rewrite Nat.iter_succ, IH.
    replace (x - low + Z.of_nat (S n)) with (x - low + Z.of_nat n + 1) by lia.
    rewrite <- (Zplus_mod_idemp_l (x - low + Z.of_nat n)).
    pose proof (Z.mod_pos_bound (x - low + Z.of_nat n) size ltac:(lia)) as Hr.
    set (r := (x - low + Z.of_nat n) mod size) in *.
    unfold forward. destruct (decide _).
    + rewrite (Z.mod_small (r + 1)) by lia. lia.
    + replace (r + 1) with size by lia. rewrite Z_mod_same_full. lia.
Qed.

Lemma backward_iter (low size x : Z) (n : nat) :
  low ≤ x < low + size →
  Nat.iter n (backward low size) x = low + (x - low - Z.of_nat n) mod size.
Proof.
  intros Hx. induction n as [|n IH].
  - simpl. rewrite Z.sub_0_r, Z.mod_small by lia. lia.
  - rewrite Nat.iter_succ, IH.
    replace (x - low - Z.of_nat (S n)) with (x - low - Z.of_nat n - 1) by lia.
    rewrite <- (Zminus_mod_idemp_l (x - low - Z.of_nat n)).
    pose proof (Z.mod_pos_bound (x - low - Z.of_nat n) size ltac:(lia)) as Hr.
    set (r := (x - low - Z.of_nat n) mod size) in *.
    unfold backward. destruct (decide _).
    + rewrite (Z.mod_small (r - 1)) by lia. lia.
    + replace (r - 1) with (-1) by lia.
      replace (-1) with (size - 1 + (-1) * size) by lia.
      rewrite Z_mod_plus_full, Z.mod_small by lia. lia.
Qed.

(** Both steps come back after [size] steps. *)
Lemma forward_cycle (low size x : Z) :
  low ≤ x < low + size → Nat.iter (Z.to_nat size) (forward low size) x = x.
Proof.
  intros Hx. rewrite forward_iter by done.
  rewrite Z2Nat.id by lia.
  replace (x - low + size) with (x - low + 1 * size) by lia.
  rewrite Z_mod_plus_full, Z.mod_small by lia. lia.
Qed.

Lemma backward_cycle (low size x : Z) :
  low ≤ x < low + size → Nat.iter (Z.to_nat size) (backward low size) x = x.
Proof.
  intros Hx. rewrite backward_iter by done.
  rewrite Z2Nat.id by lia.
  replace (x - low - size) with (x - low + (-1) * size) by lia.
  rewrite Z_mod_plus_full, Z.mod_small by lia. lia.
Qed.

(** Fewer steps than the size of the cycle do not come back. *)
Lemma forward_period (low size x : Z) (n : nat) :
  low ≤ x < low + size → (0 < n < Z.to_nat size)%nat →
  Nat.iter n (forward low size) x ≠ x.
Proof.
  intros Hx Hn. rewrite forward_iter by done.
  destruct (decide (x - low + Z.of_nat n < size)).
  - rewrite Z.mod_small by lia. lia.
  - replace (x - low + Z.of_nat n) with (x - low + Z.of_nat n - size + 1 * size) by lia.
    rewrite Z_mod_plus_full, Z.mod_small by lia. lia.
Qed.

Lemma backward_period (low size x : Z) (n : nat) :
  low ≤ x < low + size → (0 < n < Z.to_nat size)%nat →
  Nat.iter n (backward low size) x ≠ x.
Proof.
  intros Hx Hn. rewrite backward_iter by done.
  destruct (decide (0 ≤ x - low - Z.of_nat n)).
  - rewrite Z.mod_small by lia. lia.
  - replace (x - low - Z.of_nat n) with (x - low - Z.of_nat n + size + (-1) * size) by lia.
    rewrite Z_mod_plus_full, Z.mod_small by lia. lia.
Qed.

Lemma forward_range (low size x : Z) :
  low ≤ x < low + size → low ≤ forward low size x < low + size.
Proof. intros H. unfold forward. destruct (decide _); lia. Qed.

Lemma backward_range (low size x : Z) :
  low ≤ x < low + size → low ≤ backward low size x < low + size.
Proof. intros H. unfold backward. destruct (decide _); lia. Qed.

Lemma makeRange_nonneg (start end_ : Z) :
  0 ≤ start → 0 ≤ end_ → Forall (λ c, 0 ≤ c) (makeRange start end_).
Proof.
  intros Hs He. apply list.Forall_forall. intros c Hin.
  apply list_elem_of_lookup in Hin as [i Hi].
  destruct (decide (start < end_)).
  - rewrite makeRange_up in Hi by done. apply upFrom_lookup in Hi. lia.
  - rewrite makeRange_down in Hi by lia. apply downFrom_lookup in Hi. lia.
Qed.

Lemma distinctIDs_kept (f f' : Form) :
  items f' = items f → buttons f' = buttons f → distinctIDs f → distinctIDs f'.
Proof. unfold distinctIDs, Buttons. by intros -> ->. Qed.

Section Cycles.
Context {World : Type}.
Variable hasFocus : World → Target → bool.
Variable delegate : Target → World → World.
Hypothesis accepts : ∀ t w, hasFocus (delegate t w) t = true.

Lemma sameElements_Buttons (s s' : State World) :
  sameElements s s' → Buttons (form s') = Buttons (form s).
Proof. intros [_ H]. unfold Buttons. by rewrite H. Qed.

(** [nextStep] ends on [firstOther] of the rotated list. *)
Lemma nextStep_firstOther (indexes : list Z) (s : State World) :
  distinctIDs (form s) →
  0 ≤ focusedElement (form s) < len (items (form s)) + len (Buttons (form s)) →
  Forall (λ c, 0 ≤ c) indexes →
  ∃ s', nextStep hasFocus delegate indexes s = Some s' ∧ sameElements s s' ∧
        focusedElement (form s')
          = firstOther (len (items (form s)) + len (Buttons (form s)))
              (focusedElement (form s))
              (rotateIndexes (focusedElement (form s)) indexes).
Proof.
  intros Hid Hfe Hpos. unfold nextStep.
  destruct (walk_firstOther hasFocus delegate accepts (focusedElement (form s))
              (rotateIndexes (focusedElement (form s)) indexes) s)
    as (s' & Hs' & ? & ? & ?); try done.
  - by apply rotateIndexes_Forall.
  - by exists s'.
Qed.

(** What each of the four keys does to the focus index. *)
Lemma handleKey_Tab (s : State World) :
  let nF := len (items (form s)) in
  let nB := len (Buttons (form s)) in
  distinctIDs (form s) →
  0 ≤ focusedElement (form s) < nF + Z.min nB 1 →
  ∃ s', handleKey hasFocus delegate KeyTab s = Some s' ∧ sameElements s s' ∧
        focusedElement (form s')
          = forward 0 (nF + Z.min nB 1) (focusedElement (form s)).
Proof.
  intros nF nB Hid Hfe.
  pose proof (len_nonneg (items (form s))). pose proof (len_nonneg (Buttons (form s))).
  fold nF nB in H, H0.
  assert (handleKey hasFocus delegate KeyTab s
          = nextStep hasFocus delegate (makeRange 0 nF) s) as ->.
  { unfold handleKey. by destruct (decide _). }
  destruct (nextStep_firstOther (makeRange 0 nF) s) as (s' & -> & Hsame & Hfe');
    [done|fold nF nB; lia|apply makeRange_nonneg; lia|].
  exists s'. split; [done|]. split; [done|]. rewrite Hfe'. fold nF nB.
  unfold forward.
  destruct (decide (0 < nF)).
  - rewrite makeRange_up by done.
    replace (Z.to_nat (nF - 0 + 1)) with (S (Z.to_nat nF)) by lia.
    rewrite up_step by lia.
    repeat destruct (decide _); lia.
  - rewrite makeRange_down by lia.
    replace (Z.to_nat (0 - nF + 1)) with 1%nat by lia.
    rewrite down_step by (simpl; lia).
    repeat destruct (decide _); simpl in *; lia.
Qed.

Lemma handleKey_Backtab (s : State World) :
  let nF := len (items (form s)) in
  let nB := len (Buttons (form s)) in
  distinctIDs (form s) →
  0 ≤ focusedElement (form s) < nF + Z.min nB 1 →
  ∃ s', handleKey hasFocus delegate KeyBacktab s = Some s' ∧ sameElements s s' ∧
        focusedElement (form s')
          = backward 0 (nF + Z.min nB 1) (focusedElement (form s)).
Proof.
  intros nF nB Hid Hfe.
  pose proof (len_nonneg (items (form s))). pose proof (len_nonneg (Buttons (form s))).
  fold nF nB in H, H0.
  assert (handleKey hasFocus delegate KeyBacktab s
          = nextStep hasFocus delegate (makeRange nF 0) s) as ->.
  { unfold handleKey. by destruct (decide _). }
  destruct (nextStep_firstOther (makeRange nF 0) s) as (s' & -> & Hsame & Hfe');
    [done|fold nF nB; lia|apply makeRange_nonneg; lia|].
  exists s'. split; [done|]. split; [done|]. rewrite Hfe'. fold nF nB.
  unfold backward.
  rewrite makeRange_down by lia.
  replace (Z.to_nat (nF - 0 + 1)) with (S (Z.to_nat nF)) by lia.
  rewrite down_step by lia.
  repeat destruct (decide _); lia.
Qed.

Lemma handleKey_Up_item (s : State World) :
  let nF := len (items (form s)) in
  distinctIDs (form s) →
  0 ≤ focusedElement (form s) < nF →
  ∃ s', handleKey hasFocus delegate KeyUp s = Some s' ∧ sameElements s s' ∧
        focusedElement (form s') = backward 0 nF (focusedElement (form s)).
Proof.
  intros nF Hid Hfe.
  pose proof (len_nonneg (Buttons (form s))).
  assert (handleKey hasFocus delegate KeyUp s
          = nextStep hasFocus delegate (makeRange (nF - 1) 0) s) as ->.
  { unfold handleKey. destruct (decide _); [done|]. fold nF in n. lia. }
  destruct (nextStep_firstOther (makeRange (nF - 1) 0) s) as (s' & -> & Hsame & Hfe');
    [done|fold nF; lia|apply makeRange_nonneg; lia|].
  exists s'. split; [done|]. split; [done|]. rewrite Hfe'. fold nF.
  unfold backward.
  rewrite makeRange_down by lia.
  replace (Z.to_nat (nF - 1 - 0 + 1)) with (S (Z.to_nat (nF - 1))) by lia.
  rewrite down_step by lia.
  repeat destruct (decide _); lia.
Qed.

Lemma handleKey_Down_item (s : State World) :
  let nF := len (items (form s)) in
  distinctIDs (form s) →
  0 ≤ focusedElement (form s) < nF →
  ∃ s', handleKey hasFocus delegate KeyDown s = Some s' ∧ sameElements s s' ∧
        focusedElement (form s') = forward 0 nF (focusedElement (form s)).
Proof.
  intros nF Hid Hfe.
  pose proof (len_nonneg (Buttons (form s))).
  assert (handleKey hasFocus delegate KeyDown s
          = nextStep hasFocus delegate (makeRange 0 (nF - 1)) s) as ->.
  { unfold handleKey. destruct (decide _); [done|]. fold nF in n. lia. }
  destruct (nextStep_firstOther (makeRange 0 (nF - 1)) s) as (s' & -> & Hsame & Hfe');
    [done|fold nF; lia|apply makeRange_nonneg; lia|].
  exists s'. split; [done|]. split; [done|]. rewrite Hfe'. fold nF.
  unfold forward.
  destruct (decide (0 < nF - 1)).
  - rewrite makeRange_up by done.
    replace (Z.to_nat (nF - 1 - 0 + 1)) with (S (Z.to_nat (nF - 1))) by lia.
    rewrite up_step by lia.
    repeat destruct (decide _); lia.
  - rewrite makeRange_down by lia.
    replace (Z.to_nat (0 - (nF - 1) + 1)) with 1%nat by lia.
    rewrite down_step by (simpl; lia).
    repeat destruct (decide _); simpl in *; lia.
Qed.

Lemma handleKey_Up_button (s : State World) :
  let nF := len (items (form s)) in
  let nB := len (Buttons (form s)) in
  distinctIDs (form s) →
  nF ≤ focusedElement (form s) < nF + nB →
  ∃ s', handleKey hasFocus delegate KeyUp s = Some s' ∧ sameElements s s' ∧
        focusedElement (form s') = forward nF nB (focusedElement (form s)).
Proof.
  intros nF nB Hid Hfe.
  pose proof (len_nonneg (items (form s))). fold nF in H.
  assert (handleKey hasFocus delegate KeyUp s
          = nextStep hasFocus delegate (makeRange nF (nF + nB - 1)) s) as ->.
  { unfold handleKey. destruct (decide _) as [Hlt|]; [|done]. fold nF in Hlt. lia. }
  destruct (nextStep_firstOther (makeRange nF (nF + nB - 1)) s)
    as (s' & -> & Hsame & Hfe');
    [done|fold nF nB; lia|apply makeRange_nonneg; lia|].
  exists s'. split; [done|]. split; [done|]. rewrite Hfe'. fold nF nB.
  unfold forward.
  destruct (decide (nF < nF + nB - 1)).
  - rewrite makeRange_up by done.
    replace (Z.to_nat (nF + nB - 1 - nF + 1)) with (S (Z.to_nat (nB - 1))) by lia.
    rewrite up_step by lia.
    repeat destruct (decide _); lia.
  - rewrite makeRange_down by lia.
    replace (Z.to_nat (nF - (nF + nB - 1) + 1)) with 1%nat by lia.
    rewrite down_step by (simpl; lia).
    repeat destruct (decide _); simpl in *; lia.
Qed.

Lemma handleKey_Down_button (s : State World) :
  let nF := len (items (form s)) in
  let nB := len (Buttons (form s)) in
  distinctIDs (form s) →
  nF ≤ focusedElement (form s) < nF + nB →
  ∃ s', handleKey hasFocus delegate KeyDown s = Some s' ∧ sameElements s s' ∧
        focusedElement (form s') = backward nF nB (focusedElement (form s)).
Proof.
  intros nF nB Hid Hfe.
  pose proof (len_nonneg (items (form s))). fold nF in H.
  assert (handleKey hasFocus delegate KeyDown s
          = nextStep hasFocus delegate (makeRange (nF + nB - 1) nF) s) as ->.
  { unfold handleKey. destruct (decide _) as [Hlt|]; [|done]. fold nF in Hlt. lia. }
  destruct (nextStep_firstOther (makeRange (nF + nB - 1) nF) s)
    as (s' & -> & Hsame & Hfe');
    [done|fold nF nB; lia|apply makeRange_nonneg; lia|].
  exists s'. split; [done|]. split; [done|]. rewrite Hfe'. fold nF nB.
  unfold backward.
  rewrite makeRange_down by lia.
  replace (Z.to_nat (nF + nB - 1 - nF + 1)) with (S (Z.to_nat (nB - 1))) by lia.
  rewrite down_step by lia.
  repeat destruct (decide _); lia.
Qed.

(** Pressing a key [n] times, when each press moves the focus index by [g]
    inside the range of the cycle and keeps the fields and buttons. *)
Lemma pressKeys_steps (key : Key) (low size : Z) (g : Z → Z) (s0 : State World) :
  (∀ x, low ≤ x < low + size → low ≤ g x < low + size) →
  (∀ s : State World,
     distinctIDs (form s) → sameElements s0 s →
     low ≤ focusedElement (form s) < low + size →
     ∃ s', handleKey hasFocus delegate key s = Some s' ∧ sameElements s s' ∧
           focusedElement (form s') = g (focusedElement (form s))) →
  ∀ (n : nat) (s : State World),
    distinctIDs (form s) → sameElements s0 s →
    low ≤ focusedElement (form s) < low + size →
    ∃ s', pressKeys hasFocus delegate key n s = Some s' ∧ sameElements s s' ∧
          focusedElement (form s') = Nat.iter n g (focusedElement (form s)).
Proof.
  intros Hg Hstep. induction n as [|n IH]; intros s Hid Hsame Hfe.
  - exists s. by split.
  - destruct (Hstep s Hid Hsame Hfe) as (s1 & Hs1 & [Hi Hb] & Hfe1).
    cbn [pressKeys]. rewrite Hs1. simpl.
    destruct Hsame as [Hi0 Hb0].
    destruct (IH s1) as (s' & Hs' & [Hi' Hb'] & Hfe').
    + by apply (distinctIDs_kept (form s)).
    + split; congruence.
    + rewrite Hfe1. by apply Hg.
    + exists s'. split; [done|]. split; [split; congruence|].
      rewrite Hfe', Hfe1. apply Nat.iter_swap.
Qed.

(** A key that moves the focus index one step around a cycle, on every state
    with the same fields and buttons, takes the index around the cycle. *)
Lemma cyclesBy_intro (key : Key) (low size : Z) (g : Z → Z) (s : State World) :
  g = forward low size ∨ g = backward low size →
  distinctIDs (form s) →
  low ≤ focusedElement (form s) < low + size →
  (∀ s1 : State World,
     distinctIDs (form s1) → sameElements s s1 →
     low ≤ focusedElement (form s1) < low + size →
     ∃ s', handleKey hasFocus delegate key s1 = Some s' ∧ sameElements s1 s' ∧
           focusedElement (form s') = g (focusedElement (form s1))) →
  cyclesBy hasFocus delegate key g size s.
Proof.
  intros Hg Hid Hfe Hstep.
  assert (Hrefl : sameElements s s) by (by split).
  assert (Hrange : ∀ x, low ≤ x < low + size → low ≤ g x < low + size).
  { intros x Hx. destruct Hg as [-> | ->]; [by apply forward_range|by apply backward_range]. }
  pose proof (pressKeys_steps key low size g s Hrange Hstep) as Hn.
  unfold cyclesBy. split; [|split; [|split]].
  - by apply Hstep.
  - intros n. by apply Hn.
  - destruct (Hn (Z.to_nat size) s Hid Hrefl Hfe) as (s' & Hs' & _ & Hfe').
    exists s'. split; [done|]. rewrite Hfe'.
    destruct Hg as [-> | ->]; [by apply forward_cycle|by apply backward_cycle].
  - intros n Hlt. destruct (Hn n s Hid Hrefl Hfe) as (s' & Hs' & _ & Hfe').
    exists s'. split; [done|]. rewrite Hfe'.
    destruct Hg as [-> | ->]; [by apply forward_period|by apply backward_period].
Qed.

(** C1 (amended).  In a form whose elements all accept focus and have
    distinct identities, the Tab key moves the focus index to the next index
    of the fields and the first button index, from the last of them back to
    0, and the Shift+Tab key moves it the other way: a cycle of
    [numFields + min(numVisibleButtons, 1)] indices.  With a field focused,
    the Down key moves the index to the next field and the Up key to the one
    before, around the [numFields] fields; with a button focused, the Up key
    moves it to the next button index and the Down key to the one before,
    around the [numVisibleButtons] button indices.  In each case every press
    keeps the fields and buttons, as many presses as the cycle has indices
    lead back to the index the presses started from, and fewer presses end
    on another index. *)
Theorem navigation_cycles (s : State World) :
  distinctIDs (form s) →
  let nF := len (items (form s)) in
  let nB := len (Buttons (form s)) in
  let index := focusedElement (form s) in
  let around := nF + Z.min nB 1 in
  (0 ≤ index < around →
   cyclesBy hasFocus delegate KeyTab (forward 0 around) around s ∧
   cyclesBy hasFocus delegate KeyBacktab (backward 0 around) around s) ∧
  (0 ≤ index < nF →
   cyclesBy hasFocus delegate KeyDown (forward 0 nF) nF s ∧
   cyclesBy hasFocus delegate KeyUp (backward 0 nF) nF s) ∧
  (nF ≤ index < nF + nB →
   cyclesBy hasFocus delegate KeyUp (forward nF nB) nB s ∧
   cyclesBy hasFocus delegate KeyDown (backward nF nB) nB s).
Proof.
  intros Hid nF nB index around.
  assert (Hsize : ∀ s1 : State World, sameElements s s1 →
            len (items (form s1)) = nF ∧ len (Buttons (form s1)) = nB).
  { intros s1 [Hi Hb]. unfold nF, nB, Buttons. by rewrite Hi, Hb. }
  split; [|split]; intros Hindex; split.
  - apply (cyclesBy_intro KeyTab 0 around); [by left|done|done|].
    intros s1 Hid1 Hsame Hfe1. destruct (Hsize s1 Hsame) as [HF HB].
    unfold around. rewrite <- HF, <- HB.
    apply handleKey_Tab; [done|]. rewrite HF, HB. exact Hfe1.
  - apply (cyclesBy_intro KeyBacktab 0 around); [by right|done|done|].
    intros s1 Hid1 Hsame Hfe1. destruct (Hsize s1 Hsame) as [HF HB].
    unfold around. rewrite <- HF, <- HB.
    apply handleKey_Backtab; [done|]. rewrite HF, HB. exact Hfe1.
  - apply (cyclesBy_intro KeyDown 0 nF); [by left|done|done|].
    intros s1 Hid1 Hsame Hfe1. destruct (Hsize s1 Hsame) as [HF HB].
    rewrite <- HF. apply handleKey_Down_item; [done|]. rewrite HF. lia.
  - apply (cyclesBy_intro KeyUp 0 nF); [by right|done|done|].
    intros s1 Hid1 Hsame Hfe1. destruct (Hsize s1 Hsame) as [HF HB].
    rewrite <- HF. apply handleKey_Up_item; [done|]. rewrite HF. lia.
  - apply (cyclesBy_intro KeyUp nF nB); [by left|done|done|].
    intros s1 Hid1 Hsame Hfe1. destruct (Hsize s1 Hsame) as [HF HB].
    rewrite <- HF, <- HB. apply handleKey_Up_button; [done|]. by rewrite HF, HB.
  - apply (cyclesBy_intro KeyDown nF nB); [by right|done|done|].
    intros s1 Hid1 Hsame Hfe1. destruct (Hsize s1 Hsame) as [HF HB].
    rewrite <- HF, <- HB. apply handleKey_Down_button; [done|]. by rewrite HF, HB.
Qed.
End Cycles.

Lemma giveFocus_accepted (t : Target) (w : holder) : holds (giveFocus t w) t = true.
Proof. unfold holds, giveFocus. by rewrite bool_decide_eq_true_2. Qed.

Lemma oneFieldTwoButtons_distinctIDs : distinctIDs oneFieldTwoButtons.
Proof.
  split; apply (bool_decide_unpack _); vm_compute; exact I.
Qed.

Lemma twoFieldsTwoButtons_distinctIDs : distinctIDs twoFieldsTwoButtons.
Proof.
  split; apply (bool_decide_unpack _); vm_compute; exact I.
Qed.

(** C1 (amended), at the form with two fields and two buttons: from the
    first field the Tab and Shift+Tab keys go around the three indices 0, 1
    and 2, the Down and Up keys around the two fields; from the button index
    3 the Up and Down keys go around the two button indices 2 and 3. *)
Lemma navigation_cycles_witness :
  (∀ t w, holds (giveFocus t w) t = true) ∧
  distinctIDs twoFieldsTwoButtons ∧
  let s := mkState twoFieldsTwoButtons (None : holder) [] in
  let b := mkState (setFocusedElement 3 twoFieldsTwoButtons) (None : holder) [] in
  (cyclesBy holds giveFocus KeyTab (forward 0 3) 3 s ∧
   cyclesBy holds giveFocus KeyBacktab (backward 0 3) 3 s) ∧
  (cyclesBy holds giveFocus KeyDown (forward 0 2) 2 s ∧
   cyclesBy holds giveFocus KeyUp (backward 0 2) 2 s) ∧
  (cyclesBy holds giveFocus KeyUp (forward 2 2) 2 b ∧
   cyclesBy holds giveFocus KeyDown (backward 2 2) 2 b).
Proof.
  split; [exact giveFocus_accepted|].
  split; [exact twoFieldsTwoButtons_distinctIDs|].
  intros s b.
  destruct (navigation_cycles holds giveFocus giveFocus_accepted s
              twoFieldsTwoButtons_distinctIDs) as (Htab & Hfield & _).
  destruct (navigation_cycles holds giveFocus giveFocus_accepted b
              twoFieldsTwoButtons_distinctIDs) as (_ & _ & Hbutton).
  split; [|split].
  - apply Htab. vm_compute. split; [discriminate|reflexivity].
  - apply Hfield. vm_compute. split; [discriminate|reflexivity].
  - apply Hbutton. vm_compute. split; [discriminate|reflexivity].
Defined.

(** C1 as stated fails: with one field and two visible buttons, every
    element accepting focus, three presses of Tab from index 0 visit the
    indices 1, 0 and 1, and end on index 1. *)
Lemma navigation_closure_fails :
  let s := mkState oneFieldTwoButtons (None : holder) [] in
  let nF := len (items (form s)) in
  let nB := len (Buttons (form s)) in
  (∀ t w, holds (giveFocus t w) t = true) ∧
  distinctIDs (form s) ∧
  0 ≤ focusedElement (form s) < nF + nB ∧
  ∃ s', pressKeys holds giveFocus KeyTab (Z.to_nat (nF + nB)) s = Some s' ∧
        focusedElement (form s') ≠ focusedElement (form s).
Proof.
  intros s nF nB. split; [exact giveFocus_accepted|].
  split; [exact oneFieldTwoButtons_distinctIDs|].
  split; [vm_compute; split; [discriminate|reflexivity]|].
  eexists. split; [vm_compute; reflexivity|]. vm_compute. discriminate.
Qed.

(** *** The registry: buttons, items and lookups *)

(** Every entry of [Buttons] is a stored button that is not hidden, with the
    position it is stored at. *)
Lemma Buttons_lookup (f : Form) (k j : nat) (b : Button) :
  Buttons f !! k = Some (j, b) → buttons f !! j = Some b ∧ GetHidden b = false.
Proof.
  intros H. apply list_elem_of_lookup_2 in H. unfold Buttons in H.
  apply list_elem_of_filter in H as [Hh H]. simpl in Hh.
  apply list_elem_of_lookup in H as [i Hi].
  rewrite list_lookup_imap in Hi.
  destruct (buttons f !! i) as [b'|] eqn:E; [|done]. simpl in Hi.
  injection Hi as <- <-. done.
Qed.

(** [Buttons] without the positions. *)
Lemma Buttons_filter (f : Form) :
  (Buttons f).*2 = filter (λ b, GetHidden b = false) (buttons f).
Proof.
  unfold Buttons.
  assert (∀ (l : list Button) (n : nat),
    (filter (λ p : nat * Button, GetHidden p.2 = false)
       (imap (λ i b, (n + i, b)%nat) l)).*2
    = filter (λ b, GetHidden b = false) l) as H.
  { induction l as [|b l IH]; intros n; [done|].
    rewrite imap_cons, !filter_cons.
    rewrite (imap_ext _ (λ i b, (S n + i, b)%nat)) by (intros; simpl; f_equal; lia).
    cbn [snd]. destruct (decide (GetHidden b = false)).
    - rewrite !fmap_cons, IH. done.
    - apply IH. }
  apply (H (buttons f) 0%nat).
Qed.

(** The visible buttons of a list of buttons stored from position [n] on. *)
Lemma visible_from_order (l : list Button) :
  ∀ (n k j : nat) (b : Button),
    filter (λ p : nat * Button, GetHidden p.2 = false)
      (imap (λ i b, (n + i, b)%nat) l) !! k = Some (j, b) →
    (n ≤ j)%nat ∧
    ∀ k' j' b', (k < k')%nat →
      filter (λ p : nat * Button, GetHidden p.2 = false)
        (imap (λ i b, (n + i, b)%nat) l) !! k' = Some (j', b') →
      (j < j')%nat.
Proof.
  induction l as [|b0 l IH]; intros n k j b; [done|].
  rewrite imap_cons, filter_cons.
  rewrite (imap_ext _ (λ i b, (S n + i, b)%nat)) by (intros; simpl; f_equal; lia).
  cbn [snd]. destruct (decide (GetHidden b0 = false)).
  - destruct k as [|k]; simpl.
    + intros [= <- <-]. split; [lia|]. intros [|k'] j' b' Hk; [lia|]. simpl.
      intros H. apply (IH (S n)) in H as [H _]. lia.
    + intros H. pose proof H as H'. apply (IH (S n)) in H' as [Hle Hlt].
      split; [lia|]. intros [|k'] j' b' Hk; [lia|]. simpl. apply Hlt. lia.
  - intros H. pose proof H as H'. apply (IH (S n)) in H' as [Hle Hlt]. split; [lia|done].
Qed.

(** X1.  [Buttons] returns the buttons that are not hidden, each once, in
    the order of [f.buttons]: the buttons it returns are the stored buttons
    with the hidden ones left out, a button at a later position of the
    result is stored at a later position, and every stored button that is
    not hidden is in the result. *)
Theorem Buttons_stable_suborder (f : Form) :
  (Buttons f).*2 = filter (λ b, GetHidden b = false) (buttons f) ∧
  (∀ k j b, Buttons f !! k = Some (j, b) →
     buttons f !! j = Some b ∧ GetHidden b = false) ∧
  (∀ k k' j j' b b', (k < k')%nat →
     Buttons f !! k = Some (j, b) → Buttons f !! k' = Some (j', b') → (j < j')%nat) ∧
  (∀ j b, buttons f !! j = Some b → GetHidden b = false →
     ∃ k, Buttons f !! k = Some (j, b)).
Proof.
  split; [apply Buttons_filter|]. split; [apply Buttons_lookup|]. split.
  - intros k k' j j' b b' Hk H H'. unfold Buttons in H, H'.
    apply (visible_from_order (buttons f) 0 k j b) in H as [_ H].
    by apply (H k' j' b').
  - intros j b Hj Hb. apply list_elem_of_lookup. unfold Buttons.
    apply list_elem_of_filter. split; [done|].
    apply list_elem_of_lookup. exists j. rewrite list_lookup_imap, Hj. done.
Qed.

(** Hiding a stored button takes it out of the visible ones. *)
Lemma visible_from_hide (l : list Button) :
  ∀ (n i : nat) (b : Button),
    l !! i = Some b →
    filter (λ p : nat * Button, GetHidden p.2 = false)
      (imap (λ i b, (n + i, b)%nat) (<[i := setHidden true b]> l))
    = filter (λ p : nat * Button, p.1 ≠ (n + i)%nat)
        (filter (λ p : nat * Button, GetHidden p.2 = false)
           (imap (λ i b, (n + i, b)%nat) l)).
Proof.
  induction l as [|b0 l IH]; intros n i b Hi; [done|].
  destruct i as [|i]; simpl in Hi.
  - injection Hi as ->.
    change (<[0%nat:=setHidden true b]> (b :: l)) with (setHidden true b :: l).
    rewrite !imap_cons, !filter_cons.
    rewrite (imap_ext _ (λ i b, (S n + i, b)%nat)) by (intros; simpl; f_equal; lia).
    cbn [snd setHidden GetHidden]. destruct (decide (true = false)); [done|].
    assert (Hkeep : ∀ L : list (nat * Button),
              Forall (λ p, (S n ≤ p.1)%nat) L →
              filter (λ p : nat * Button, p.1 ≠ (n + 0)%nat) L = L).
    { induction 1 as [|p L Hp _ IHL]; [done|]. rewrite filter_cons.
      destruct (decide _); [by rewrite IHL|lia]. }
    assert (Hall : Forall (λ p : nat * Button, (S n ≤ p.1)%nat)
              (filter (λ p : nat * Button, GetHidden p.2 = false)
                 (imap (λ i b, (S n + i, b)%nat) l))).
    { apply list.Forall_forall. intros [j b'] Hin.
      apply list_elem_of_lookup in Hin as [k Hk].
      apply visible_from_order in Hk as [Hk _]. done. }
    destruct (decide (GetHidden b = false)).
    + rewrite filter_cons. cbn [fst]. destruct (decide _); [lia|]. by rewrite Hkeep.
    + by rewrite Hkeep.
  - change (<[S i:=setHidden true b]> (b0 :: l)) with (b0 :: <[i:=setHidden true b]> l).
    rewrite !imap_cons, !filter_cons.
    rewrite (imap_ext _ (λ i b, (S n + i, b)%nat) (<[i:=setHidden true b]> l))
      by (intros; simpl; f_equal; lia).
    rewrite (imap_ext _ (λ i b, (S n + i, b)%nat) l)
      by (intros; simpl; f_equal; lia).
    cbn [snd]. rewrite (IH (S n) i b Hi).
    replace (S n + i)%nat with (n + S i)%nat by lia.
    destruct (decide (GetHidden b0 = false)); [|done].
    rewrite filter_cons. cbn [fst]. destruct (decide _); [done|lia].
Qed.

(** X2.  Hiding the button stored at [index] leaves it in [f.buttons] and
    takes it, and nothing else, out of the visible buttons: the others keep
    their order and the positions they are stored at. *)
Theorem HiddenButton_hides (index : Z) (f : Form) :
  0 ≤ index < len (buttons f) →
  ∃ f', HiddenButton index true f = Some f' ∧
        length (buttons f') = length (buttons f) ∧
        items f' = items f ∧ focusedElement f' = focusedElement f ∧
        Buttons f' = filter (λ p, p.1 ≠ Z.to_nat index) (Buttons f).
Proof.
  intros Hi. unfold HiddenButton. destruct (decide _); [|lia].
  destruct (goIndex_lt (buttons f) index Hi) as (b & -> & Hb). simpl.
  rewrite goStore_Some by done. simpl. eexists. split; [done|].
  split; [simpl; by rewrite length_insert|]. split; [done|]. split; [done|].
  unfold Buttons. simpl.
  apply (visible_from_hide (buttons f) 0 (Z.to_nat index) b Hb).
Qed.

Lemma HiddenButton_hides_witness :
  0 ≤ 0 < len (buttons oneFieldTwoButtons) ∧
  ∃ f', HiddenButton 0 true oneFieldTwoButtons = Some f' ∧
        length (buttons f') = length (buttons oneFieldTwoButtons) ∧
        items f' = items oneFieldTwoButtons ∧
        focusedElement f' = focusedElement oneFieldTwoButtons ∧
        Buttons f' = filter (λ p, p.1 ≠ Z.to_nat 0) (Buttons oneFieldTwoButtons).
Proof.
  split; [vm_compute; split; [discriminate|reflexivity]|].
  apply (HiddenButton_hides 0 oneFieldTwoButtons).
  vm_compute. split; [discriminate|reflexivity].
Defined.

(** X3.  [HiddenButton] checks the index against the length only: an index
    at or beyond the number of stored buttons changes nothing, and a
    negative index panics. *)
Theorem HiddenButton_bounds (index : Z) (state : bool) (f : Form) :
  (len (buttons f) ≤ index → HiddenButton index state f = Some f) ∧
  (index < 0 → HiddenButton index state f = None).
Proof.
  unfold HiddenButton. split.
  - intros H. destruct (decide _); [lia|done].
  - intros H. pose proof (len_nonneg (buttons f)). destruct (decide _); [|lia].
    unfold goIndex. destruct (decide (0 ≤ index)); [lia|done].
Qed.

(** X4.  Hiding a visible button and showing it again gives the form back. *)
Theorem HiddenButton_hide_show (index : Z) (f : Form) (b : Button) :
  GetFormButton index f = Some b → GetHidden b = false →
  ∃ f', HiddenButton index true f = Some f' ∧
        HiddenButton index false f' = Some f.
Proof.
  unfold GetFormButton. intros Hb Hv.
  apply goIndex_Some in Hb as [H0 Hb].
  assert (Hi : 0 ≤ index < len (buttons f)).
  { apply lookup_lt_Some in Hb. unfold len. lia. }
  unfold HiddenButton. destruct (decide _); [|lia].
  destruct (goIndex_lt (buttons f) index Hi) as (b' & -> & Hb'). simpl.
  assert (b' = b) as -> by congruence.
  rewrite goStore_Some by done. simpl. eexists. split; [done|]. simpl.
  destruct (decide _) as [|Hn]; [|unfold len in *; rewrite length_insert in Hn; lia].
  assert (goIndex (<[Z.to_nat index:=setHidden true b]> (buttons f)) index
          = Some (setHidden true b)) as ->.
  { apply goIndex_Some. split; [lia|]. apply list_lookup_insert_eq.
    by eapply lookup_lt_Some. }
  simpl. rewrite goStore_Some by (unfold len in *; rewrite length_insert; lia).
  simpl. rewrite list_insert_insert_eq.
  assert (setHidden false (setHidden true b) = b) as ->.
  { destruct b. simpl in *. by subst. }
  rewrite list_insert_id by done.
  destruct f. done.
Qed.

Lemma HiddenButton_hide_show_witness :
  GetFormButton 1 oneFieldTwoButtons = Some (mkButton 2 false 101) ∧
  ∃ f', HiddenButton 1 true oneFieldTwoButtons = Some f' ∧
        HiddenButton 1 false f' = Some oneFieldTwoButtons.
Proof.
  split; [reflexivity|].
  apply (HiddenButton_hide_show 1 oneFieldTwoButtons (mkButton 2 false 101));
    reflexivity.
Defined.

(** X5.  An item added to the form is the item at the last position; the
    items before it stay where they were, and a position beyond the last,
    or a negative one, panics. *)
Theorem AddFormItemWithColumn_GetFormItem (item : FormItem) (column : Z) (f : Form) :
  let f' := AddFormItemWithColumn item column f in
  len (items f') = len (items f) + 1 ∧
  GetFormItem (len (items f)) f' = Some item ∧
  (∀ i, 0 ≤ i < len (items f) → GetFormItem i f' = GetFormItem i f) ∧
  (∀ i, i < 0 ∨ len (items f') ≤ i → GetFormItem i f' = None).
Proof.
  simpl. unfold GetFormItem, len. simpl. rewrite length_app. simpl.
  split; [lia|]. split; [|split].
  - rewrite goIndex_nat. by rewrite list_lookup_middle.
  - intros i Hi. unfold goIndex. destruct (decide _); [|lia].
    apply lookup_app_l. lia.
  - intros i Hi. unfold goIndex. destruct (decide _); [|done].
    apply lookup_ge_None. rewrite length_app. simpl. lia.
Qed.

Lemma firstWithLabel_spec (GetLabel : FormItem → string) (label : string)
    (l : list FormItem) :
  match firstWithLabel GetLabel label l with
  | Some item =>
      ∃ i, l !! i = Some item ∧ GetLabel item = label ∧
           ∀ k other, (k < i)%nat → l !! k = Some other → GetLabel other ≠ label
  | None => ∀ item, item ∈ l → GetLabel item ≠ label
  end.
Proof.
  induction l as [|a l IH]; simpl.
  - intros item H. by apply elem_of_nil in H.
  - destruct (decide (GetLabel a = label)) as [E|E].
    + exists 0%nat. split; [done|]. split; [done|]. intros k other Hk. lia.
    + destruct (firstWithLabel GetLabel label l) as [item|].
      * destruct IH as (i & Hi & Hl & Hbefore). exists (S i).
        split; [done|]. split; [done|]. intros [|k] other Hk; simpl.
        -- by intros [= <-].
        -- apply Hbefore. lia.
      * intros item Hin. apply elem_of_cons in Hin as [->|Hin]; [done|by apply IH].
Qed.

(** X6.  [GetFormItemByLabel] returns the first item with the label, in the
    order the items were added, and nothing when no item has it. *)
Theorem GetFormItemByLabel_first (GetLabel : FormItem → string) (label : string)
    (f : Form) :
  (∀ item, GetFormItemByLabel GetLabel label f = Some item →
     ∃ i, GetFormItem (Z.of_nat i) f = Some item ∧ GetLabel item = label ∧
          ∀ k other, (k < i)%nat → GetFormItem (Z.of_nat k) f = Some other →
                     GetLabel other ≠ label) ∧
  (GetFormItemByLabel GetLabel label f = None ↔
     ∀ item, item ∈ items f → GetLabel item ≠ label).
Proof.
  unfold GetFormItemByLabel, GetFormItem.
  pose proof (firstWithLabel_spec GetLabel label (items f)) as H.
  destruct (firstWithLabel GetLabel label (items f)) as [item|]; split.
  - intros item' [= <-]. destruct H as (i & Hi & Hl & Hb). exists i.
    rewrite goIndex_nat. split; [done|]. split; [done|].
    intros k other Hk. rewrite goIndex_nat. by apply Hb.
  - split; [done|]. intros Hall. destruct H as (i & Hi & Hl & _).
    exfalso. apply (Hall item); [|done]. by eapply list_elem_of_lookup_2.
  - done.
  - done.
Qed.

(** *** Measurement: columns, widths and heights *)

Lemma foldr_add_from (z : Z) (l : list Z) : foldr Z.add z l = foldr Z.add 0 l + z.
Proof. induction l as [|a l IH]; simpl; [lia|]. rewrite IH. lia. Qed.

Lemma stacked_S (f : Form) (c : Z) (n : nat) :
  stacked f c (S n)
  = stacked f c n
    + match items f !! n, itemsColumn f !! n with
      | Some item, Some cn =>
          if decide (cn = c) then itemHeight item + itemPadding f else 0
      | _, _ => 0
      end.
Proof.
  unfold stacked. rewrite seq_S, fmap_app, foldr_app. simpl.
  rewrite foldr_add_from. lia.
Qed.

(** X7.  The column count is one more than the greatest column of a field,
    and 1 when no field has a positive column: it is at least 1, above
    every column, and one more than some column unless it is 1. *)
Theorem getColoumnsCount_max (f : Form) :
  1 ≤ getColoumnsCount f ∧
  (∀ c, c ∈ itemsColumn f → c < getColoumnsCount f) ∧
  (getColoumnsCount f = 1 ∨ getColoumnsCount f - 1 ∈ itemsColumn f).
Proof.
  unfold getColoumnsCount.
  destruct (maxOver_max 0 (itemsColumn f)) as (H0 & Hall & Hin). unfold maxOver in *.
  split; [lia|]. split.
  - intros c Hc. specialize (Hall c Hc). lia.
  - destruct Hin as [->|Hin]; [by left|right].
    by replace (_ + 1 - 1) with
      (foldl (λ m v : Z, if decide (m < v) then v else m) 0 (itemsColumn f)) by lia.
Qed.

(** What one run of the first loop of [getMaxWidthItems] does. *)
Lemma measureLabelField_Some (f : Form) (i : nat) (item : FormItem)
    (ml mf ml' mf' : list Z) :
  measureLabelField f i item (ml, mf) = Some (ml', mf') →
  ∃ c oldf,
    itemsColumn f !! i = Some c ∧ 0 ≤ c ∧
    mf !! Z.to_nat c = Some oldf ∧
    mf' = <[Z.to_nat c := Z.max oldf (paddedField item)]> mf ∧
    (ml' = ml ∨
     ∃ oldl, ml !! Z.to_nat c = Some oldl ∧ 0 < paddedLabel item ∧
             oldl < paddedLabel item + 1 ∧ GetFieldAlign item = AlignCenter ∧
             ml' = <[Z.to_nat c := paddedLabel item + 1]> ml) ∧
    (GetFieldAlign item = AlignCenter → 0 < paddedLabel item →
     ∃ oldl, ml !! Z.to_nat c = Some oldl ∧
             ml' = <[Z.to_nat c := Z.max oldl (paddedLabel item + 1)]> ml).
Proof.
  unfold measureLabelField, paddedLabel, paddedField. intros H.
  destruct (goIndex (itemsColumn f) (Z.of_nat i)) as [c|] eqn:Hc; [|done].
  rewrite goIndex_nat in Hc. simpl in H.
  match type of H with
  | (?m ≫= _) = _ => destruct m as [ml1|] eqn:Hml; [|done]
  end. simpl in H.
  destruct (goIndex mf c) as [oldf|] eqn:Hf; [|done]. simpl in H.
  apply goIndex_Some in Hf as [Hc0 Hf].
  match type of H with
  | (?m ≫= _) = _ => destruct m as [mf1|] eqn:Hmf; [|done]
  end. simpl in H. injection H as <- <-.
  exists c, oldf. split; [done|]. split; [done|]. split; [done|]. split; [|split].
  - destruct (decide (oldf < _)) as [Hlt|Hge].
    + apply goStore_inv in Hmf as [_ ->]. by rewrite Z.max_r by lia.
    + injection Hmf as <-. rewrite Z.max_l by lia. by rewrite list_insert_id.
  - destruct (decide (0 < _)) as [Hpos|]; [|left; congruence].
    destruct (goIndex ml c) as [oldl|] eqn:Hl; [|done]. simpl in Hml.
    apply goIndex_Some in Hl as [_ Hl].
    destruct (decide (oldl - 1 < _)); [|left; congruence].
    destruct (decide (GetFieldAlign item = AlignCenter)); [|left; congruence].
    right. exists oldl. apply goStore_inv in Hml as [_ ->].
    repeat split; try done. lia.
  - intros Hcenter Hpos. destruct (decide (0 < _)); [|lia].
    destruct (goIndex ml c) as [oldl|] eqn:Hl; [|done]. simpl in Hml.
    apply goIndex_Some in Hl as [_ Hl]. exists oldl. split; [done|].
    destruct (decide (oldl - 1 < _)).
    + destruct (decide (GetFieldAlign item = AlignCenter)); [|done].
      apply goStore_inv in Hml as [_ ->]. by rewrite Z.max_r by lia.
    + injection Hml as <-. rewrite Z.max_l by lia. by rewrite list_insert_id.
Qed.

Lemma getMaxWidthItems_Some (f : Form) (mw ml mf : list Z) :
  getMaxWidthItems f = Some (mw, ml, mf) →
  0 ≤ getColoumnsCount f ∧
  rangeItems (measureLabelField f) 0%nat (items f)
    (replicate (Z.to_nat (getColoumnsCount f)) 0,
     replicate (Z.to_nat (getColoumnsCount f)) 0) = Some (ml, mf) ∧
  rangeItems (measureTotal f ml mf) 0%nat (items f)
    (replicate (Z.to_nat (getColoumnsCount f)) 0) = Some mw.
Proof.
  unfold getMaxWidthItems, makeInts. intros H.
  destruct (decide _); [|done]. simpl in H.
  destruct (rangeItems (measureLabelField f) _ _ _) as [[ml1 mf1]|] eqn:H1; [|done].
  simpl in H.
  destruct (rangeItems (measureTotal f ml1 mf1) _ _ _) as [mw1|] eqn:H2; [|done].
  simpl in H. injection H as <- <- <-. done.
Qed.

(** X8.  The field maximum of a column is the greatest measured field width
    (field width plus right padding) of its fields, whatever their
    alignment, and 0 when none is positive. *)
Theorem maxFieldWidth_is_max (f : Form) (mw ml mf : list Z) (c v : Z) :
  getMaxWidthItems f = Some (mw, ml, mf) →
  0 ≤ c → mf !! Z.to_nat c = Some v →
  0 ≤ v ∧
  (∀ i item, inColumn f c i item → paddedField item ≤ v) ∧
  (v = 0 ∨ ∃ i item, inColumn f c i item ∧ v = paddedField item).
Proof.
  intros H Hc Hv. apply getMaxWidthItems_Some in H as (_ & H & _).
  set (P := λ (n : nat) (s : list Z * list Z), ∀ v, s.2 !! Z.to_nat c = Some v →
       0 ≤ v ∧
       (∀ i item, (i < n)%nat → inColumn f c i item → paddedField item ≤ v) ∧
       (v = 0 ∨ ∃ i item, inColumn f c i item ∧ v = paddedField item)).
  cut (P (0 + length (items f))%nat (ml, mf));
    [|apply (rangeItems_invariant (measureLabelField f) P (items f) 0%nat
               (replicate (Z.to_nat (getColoumnsCount f)) 0,
                replicate (Z.to_nat (getColoumnsCount f)) 0) (ml, mf));
      [| |exact H]]; unfold P; clear P.
  - intros Hfin. destruct (Hfin v Hv) as (H0 & Hall & Hin). split; [done|]. split; [|done].
    intros i item Hi. apply (Hall i item); [|done].
    destruct Hi as [Hi _]. apply lookup_lt_Some in Hi. lia.
  - simpl. intros v0 Hv0. apply lookup_replicate in Hv0 as [-> _].
    split; [lia|]. split; [intros; lia|by left].
  - intros k item [ml0 mf0] [ml1 mf1] Hk Hinv Hb. simpl in *.
    apply measureLabelField_Some in Hb as (ck & oldf & Hck & Hck0 & Hold & -> & _).
    intros v1 Hv1.
    destruct (decide (Z.to_nat c = Z.to_nat ck)) as [E|E].
    + assert (c = ck) as -> by lia.
      rewrite list_lookup_insert_eq in Hv1 by (by eapply lookup_lt_Some).
      injection Hv1 as <-.
      destruct (Hinv oldf Hold) as (H0 & Hall & Hin).
      split; [lia|]. split.
      * intros i item' Hi Hcol.
        destruct (decide (i = k)) as [->|Hne].
        -- destruct Hcol as [Hi' _]. rewrite Hk in Hi'. injection Hi' as <-. lia.
        -- specialize (Hall i item' ltac:(lia) Hcol). lia.
      * destruct (Z.max_spec oldf (paddedField item)) as [[_ ->]|[_ ->]].
        -- right. exists k, item. done.
        -- done.
    + rewrite list_lookup_insert_ne in Hv1 by done.
      destruct (Hinv v1 Hv1) as (H0 & Hall & Hin).
      split; [done|]. split; [|done].
      intros i item' Hi Hcol.
      destruct (decide (i = k)) as [->|Hne]; [|apply (Hall i item'); [lia|done]].
      destruct Hcol as [_ Hcol]. rewrite Hck in Hcol. injection Hcol as ->. done.
Qed.

Lemma maxFieldWidth_is_max_witness :
  getMaxWidthItems mixedColumns = Some ([5; 15], [0; 6], [3; 9]) ∧
  0 ≤ 9 ∧
  (∀ i item, inColumn mixedColumns 1 i item → paddedField item ≤ 9) ∧
  (9 = 0 ∨ ∃ i item, inColumn mixedColumns 1 i item ∧ 9 = paddedField item).
Proof.
  split; [reflexivity|].
  apply (maxFieldWidth_is_max mixedColumns [5; 15] [0; 6] [3; 9] 1 9);
    [reflexivity|lia|reflexivity].
Defined.

(** X9.  Only center-aligned fields with a positive measured label width
    (label width plus left padding) count for the label maximum of a column:
    it is the greatest such width plus 1, and 0 when the column has no such
    field. *)
Theorem maxLabelWidth_center_only (f : Form) (mw ml mf : list Z) (c v : Z) :
  getMaxWidthItems f = Some (mw, ml, mf) →
  0 ≤ c → ml !! Z.to_nat c = Some v →
  0 ≤ v ∧
  (∀ i item, inColumn f c i item → GetFieldAlign item = AlignCenter →
             0 < paddedLabel item → paddedLabel item + 1 ≤ v) ∧
  (v = 0 ∨ ∃ i item, inColumn f c i item ∧ GetFieldAlign item = AlignCenter ∧
                     0 < paddedLabel item ∧ v = paddedLabel item + 1).
Proof.
  intros H Hc Hv. apply getMaxWidthItems_Some in H as (_ & H & _).
  set (P := λ (n : nat) (s : list Z * list Z), ∀ v, s.1 !! Z.to_nat c = Some v →
       0 ≤ v ∧
       (∀ i item, (i < n)%nat → inColumn f c i item →
          GetFieldAlign item = AlignCenter → 0 < paddedLabel item →
          paddedLabel item + 1 ≤ v) ∧
       (v = 0 ∨ ∃ i item, inColumn f c i item ∧ GetFieldAlign item = AlignCenter ∧
                          0 < paddedLabel item ∧ v = paddedLabel item + 1)).
  cut (P (0 + length (items f))%nat (ml, mf));
    [|apply (rangeItems_invariant (measureLabelField f) P (items f) 0%nat
               (replicate (Z.to_nat (getColoumnsCount f)) 0,
                replicate (Z.to_nat (getColoumnsCount f)) 0) (ml, mf));
      [| |exact H]]; unfold P; clear P.
  - intros Hfin. destruct (Hfin v Hv) as (H0 & Hall & Hin). split; [done|]. split; [|done].
    intros i item Hi. apply (Hall i item); [|done].
    destruct Hi as [Hi _]. apply lookup_lt_Some in Hi. lia.
  - simpl. intros v0 Hv0. apply lookup_replicate in Hv0 as [-> _].
    split; [lia|]. split; [intros; lia|by left].
  - intros k item [ml0 mf0] [ml1 mf1] Hk Hinv Hb. simpl in *.
    apply measureLabelField_Some in Hb
      as (ck & oldf & Hck & Hck0 & Hold & _ & Hcases & Hcenter).
    intros v1 Hv1.
    destruct (decide (Z.to_nat c = Z.to_nat ck)) as [E|E].
    + assert (c = ck) as -> by lia.
      destruct Hcases as [->|(oldl & Hl & Hpos & Hlt & Hal & ->)].
      * destruct (Hinv v1 Hv1) as (H0 & Hall & Hin).
        split; [done|]. split; [|done].
        intros i item' Hi Hcol Hal Hpos.
        destruct (decide (i = k)) as [->|Hne]; [|apply (Hall i item'); [lia|done..]].
        destruct Hcol as [Hi' _]. rewrite Hk in Hi'. injection Hi' as <-.
        destruct (Hcenter Hal Hpos) as (oldl & Hl & Heq).
        assert (Hsame : <[Z.to_nat ck:=Z.max oldl (paddedLabel item + 1)]> ml0
                          !! Z.to_nat ck = Some v1) by (by rewrite <- Heq).
        rewrite list_lookup_insert_eq in Hsame by (by eapply lookup_lt_Some).
        injection Hsame as <-. lia.
      * rewrite list_lookup_insert_eq in Hv1 by (by eapply lookup_lt_Some).
        injection Hv1 as <-.
        destruct (Hinv oldl Hl) as (H0 & Hall & Hin).
        split; [lia|]. split.
        -- intros i item' Hi Hcol Hal' Hpos'.
           destruct (decide (i = k)) as [->|Hne].
           ++ destruct Hcol as [Hi' _]. rewrite Hk in Hi'. injection Hi' as <-. lia.
           ++ specialize (Hall i item' ltac:(lia) Hcol Hal' Hpos'). lia.
        -- right. exists k, item. done.
    + assert (ml1 !! Z.to_nat c = ml0 !! Z.to_nat c) as Hsame.
      { destruct Hcases as [->|(oldl & _ & _ & _ & _ & ->)]; [done|].
        by rewrite list_lookup_insert_ne. }
      rewrite Hsame in Hv1.
      destruct (Hinv v1 Hv1) as (H0 & Hall & Hin).
      split; [done|]. split; [|done].
      intros i item' Hi Hcol.
      destruct (decide (i = k)) as [->|Hne]; [|apply (Hall i item'); [lia|done]].
      destruct Hcol as [_ Hcol]. rewrite Hck in Hcol. injection Hcol as ->. done.
Qed.

Lemma maxLabelWidth_center_only_witness :
  getMaxWidthItems mixedColumns = Some ([5; 15], [0; 6], [3; 9]) ∧
  0 ≤ 6 ∧
  (∀ i item, inColumn mixedColumns 1 i item → GetFieldAlign item = AlignCenter →
             0 < paddedLabel item → paddedLabel item + 1 ≤ 6) ∧
  (6 = 0 ∨ ∃ i item, inColumn mixedColumns 1 i item ∧
                     GetFieldAlign item = AlignCenter ∧
                     0 < paddedLabel item ∧ 6 = paddedLabel item + 1).
Proof.
  split; [reflexivity|].
  apply (maxLabelWidth_center_only mixedColumns [5; 15] [0; 6] [3; 9] 1 6);
    [reflexivity|lia|reflexivity].
Defined.

(** What one run of the second loop of [getMaxWidthItems] does. *)
Lemma measureTotal_Some (f : Form) (ml mf : list Z) (i : nat) (item : FormItem)
    (mw mw' : list Z) :
  measureTotal f ml mf i item mw = Some mw' →
  ∃ c old,
    itemsColumn f !! i = Some c ∧ 0 ≤ c ∧ mw !! Z.to_nat c = Some old ∧
    ((GetFieldAlign item ≠ AlignCenter ∧
      mw' = <[Z.to_nat c := Z.max old (paddedLabel item + paddedField item)]> mw) ∨
     (GetFieldAlign item = AlignCenter ∧
      ∃ l w, ml !! Z.to_nat c = Some l ∧ mf !! Z.to_nat c = Some w ∧
             mw' = <[Z.to_nat c := l + w]> mw)).
Proof.
  unfold measureTotal, paddedLabel, paddedField. intros H.
  destruct (goIndex (itemsColumn f) (Z.of_nat i)) as [c|] eqn:Hc; [|done].
  rewrite goIndex_nat in Hc. simpl in H.
  destruct (goIndex mw c) as [old|] eqn:Hold; [|done]. simpl in H.
  apply goIndex_Some in Hold as [Hc0 Hold].
  match type of H with
  | (?m ≫= _) = _ => destruct m as [mw1|] eqn:Hmw; [|done]
  end. simpl in H.
  assert (Hmw1 : mw1 = <[Z.to_nat c :=
                          Z.max old (GetLabelWidth item + leftPadding item
                                     + (GetFieldWidth item + rightPadding item))]> mw).
  { destruct (decide (old < _)).
    - apply goStore_inv in Hmw as [_ ->]. by rewrite Z.max_r by lia.
    - injection Hmw as <-. rewrite Z.max_l by lia. by rewrite list_insert_id. }
  exists c, old. split; [done|]. split; [done|]. split; [done|].
  destruct (decide (GetFieldAlign item = AlignCenter)) as [Hal|Hal].
  - right. split; [done|].
    destruct (goIndex ml c) as [l|] eqn:Hl; [|done]. simpl in H.
    destruct (goIndex mf c) as [w|] eqn:Hw; [|done]. simpl in H.
    apply goIndex_Some in Hl as [_ Hl]. apply goIndex_Some in Hw as [_ Hw].
    exists l, w. split; [done|]. split; [done|].
    apply goStore_inv in H as [_ ->]. rewrite Hmw1. by rewrite list_insert_insert_eq.
  - left. split; [done|]. injection H as <-. done.
Qed.

(** X10.  The total width of a column without a center-aligned field is the
    greatest measured width of its fields (label and field with both
    paddings), and 0 when none is positive. *)
Theorem maxWidth_without_center (f : Form) (mw ml mf : list Z) (c v : Z) :
  getMaxWidthItems f = Some (mw, ml, mf) →
  0 ≤ c → mw !! Z.to_nat c = Some v →
  (∀ i item, inColumn f c i item → GetFieldAlign item ≠ AlignCenter) →
  0 ≤ v ∧
  (∀ i item, inColumn f c i item → paddedLabel item + paddedField item ≤ v) ∧
  (v = 0 ∨ ∃ i item, inColumn f c i item ∧ v = paddedLabel item + paddedField item).
Proof.
  intros H Hc Hv Hnone. apply getMaxWidthItems_Some in H as (_ & _ & H).
  set (P := λ (n : nat) (s : list Z), ∀ v, s !! Z.to_nat c = Some v →
     0 ≤ v ∧
     (∀ i item, (i < n)%nat → inColumn f c i item →
        paddedLabel item + paddedField item ≤ v) ∧
     (v = 0 ∨ ∃ i item, inColumn f c i item ∧
                        v = paddedLabel item + paddedField item)).
  cut (P (0 + length (items f))%nat mw);
    [|apply (rangeItems_invariant (measureTotal f ml mf) P (items f) 0%nat
               (replicate (Z.to_nat (getColoumnsCount f)) 0) mw);
      [| |exact H]]; unfold P; clear P.
  + intros Hfin. destruct (Hfin v Hv) as (H0 & Hall & Hin).
    split; [done|]. split; [|done].
    intros i item Hi. apply (Hall i item); [|done].
    destruct Hi as [Hi _]. apply lookup_lt_Some in Hi. lia.
  + simpl. intros v0 Hv0. apply lookup_replicate in Hv0 as [-> _].
    split; [lia|]. split; [intros; lia|by left].
  + intros k item mw0 mw1 Hk Hinv Hb. simpl in *.
    apply measureTotal_Some in Hb as (ck & old & Hck & Hck0 & Hold & Hcases).
    intros v1 Hv1.
    destruct (decide (Z.to_nat c = Z.to_nat ck)) as [E|E].
    * assert (c = ck) as -> by lia.
      destruct Hcases as [[_ ->]|[Hal _]]; [|by destruct (Hnone k item)].
      rewrite list_lookup_insert_eq in Hv1 by (by eapply lookup_lt_Some).
      injection Hv1 as <-.
      destruct (Hinv old Hold) as (H0 & Hall & Hin).
      split; [lia|]. split.
      -- intros i item' Hi Hcol.
         destruct (decide (i = k)) as [->|Hne].
         ++ destruct Hcol as [Hi' _]. rewrite Hk in Hi'. injection Hi' as <-. lia.
         ++ specialize (Hall i item' ltac:(lia) Hcol). lia.
      -- destruct (Z.max_spec old (paddedLabel item + paddedField item))
           as [[_ ->]|[_ ->]]; [|done].
         right. exists k, item. done.
    * assert (mw1 !! Z.to_nat c = mw0 !! Z.to_nat c) as Hsame.
      { destruct Hcases as [[_ ->]|[_ (l & w & _ & _ & ->)]];
          by rewrite list_lookup_insert_ne. }
      rewrite Hsame in Hv1.
      destruct (Hinv v1 Hv1) as (H0 & Hall & Hin).
      split; [done|]. split; [|done].
      intros i item' Hi Hcol.
      destruct (decide (i = k)) as [->|Hne]; [|apply (Hall i item'); [lia|done]].
      destruct Hcol as [_ Hcol]. rewrite Hck in Hcol. injection Hcol as ->. done.
Qed.

Lemma maxWidth_without_center_witness :
  getMaxWidthItems twoColumns = Some ([5; 7], [0; 0], [3; 4]) ∧
  0 ≤ 7 ∧
  (∀ i item, inColumn twoColumns 1 i item → paddedLabel item + paddedField item ≤ 7) ∧
  (7 = 0 ∨ ∃ i item, inColumn twoColumns 1 i item ∧
                     7 = paddedLabel item + paddedField item).
Proof.
  split; [reflexivity|].
  apply (maxWidth_without_center twoColumns [5; 7] [0; 0] [3; 4] 1 7);
    [reflexivity|lia|reflexivity|].
  intros [|[|i]] item [Hi _]; simpl in Hi; [| |done];
    injection Hi as <-; discriminate.
Defined.

(** X11.  When the last field of a column is center-aligned, the total width
    of the column is its label maximum plus its field maximum, whatever the
    widths of the fields before it. *)
Theorem maxWidth_last_center (f : Form) (mw ml mf : list Z) (c v : Z)
    (k0 : nat) (item0 : FormItem) :
  getMaxWidthItems f = Some (mw, ml, mf) →
  0 ≤ c → mw !! Z.to_nat c = Some v →
  inColumn f c k0 item0 → GetFieldAlign item0 = AlignCenter →
  (∀ j other, (k0 < j)%nat → ¬ inColumn f c j other) →
  ∃ l w, ml !! Z.to_nat c = Some l ∧ mf !! Z.to_nat c = Some w ∧ v = l + w.
Proof.
  intros H Hc Hv Hk0 Hal0 Hlast. apply getMaxWidthItems_Some in H as (_ & _ & H).
  set (P := λ (n : nat) (s : list Z), (k0 < n)%nat →
     ∀ v, s !! Z.to_nat c = Some v →
       ∃ l w, ml !! Z.to_nat c = Some l ∧ mf !! Z.to_nat c = Some w ∧ v = l + w).
  cut (P (0 + length (items f))%nat mw);
    [|apply (rangeItems_invariant (measureTotal f ml mf) P (items f) 0%nat
               (replicate (Z.to_nat (getColoumnsCount f)) 0) mw);
      [| |exact H]]; unfold P; clear P.
  + intros Hfin. apply Hfin; [|done].
    destruct Hk0 as [Hk0 _]. apply lookup_lt_Some in Hk0. lia.
  + intros ?. lia.
  + intros k item mw0 mw1 Hk Hinv Hb. simpl in *.
    apply measureTotal_Some in Hb as (ck & old & Hck & Hck0 & Hold & Hcases).
    intros Hlt v1 Hv1.
    destruct (decide (Z.to_nat c = Z.to_nat ck)) as [E|E].
    * assert (c = ck) as -> by lia.
      destruct (decide (k = k0)) as [->|Hne].
      -- destruct Hk0 as [Hi0 _]. rewrite Hk in Hi0. injection Hi0 as <-.
         destruct Hcases as [[Hn _]|[_ (l & w & Hl & Hw & ->)]]; [done|].
         rewrite list_lookup_insert_eq in Hv1 by (by eapply lookup_lt_Some).
         injection Hv1 as <-. by exists l, w.
      -- destruct (Hlast k item); [lia|done].
    * assert (mw1 !! Z.to_nat c = mw0 !! Z.to_nat c) as Hsame.
      { destruct Hcases as [[_ ->]|[_ (l & w & _ & _ & ->)]];
          by rewrite list_lookup_insert_ne. }
      rewrite Hsame in Hv1.
      destruct (decide (k = k0)) as [->|Hne].
      -- destruct Hk0 as [_ Hc0]. rewrite Hck in Hc0. injection Hc0 as ->. done.
      -- apply Hinv; [lia|done].
Qed.

Lemma maxWidth_last_center_witness :
  getMaxWidthItems mixedColumns = Some ([5; 15], [0; 6], [3; 9]) ∧
  inColumn mixedColumns 1 2 (centredItem 4 6 3) ∧
  ∃ l w, [0; 6] !! Z.to_nat 1 = Some l ∧ [3; 9] !! Z.to_nat 1 = Some w ∧ 15 = l + w.
Proof.
  split; [reflexivity|]. split; [split; reflexivity|].
  apply (maxWidth_last_center mixedColumns [5; 15] [0; 6] [3; 9] 1 15 2
           (centredItem 4 6 3));
    [reflexivity|lia|reflexivity|split; reflexivity|reflexivity|].
  intros [|[|[|j]]] other Hj [Hi _]; try lia. done.
Defined.

(** X12.  Without items the column height is 0.  With items it is the
    height of the tallest column, where the height of a column is the sum of
    the heights of its items with the item padding between them: no column
    is taller, and some column is that tall unless every column sums to 0 or
    less, which leaves the height at minus the item padding. *)
Theorem getMaxHeightColumn_tallest (f : Form) :
  (items f = [] → getMaxHeightColumn f = Some 0) ∧
  (∀ h, getMaxHeightColumn f = Some h → items f ≠ [] →
     - itemPadding f ≤ h ∧
     (∀ c, 0 ≤ c < getColoumnsCount f →
           stacked f c (length (items f)) - itemPadding f ≤ h) ∧
     (h = - itemPadding f ∨
      ∃ c, 0 ≤ c < getColoumnsCount f ∧
           h = stacked f c (length (items f)) - itemPadding f)).
Proof.
  pose proof (getColoumnsCount_pos f) as Hpos. split.
  - intros E. unfold getMaxHeightColumn, makeInts. rewrite E.
    destruct (decide (0 ≤ _)); [|lia]. done.
  - intros h H Hne. unfold getMaxHeightColumn, makeInts in H.
    destruct (decide (0 ≤ _)); [|lia]. simpl in H.
    destruct (decide (0 < len (items f))) as [_|Hn];
      [|destruct (items f); [done|unfold len in Hn; simpl in Hn; lia]].
    match type of H with
    | (?m ≫= _) = _ => destruct m as [mh|] eqn:Hrun; [|done]
    end. simpl in H. injection H as <-.
    set (n := Z.to_nat (getColoumnsCount f)) in *.
    set (P := λ (k : nat) (s : list Z), length s = n ∧
       ∀ c v, 0 ≤ c → s !! Z.to_nat c = Some v → v = stacked f c k).
    assert (Hfin : P (0 + length (items f))%nat mh).
    { match type of Hrun with
      | rangeItems ?body _ _ _ = _ =>
          apply (rangeItems_invariant body P (items f) 0%nat (replicate n 0) mh);
            [| |exact Hrun]
      end; unfold P; clear P.
      - split; [by rewrite length_replicate|]. intros c v Hc Hv.
        apply lookup_replicate in Hv as [-> _]. done.
      - intros k item s s' Hk [Hlen Hinv] Hb. simpl in *.
        destruct (goIndex (itemsColumn f) (Z.of_nat k)) as [ck|] eqn:Hck; [|done].
        rewrite goIndex_nat in Hck. simpl in Hb.
        destruct (goIndex s ck) as [old|] eqn:Hold; [|done]. simpl in Hb.
        apply goIndex_Some in Hold as [Hck0 Hold].
        apply goStore_inv in Hb as [_ ->].
        split; [by rewrite length_insert|].
        intros c v Hc Hv. rewrite stacked_S, Hk, Hck.
        destruct (decide (ck = c)) as [->|Hne'].
        + rewrite list_lookup_insert_eq in Hv by (by eapply lookup_lt_Some).
          injection Hv as <-. by rewrite (Hinv c old Hc Hold).
        + rewrite list_lookup_insert_ne in Hv by lia.
          rewrite (Hinv c v Hc Hv). lia. }
    destruct Hfin as [Hlen Hstack]. simpl in Hstack.
    destruct (maxOver_max 0 mh) as (H0 & Hall & Hin).
    split; [lia|]. split.
    + intros c Hc.
      destruct (lookup_lt_is_Some_2 mh (Z.to_nat c)) as [v Hv]; [lia|].
      rewrite <- (Hstack c v ltac:(lia) Hv).
      specialize (Hall v (list_elem_of_lookup_2 _ _ _ Hv)). lia.
    + destruct Hin as [->|Hin]; [left; lia|right].
      apply list_elem_of_lookup in Hin as [i Hi].
      exists (Z.of_nat i). pose proof (lookup_lt_Some _ _ _ Hi).
      split; [lia|].
      rewrite <- (Hstack (Z.of_nat i) (maxOver 0 mh)); [done|lia|].
      by rewrite Nat2Z.id.
Qed.

(** *** Forms built by the operations *)






Lemma addAll_spec (l : list (FormItem * Z)) :
  ∀ f, items (addAll l f) = items f ++ l.*1 ∧
       itemsColumn (addAll l f) = itemsColumn f ++ l.*2 ∧
       buttons (addAll l f) = buttons f.
Proof.
  unfold addAll. induction l as [|[item c] l IH]; intros f; simpl.
  - by rewrite !app_nil_r.
  - destruct (IH (AddFormItemWithColumn item c f)) as (-> & -> & ->). simpl.
    by rewrite <- !app_assoc.
Qed.

(** X14.  [Clear] empties the fields and keeps their columns.  A form that is
    cleared and filled again has the new fields, and behind the old columns
    the new ones: the column that measuring and drawing read for the new
    field at a position where the form had a field before is the column of
    that earlier field, not the column the new field was added with. *)
Theorem Clear_then_refill (includeButtons : bool) (f : Form)
    (l : list (FormItem * Z)) :
  let g := addAll l (Clear includeButtons f) in
  items g = l.*1 ∧
  itemsColumn g = itemsColumn f ++ l.*2 ∧
  (∀ i c, itemsColumn f !! i = Some c →
          goIndex (itemsColumn g) (Z.of_nat i) = Some c) ∧
  (∀ i p, l !! i = Some p →
          goIndex (itemsColumn g) (Z.of_nat (length (itemsColumn f) + i)) = Some p.2).
Proof.
  simpl. destruct (addAll_spec l (Clear includeButtons f)) as (Hi & Hc & _).
  assert (items (Clear includeButtons f) = []) as E1 by (by destruct includeButtons).
  assert (itemsColumn (Clear includeButtons f) = itemsColumn f) as E2
    by (by destruct includeButtons).
  rewrite E1 in Hi. rewrite E2 in Hc. rewrite Hi, Hc.
  split; [done|]. split; [done|]. split.
  - intros i c H. rewrite goIndex_nat. by apply lookup_app_l_Some.
  - intros i p H. rewrite goIndex_nat, lookup_app_r by lia.
    replace (length (itemsColumn f) + i - length (itemsColumn f))%nat with i by lia.
    by rewrite list_lookup_fmap, H.
Qed.

(** X15.  With an enabled field, [ResetFocus] moves the focus index to the
    first field that is not disabled, whatever the index was, and
    [GetFormItem] at the new index is that field; it sets [lastItem] to 0 and
    [lastButton] to the number of fields, and changes neither the fields nor
    the buttons. *)
Theorem ResetFocus_selects_first_enabled (f : Form) (i : nat) (item : FormItem) :
  items f !! i = Some item → IsDisable item = false →
  (∀ k item', (k < i)%nat → items f !! k = Some item' → IsDisable item' = true) →
  focusedElement (ResetFocus f) = Z.of_nat i ∧
  GetFormItem (focusedElement (ResetFocus f)) (ResetFocus f) = Some item ∧
  lastItem (ResetFocus f) = 0 ∧
  lastButton (ResetFocus f) = len (items f) ∧
  items (ResetFocus f) = items f ∧ buttons (ResetFocus f) = buttons f ∧
  itemsColumn (ResetFocus f) = itemsColumn f.
Proof.
  intros Hi Hen Hbefore.
  destruct (ResetFocus_first_enabled f i item Hi Hen Hbefore) as (Hfe & Hli & Hlb).
  assert (items (ResetFocus f) = items f ∧ buttons (ResetFocus f) = buttons f ∧
          itemsColumn (ResetFocus f) = itemsColumn f) as (Hit & Hbt & Hco).
  { unfold ResetFocus. by destruct (firstEnabled 0 (items f)). }
  split; [done|]. split.
  - unfold GetFormItem. by rewrite Hfe, Hit, goIndex_nat.
  - done.
Qed.

Lemma ResetFocus_selects_first_enabled_witness :
  focusedElement disabledFirst = 2 ∧
  focusedElement (ResetFocus disabledFirst) = Z.of_nat 1 ∧
  GetFormItem (focusedElement (ResetFocus disabledFirst)) (ResetFocus disabledFirst)
    = Some (plainItem 4 6 2) ∧
  lastItem (ResetFocus disabledFirst) = 0 ∧
  lastButton (ResetFocus disabledFirst) = len (items disabledFirst) ∧
  items (ResetFocus disabledFirst) = items disabledFirst ∧
  buttons (ResetFocus disabledFirst) = buttons disabledFirst ∧
  itemsColumn (ResetFocus disabledFirst) = itemsColumn disabledFirst.
Proof.
  split; [reflexivity|].
  apply (ResetFocus_selects_first_enabled disabledFirst 1 (plainItem 4 6 2));
    [reflexivity|reflexivity|].
  intros [|k] item' Hk H; [|lia]. by injection H as <-.
Defined.

(** *** Focus, the keys and [HasFocus] *)

Lemma Buttons_AddButton (b : Button) (f : Form) :
  Buttons (AddButton b f)
  = Buttons f ++ (if GetHidden b then [] else [(length (buttons f), b)]).
Proof.
  unfold Buttons. simpl. rewrite imap_app, list.filter_app. f_equal.
  simpl. rewrite filter_cons, filter_nil. simpl. rewrite Nat.add_0_r.
  destruct (GetHidden b); by destruct (decide _).
Qed.

(** An element that a focus index stands for is a field of the form or one
    of its visible buttons. *)
Lemma targetAt_elem (f : Form) (i : Z) (t : Target) :
  targetAt f i = Some t →
  (∃ k, t = TItem k ∧ (k < length (items f))%nat) ∨
  (∃ j b, t = TButton j ∧ (j, b) ∈ Buttons f).
Proof.
  unfold targetAt. destruct (decide (i < _)) as [Hi|Hi].
  - destruct (decide (0 ≤ i)); [|done]. intros [= <-]. left.
    eexists. split; [done|]. unfold len in Hi. lia.
  - destruct (goIndex _ _) as [[j b]|] eqn:E; [|done]. simpl. intros [= <-]. right.
    exists j, b. split; [done|]. apply goIndex_Some in E as [_ E].
    by eapply list_elem_of_lookup_2.
Qed.

Section FocusFacts.
Context {World : Type}.
Variable hasFocus : World → Target → bool.
Variable delegate : Target → World → World.

(** [Focus] on an index in range: the element of [targetAt]. *)
Lemma Focus_in_range (s : State World) :
  indexInRange (form s) →
  ∃ t, targetAt (form s) (focusedElement (form s)) = Some t ∧
       Focus delegate s
       = Some (mkState (form s) (delegate t (world s))
                 (events s ++ [registration t; EvDelegate t])).
Proof.
  unfold indexInRange. intros Hi. unfold Focus, targetAt.
  pose proof (len_nonneg (items (form s))). pose proof (len_nonneg (Buttons (form s))).
  destruct (decide (_ = 0)); [lia|].
  destruct (decide (_ ∨ _)); [lia|].
  destruct (decide (focusedElement (form s) < _)).
  - destruct (goIndex_lt (items (form s)) (focusedElement (form s))) as (e & -> & _); [lia|].
    destruct (decide (0 ≤ _)); [|lia]. simpl. by eexists.
  - destruct (goIndex_lt (Buttons (form s))
                (len (Buttons (form s)) - 1
                 - (focusedElement (form s) - len (items (form s)))))
      as ([j b] & -> & _); [lia|]. simpl. by eexists.
Qed.

(** [Focus] on an index out of range is [Focus] on index 0. *)
Lemma Focus_out_of_range (s : State World) :
  ¬ indexInRange (form s) →
  len (items (form s)) + len (Buttons (form s)) ≠ 0 →
  Focus delegate s = Focus delegate (withForm (setFocusedElement 0) s).
Proof.
  unfold indexInRange. intros Hi Hn. unfold Focus. simpl.
  change (Buttons (setFocusedElement 0 (form s))) with (Buttons (form s)).
  pose proof (len_nonneg (items (form s))). pose proof (len_nonneg (Buttons (form s))).
  destruct (decide (_ = 0)); [lia|].
  destruct (decide (focusedElement (form s) < 0 ∨ _)); [|lia].
  destruct (decide (0 < 0 ∨ _)); [lia|]. done.
Qed.

(** [Focus] on a form with a field or a visible button. *)
Lemma Focus_delegates (s : State World) :
  let f := form s in
  let f' := if decide (indexInRange f) then f else setFocusedElement 0 f in
  len (items f) + len (Buttons f) ≠ 0 →
  indexInRange f' ∧
  ∃ t, targetAt f (focusedElement f') = Some t ∧
       Focus delegate s
       = Some (mkState f' (delegate t (world s))
                 (events s ++ [registration t; EvDelegate t])).
Proof.
  intros f f' Hn.
  pose proof (len_nonneg (items f)). pose proof (len_nonneg (Buttons f)).
  assert (Hr : indexInRange f').
  { unfold f'. destruct (decide (indexInRange f)); [done|].
    unfold indexInRange. simpl. change (Buttons (setFocusedElement 0 f)) with (Buttons f). lia. }
  split; [done|].
  unfold f' in *. destruct (decide (indexInRange f)) as [Hin|Hout].
  - apply (Focus_in_range s Hin).
  - rewrite (Focus_out_of_range s Hout Hn).
    destruct (Focus_in_range (withForm (setFocusedElement 0) s) Hr) as (t & Ht & ->).
    exists t. split; [exact Ht|done].
Qed.

(** X16.  On a form with a field or a visible button [Focus] does not panic.
    A focus index that is negative, or at or beyond the number of fields and
    visible buttons, is reset to 0 first; then the handler is registered on
    the element the index stands for and focus is delegated to it.  Index 0
    stands for the first field, and for the last visible button when the
    form has no field. *)
Theorem Focus_clamps_index (s : State World) :
  let f := form s in
  let f' := if decide (indexInRange f) then f else setFocusedElement 0 f in
  len (items f) + len (Buttons f) ≠ 0 →
  indexInRange f' ∧
  ∃ t, targetAt f (focusedElement f') = Some t ∧
       Focus delegate s
       = Some (mkState f' (delegate t (world s))
                 (events s ++ [registration t; EvDelegate t])) ∧
       (items f ≠ [] → focusedElement f' = 0 → t = TItem 0) ∧
       (items f = [] → focusedElement f' = 0 →
          ∃ j b, last (Buttons f) = Some (j, b) ∧ t = TButton j).
Proof.
  intros f f' Hn.
  pose proof (len_nonneg (items f)). pose proof (len_nonneg (Buttons f)).
  destruct (Focus_delegates s Hn) as (Hr & t & Ht & HF). fold f f' in Hr, Ht, HF.
  split; [done|].
  exists t. split; [done|]. split; [done|]. split.
  - intros Hne Hz0. rewrite Hz0 in Ht. unfold targetAt in Ht.
    assert (length (items f) ≠ 0%nat) by (intros E0; by apply nil_length_inv in E0).
    destruct (decide (0 < len (items f))) as [_|Hz]; [|unfold len in Hz; lia].
    simpl in Ht. by injection Ht as <-.
  - intros He Hz0. rewrite Hz0 in Ht. unfold targetAt in Ht. rewrite He in Ht.
    change (len []) with 0 in Ht. simpl in Ht.
    destruct (goIndex _ _) as [[j b]|] eqn:E; [|done]. simpl in Ht. injection Ht as <-.
    exists j, b. split; [|done]. apply goIndex_Some in E as [_ E].
    rewrite last_lookup, <- E. f_equal. unfold len. lia.
Qed.

(** X17.  [AddButton] with a visible button appends it to the visible buttons.
    Since focus indices count the buttons from the last one, the new button
    takes the first button index, [numFields], and every button that was
    visible before is reached at its former index plus one. *)
Theorem AddButton_shifts_button_index (b : Button) (f : Form) (w : World)
    (ev : list Event) :
  GetHidden b = false →
  let g := AddButton b f in
  let nF := len (items f) in
  let new := TButton (length (buttons f)) in
  Buttons g = Buttons f ++ [(length (buttons f), b)] ∧
  Focus delegate (mkState (setFocusedElement nF g) w ev)
  = Some (mkState (setFocusedElement nF g) (delegate new w)
            (ev ++ [registration new; EvDelegate new])) ∧
  ∀ i, nF ≤ i < nF + len (Buttons f) →
    ∃ t,
      Focus delegate (mkState (setFocusedElement i f) w ev)
      = Some (mkState (setFocusedElement i f) (delegate t w)
                (ev ++ [registration t; EvDelegate t])) ∧
      Focus delegate (mkState (setFocusedElement (i + 1) g) w ev)
      = Some (mkState (setFocusedElement (i + 1) g) (delegate t w)
                (ev ++ [registration t; EvDelegate t])).
Proof.
  intros Hv g nF new.
  pose proof (len_nonneg (items f)). pose proof (len_nonneg (Buttons f)).
  assert (HB : Buttons g = Buttons f ++ [(length (buttons f), b)]).
  { unfold g. by rewrite Buttons_AddButton, Hv. }
  assert (HlenB : len (Buttons g) = len (Buttons f) + 1).
  { rewrite HB. unfold len. rewrite length_app. simpl. lia. }
  assert (Hat : ∀ (h : Form) (i : Z),
            indexInRange (setFocusedElement i h) →
            ∃ t, targetAt h i = Some t ∧
                 Focus delegate (mkState (setFocusedElement i h) w ev)
                 = Some (mkState (setFocusedElement i h) (delegate t w)
                           (ev ++ [registration t; EvDelegate t]))).
  { intros h i Hr.
    destruct (Focus_in_range (mkState (setFocusedElement i h) w ev) Hr) as (t & Ht & HF).
    exists t. split; [exact Ht|exact HF]. }
  split; [done|]. split.
  - destruct (Hat g nF) as (t & Ht & ->).
    { unfold indexInRange. simpl. change (Buttons (setFocusedElement nF g)) with (Buttons g).
      fold nF. lia. }
    unfold targetAt in Ht. change (items g) with (items f) in Ht. fold nF in Ht.
    destruct (decide (nF < nF)); [lia|].
    rewrite HlenB in Ht.
    replace (len (Buttons f) + 1 - 1 - (nF - nF)) with (Z.of_nat (length (Buttons f))) in Ht
      by (unfold len; lia).
    rewrite goIndex_nat, HB, list_lookup_middle in Ht by done. simpl in Ht.
    by injection Ht as <-.
  - intros i Hi.
    destruct (Hat f i) as (t & Ht & HF).
    { unfold indexInRange. simpl. change (Buttons (setFocusedElement i f)) with (Buttons f).
      fold nF. lia. }
    destruct (Hat g (i + 1)) as (t' & Ht' & HF').
    { unfold indexInRange. simpl.
      change (Buttons (setFocusedElement (i + 1) g)) with (Buttons g).
      change (items g) with (items f). fold nF. lia. }
    exists t. split; [exact HF|]. rewrite HF'.
    assert (t' = t) as ->; [|done].
    unfold targetAt in Ht, Ht'. change (items g) with (items f) in Ht'. fold nF in Ht, Ht'.
    destruct (decide (i < nF)); [lia|]. destruct (decide (i + 1 < nF)); [lia|].
    rewrite HlenB in Ht'.
    replace (len (Buttons f) + 1 - 1 - (i + 1 - nF)) with (len (Buttons f) - 1 - (i - nF))
      in Ht' by lia.
    destruct (goIndex_lt (Buttons f) (len (Buttons f) - 1 - (i - nF))) as (e & He & Hl);
      [lia|].
    assert (goIndex (Buttons g) (len (Buttons f) - 1 - (i - nF)) = Some e) as He'.
    { apply goIndex_Some. split; [lia|]. rewrite HB. by apply lookup_app_l_Some. }
    rewrite He in Ht. rewrite He' in Ht'. congruence.
Qed.

(** X18.  After [Focus] on a form with a field or a visible button, in an
    application in which the element that is handed focus reports it,
    [HasFocus] is true. *)
Theorem Focus_then_HasFocus (s : State World) :
  (∀ t w, hasFocus (delegate t w) t = true) →
  len (items (form s)) + len (Buttons (form s)) ≠ 0 →
  ∃ s', Focus delegate s = Some s' ∧
        HasFocus hasFocus (world s') (form s') = true.
Proof.
  intros Hacc Hn.
  destruct (Focus_delegates s Hn) as (_ & t & Ht & ->).
  eexists. split; [done|]. simpl.
  set (f' := if decide (indexInRange (form s)) then form s
             else setFocusedElement 0 (form s)).
  assert (items f' = items (form s) ∧ Buttons f' = Buttons (form s)) as [Hi Hb].
  { unfold f'. by destruct (decide _). }
  unfold HasFocus. rewrite Hi, Hb. apply orb_true_iff.
  apply targetAt_elem in Ht as [(k & -> & Hk)|(j & b & -> & Hin)].
  - left. apply existsb_exists. exists k. split; [|by rewrite Hacc].
    apply in_seq. lia.
  - right. apply existsb_exists. exists (j, b). split; [|by rewrite Hacc].
    by apply list_elem_of_In.
Qed.

(** X19.  [HasFocus] is true exactly when a field of the form, or a stored
    button that is not hidden, reports focus: a hidden button that reports
    focus does not count, and a form without fields and visible buttons
    never has focus. *)
Theorem HasFocus_visible_only (w : World) (f : Form) :
  HasFocus hasFocus w f = true ↔
  (∃ i, (i < length (items f))%nat ∧ hasFocus w (TItem i) = true) ∨
  (∃ j b, buttons f !! j = Some b ∧ GetHidden b = false ∧
          hasFocus w (TButton j) = true).
Proof.
  unfold HasFocus. rewrite orb_true_iff, !existsb_exists. split.
  - intros [(i & Hin & Hf)|([j b] & Hin & Hf)].
    + left. exists i. split; [|done]. apply in_seq in Hin. lia.
    + right. apply list_elem_of_In, list_elem_of_lookup in Hin as [k Hk].
      apply Buttons_lookup in Hk as [Hj Hv]. by exists j, b.
  - intros [(i & Hi & Hf)|(j & b & Hj & Hv & Hf)].
    + left. exists i. split; [|done]. apply in_seq. lia.
    + right. exists (j, b). split; [|done]. apply list_elem_of_In.
      unfold Buttons. apply list_elem_of_filter. split; [done|].
      apply list_elem_of_lookup. exists j. by rewrite list_lookup_imap, Hj.
Qed.

Lemma sameItem_total (f : Form) (current c : Z) :
  0 ≤ current → 0 ≤ c → ∃ r, sameItem f current c = Some r.
Proof.
  intros Hcur Hc. unfold sameItem. destruct (decide _) as [[H1 H2]|]; [|by eexists].
  destruct (goIndex_lt (items f) current) as (e1 & -> & _); [lia|].
  destruct (goIndex_lt (items f) c) as (e2 & -> & _); [lia|]. simpl. by eexists.
Qed.

Lemma sameButton_total (f : Form) (current c : Z) :
  current < len (items f) + len (Buttons f) →
  c < len (items f) + len (Buttons f) →
  ∃ r, sameButton f current c = Some r.
Proof.
  intros Hcur Hc. unfold sameButton. destruct (decide _) as [[H1 H2]|]; [|by eexists].
  destruct (goIndex_lt (Buttons f) (current - len (items f))) as (e1 & -> & _); [lia|].
  destruct (goIndex_lt (Buttons f) (c - len (items f))) as (e2 & -> & _); [lia|].
  simpl. by eexists.
Qed.

Lemma itemAccepted_total (s : State World) :
  indexInRange (form s) → ∃ r, itemAccepted hasFocus s = Some r.
Proof.
  unfold indexInRange. intros Hr. unfold itemAccepted.
  destruct (decide _); [|by eexists].
  destruct (goIndex_lt (items (form s)) (focusedElement (form s))) as (e & -> & _); [lia|].
  simpl. by eexists.
Qed.

Lemma buttonAccepted_total (s : State World) :
  indexInRange (form s) → ∃ r, buttonAccepted hasFocus s = Some r.
Proof.
  unfold indexInRange. intros Hr. unfold buttonAccepted.
  destruct (decide _); [|by eexists].
  destruct (goIndex_lt (Buttons (form s))
              (len (Buttons (form s)) - 1
               - (focusedElement (form s) - len (items (form s)))))
    as ([j b] & -> & _); [lia|].
  simpl. by eexists.
Qed.

(** The second loop of [nextStep] does not panic and leaves an index in
    range, whether or not the elements accept focus. *)
Lemma walk_in_range (current : Z) (indexes : list Z) :
  ∀ s : State World,
    0 ≤ current < len (items (form s)) + len (Buttons (form s)) →
    indexInRange (form s) →
    Forall (λ c, 0 ≤ c) indexes →
    ∃ s', walk hasFocus delegate current indexes s = Some s' ∧
          sameElements s s' ∧ indexInRange (form s').
Proof.
  induction indexes as [|c rest IH]; intros s Hcur Hr Hpos; cbn [walk].
  - exists s. by split.
  - apply list.Forall_cons in Hpos as [Hc Hrest].
    set (f := form s) in *.
    destruct (decide (c >= len (items f) + len (Buttons f))) as [Hhigh|Hin].
    { by apply IH. }
    set (s1 := withForm (setFocusedElement c) s).
    assert (Hitems : items (form s1) = items f) by done.
    assert (Hbs : buttons (form s1) = buttons f) by done.
    assert (Hbuttons : Buttons (form s1) = Buttons f) by done.
    assert (Hr1 : indexInRange (form s1)).
    { unfold indexInRange. rewrite Hitems, Hbuttons. simpl. lia. }
    assert (Hnext : ∀ s2 : State World, form s2 = form s1 →
              ∃ s', walk hasFocus delegate current rest s2 = Some s' ∧
                    sameElements s s' ∧ indexInRange (form s')).
    { intros s2 Hf2. destruct (IH s2) as (s' & Hs' & [Hi' Hb'] & Hr'); try done.
      - by rewrite Hf2, Hitems, Hbuttons.
      - by rewrite Hf2.
      - exists s'. split; [done|]. split; [|done].
        split; [by rewrite Hi', Hf2|by rewrite Hb', Hf2]. }
    destruct (sameItem_total (form s1) current c) as (r1 & ->); [lia|lia|].
    destruct r1; [by apply Hnext|].
    destruct (sameButton_total (form s1) current c) as (r2 & ->);
      [rewrite Hitems, Hbuttons; lia|rewrite Hitems, Hbuttons; lia|].
    destruct r2; [by apply Hnext|].
    destruct (Focus_in_range s1 Hr1) as (t & _ & ->).
    set (s2 := mkState (form s1) (delegate t (world s1))
                 (events s1 ++ [registration t; EvDelegate t])).
    destruct (itemAccepted_total s2 Hr1) as (r3 & ->).
    destruct r3.
    { eexists. split; [done|]. split; [by split|]. exact Hr1. }
    destruct (buttonAccepted_total s2 Hr1) as (r4 & ->).
    destruct r4.
    { eexists. split; [done|]. split; [by split|]. exact Hr1. }
    by apply Hnext.
Qed.

Lemma nextStep_in_range (indexes : list Z) (s : State World) :
  indexInRange (form s) → Forall (λ c, 0 ≤ c) indexes →
  ∃ s', nextStep hasFocus delegate indexes s = Some s' ∧
        sameElements s s' ∧ indexInRange (form s').
Proof.
  intros Hr Hpos. unfold nextStep.
  apply walk_in_range; [exact Hr|exact Hr|by apply rotateIndexes_Forall].
Qed.

(** X20.  A key that reaches the focused element of a form whose focus index
    is in range never panics, whichever key it is and whether or not the
    elements accept focus: the handler returns, the fields and buttons are
    the same, and the focus index is again in range. *)
Theorem handleKey_keeps_index_in_range (key : Key) (s : State World) :
  indexInRange (form s) →
  ∃ s', handleKey hasFocus delegate key s = Some s' ∧
        sameElements s s' ∧ indexInRange (form s').
Proof.
  intros Hr. pose proof Hr as Hr'. unfold indexInRange in Hr'.
  pose proof (len_nonneg (items (form s))). pose proof (len_nonneg (Buttons (form s))).
  assert (Hesc : ∃ s', escape delegate s = Some s' ∧
                       sameElements s s' ∧ indexInRange (form s')).
  { unfold escape. destruct (cancel (form s)).
    - eexists. split; [done|]. by split.
    - destruct (Focus_in_range (withForm (setFocusedElement 0) s)) as (t & _ & ->).
      + unfold indexInRange. simpl.
        change (Buttons (setFocusedElement 0 (form s))) with (Buttons (form s)). lia.
      + eexists. split; [done|]. split; [by split|].
        unfold indexInRange. simpl.
        change (Buttons (setFocusedElement 0 (form s))) with (Buttons (form s)). lia. }
  assert (Hsame : ∃ s', Some s = Some s' ∧ sameElements s s' ∧ indexInRange (form s')).
  { exists s. by split. }
  unfold handleKey. destruct (decide _).
  - unfold itemHandler. destruct key; try done;
      apply nextStep_in_range; try done; apply makeRange_nonneg; lia.
  - unfold buttonHandler. destruct key; try done;
      apply nextStep_in_range; try done; apply makeRange_nonneg; lia.
Qed.

(** X21.  The Escape key on the focused element: with a cancel function set,
    the only effect is the call of that function; without one, the focus
    index becomes 0 and focus is handed to the element index 0 stands for. *)
Theorem handleKey_Escape (s : State World) :
  indexInRange (form s) →
  (cancel (form s) = true →
   handleKey hasFocus delegate KeyEscape s
   = Some (mkState (form s) (world s) (events s ++ [EvCancel]))) ∧
  (cancel (form s) = false →
   ∃ t, targetAt (form s) 0 = Some t ∧
        handleKey hasFocus delegate KeyEscape s
        = Some (mkState (setFocusedElement 0 (form s)) (delegate t (world s))
                  (events s ++ [registration t; EvDelegate t]))).
Proof.
  intros Hr. unfold indexInRange in Hr.
  assert (handleKey hasFocus delegate KeyEscape s = escape delegate s) as ->.
  { unfold handleKey. by destruct (decide _). }
  unfold escape. split; intros ->; [done|].
  destruct (Focus_in_range (withForm (setFocusedElement 0) s)) as (t & Ht & ->).
  - unfold indexInRange. simpl.
    change (Buttons (setFocusedElement 0 (form s))) with (Buttons (form s)). lia.
  - exists t. split; [exact Ht|done].
Qed.
End FocusFacts.

Lemma Focus_clamps_index_witness :
  len (items (form staleIndex)) + len (Buttons (form staleIndex)) ≠ 0 ∧
  ∃ t, targetAt (form staleIndex) 0 = Some t ∧
       Focus giveFocus staleIndex
       = Some (mkState (setFocusedElement 0 oneFieldTwoButtons) (giveFocus t None)
                 [registration t; EvDelegate t]) ∧
       t = TItem 0.
Proof.
  split; [vm_compute; discriminate|].
  destruct (Focus_clamps_index giveFocus staleIndex) as (_ & t & Ht & HF & Hitem & _);
    [vm_compute; discriminate|].
  exists t. split; [exact Ht|]. split; [exact HF|].
  apply Hitem; [discriminate|reflexivity].
Defined.

Lemma AddButton_shifts_button_index_witness :
  Buttons (AddButton (mkButton 3 false 102) oneFieldTwoButtons)
  = Buttons oneFieldTwoButtons ++ [(2%nat, mkButton 3 false 102)] ∧
  Focus giveFocus
    (mkState (setFocusedElement 1 (AddButton (mkButton 3 false 102) oneFieldTwoButtons))
       (None : holder) [])
  = Some (mkState (setFocusedElement 1 (AddButton (mkButton 3 false 102) oneFieldTwoButtons))
            (Some (TButton 2)) [EvSetBlurFunc 2; EvDelegate (TButton 2)]).
Proof.
  destruct (AddButton_shifts_button_index giveFocus (mkButton 3 false 102)
              oneFieldTwoButtons (None : holder) [] eq_refl) as (HB & HF & _).
  split; [exact HB|exact HF].
Defined.

Lemma Focus_then_HasFocus_witness :
  ∃ s', Focus giveFocus staleIndex = Some s' ∧
        HasFocus holds (world s') (form s') = true.
Proof.
  apply (Focus_then_HasFocus holds giveFocus staleIndex).
  - exact giveFocus_accepted.
  - vm_compute. discriminate.
Defined.

Lemma handleKey_keeps_index_in_range_witness :
  indexInRange (form onButton) ∧
  ∃ s', handleKey holds giveFocus KeyDown onButton = Some s' ∧
        sameElements onButton s' ∧ indexInRange (form s').
Proof.
  assert (indexInRange (form onButton)) as H
    by (vm_compute; split; [discriminate|reflexivity]).
  split; [exact H|].
  apply (handleKey_keeps_index_in_range holds giveFocus KeyDown onButton H).
Defined.

Lemma handleKey_Escape_witness :
  cancel (form onButton) = false ∧
  ∃ t, targetAt (form onButton) 0 = Some t ∧
       handleKey holds giveFocus KeyEscape onButton
       = Some (mkState (setFocusedElement 0 (form onButton)) (giveFocus t (world onButton))
                 (events onButton ++ [registration t; EvDelegate t])).
Proof.
  split; [reflexivity|].
  apply (handleKey_Escape holds giveFocus onButton); [|reflexivity].
  vm_compute. split; [discriminate|reflexivity].
Defined.

(** *** Columns and the vertical layout *)

Lemma mixedColumns_columnsOK : columnsOK mixedColumns.
Proof. split; [simpl; lia|]. repeat constructor; lia. Qed.

Lemma sumZ_snoc (l : list Z) (w : Z) : sumZ (l ++ [w]) = sumZ l + w.
Proof. unfold sumZ. rewrite foldr_app. simpl. rewrite foldr_add_from. lia. Qed.

(** The second loop over the columns only appends. *)
Lemma columnStarts_keep (f : Form) (x : Z) (l : list Z) :
  ∀ (width : Z) (acc : list Z) (i : nat) (v : Z),
    acc !! i = Some v →
    (foldl (λ '(width, colX) w,
              (width + (w + 1 + columnPadding f), colX ++ [x + width]))
       (width, acc) l).2 !! i = Some v.
Proof.
  induction l as [|w l IH]; intros width acc i v Hv; simpl; [done|].
  apply IH. by apply lookup_app_l_Some.
Qed.

(** The second loop over the columns, from any width and any columns
    already appended. *)
Lemma columnStarts_from (f : Form) (x : Z) (l : list Z) :
  ∀ (width : Z) (acc : list Z) (c : nat),
    (foldl (λ '(width, colX) w,
              (width + (w + 1 + columnPadding f), colX ++ [x + width]))
       (width, acc) l).2 !! (length acc + c)%nat
    = (λ _, x + width + sumZ (take c l) + Z.of_nat c * (1 + columnPadding f)) <$> l !! c.
Proof.
  induction l as [|w l IH]; intros width acc c; simpl.
  - apply lookup_ge_None. lia.
  - destruct c as [|c].
    + simpl. rewrite Nat.add_0_r.
      rewrite (columnStarts_keep f x l _ _ (length acc) (x + width))
        by (by rewrite list_lookup_middle).
      unfold sumZ. simpl. f_equal. lia.
    + replace (length acc + S c)%nat with (length (acc ++ [(x + width)%Z]) + c)%nat
        by (rewrite length_app; simpl; lia).
      rewrite IH. simpl. destruct (l !! c); [|done]. simpl. f_equal.
      unfold sumZ. simpl. lia.
Qed.

(** The first loop over the columns, from any width. *)
Lemma contentWidth_from (f : Form) (l : list Z) :
  ∀ (width maxWidth : Z),
    (foldl (λ '(width, maxWidth) w, (width + w + (1 + columnPadding f), width + w))
       (width, maxWidth) l).2
    = if decide (l = []) then maxWidth
      else width + sumZ l + (Z.of_nat (length l) - 1) * (1 + columnPadding f).
Proof.
  induction l as [|w l IH]; intros width maxWidth; simpl; [done|].
  rewrite IH. destruct (decide (l = [])) as [->|Hne]; unfold sumZ; simpl; lia.
Qed.

(** X22.  The columns of a draw lie side by side: column [c] starts at the
    start of the form plus the widths of the columns before it, each
    followed by one cell and the column padding.  The content is as wide as
    all columns with that gap between them, without one after the last.  The
    start of the form is the left edge of the inner rectangle; for a
    right-aligned form the content ends at the right edge, and for a
    centered form the start is moved right by half of the free width,
    rounded towards zero. *)
Theorem columnsX_closed_form (f : Form) (inner : Rect) (maxColWidth : list Z) :
  let gap := 1 + columnPadding f in
  let maxWidth := contentWidth f maxColWidth in
  let start := alignedX f (rx inner) (rwidth inner) maxWidth in
  maxWidth = (if decide (maxColWidth = []) then 0
              else sumZ maxColWidth + (Z.of_nat (length maxColWidth) - 1) * gap) ∧
  (∀ c : nat,
     columnsX f inner maxColWidth !! c
     = (λ _, start + sumZ (take c maxColWidth) + Z.of_nat c * gap) <$> maxColWidth !! c) ∧
  (align f = AlignLeft → start = rx inner) ∧
  (align f = AlignRight → start + maxWidth = rx inner + rwidth inner) ∧
  (align f = AlignCenter → start = rx inner + Z.quot (rwidth inner - maxWidth) 2).
Proof.
  simpl. split; [|split; [|split; [|split]]].
  - unfold contentWidth. rewrite contentWidth_from. destruct (decide _); [done|lia].
  - intros c. unfold columnsX, columnStarts.
    rewrite (columnStarts_from f _ maxColWidth 0 [] c).
    destruct (maxColWidth !! c); [|done]. simpl. f_equal. lia.
  - unfold alignedX. by intros ->.
  - unfold alignedX. intros ->. lia.
  - unfold alignedX. by intros ->.
Qed.

Section VerticalItems.
Variables (f : Form) (focused : Target → bool).
Variables (DefaultFormFieldWidth : Z) (inner : Rect).
Variables (mw ml : list Z) (st : Layout).
Hypothesis Hv : horizontal f = false.
Hypothesis Hrun :
  placeItems f focused DefaultFormFieldWidth inner mw ml = Some st.

(** In a vertical form every field is placed at the start of its column,
    below the fields of the column that come before it. *)
Lemma placeItems_vertical (i : nat) (item : FormItem) (c : Z) :
  items f !! i = Some item → itemsColumn f !! i = Some c →
  ∃ x w, columnsX f inner mw !! Z.to_nat c = Some x ∧ mw !! Z.to_nat c = Some w ∧
    positions st !! i
    = Some (mkRect x (ry inner + stacked f c i) w (itemHeight item)).
Proof.
  intros Hi Hc. unfold placeItems in Hrun.
  set (P := λ (n : nat) (st : Layout),
       (∀ c y, 0 ≤ c → colY st !! Z.to_nat c = Some y → y = ry inner + stacked f c n) ∧
       (∀ i item c, (i < n)%nat →
          items f !! i = Some item → itemsColumn f !! i = Some c →
          ∃ x w, columnsX f inner mw !! Z.to_nat c = Some x ∧
                 mw !! Z.to_nat c = Some w ∧
                 positions st !! i
                 = Some (mkRect x (ry inner + stacked f c i) w (itemHeight item)))).
  cut (P (0 + length (items f))%nat st);
    [|apply (rangeItems_invariant
               (placeItem f focused DefaultFormFieldWidth (rx inner)
                  (rx inner + rwidth inner) (rwidth inner) mw ml (columnsX f inner mw))
               P (items f) 0%nat (initialLayout f inner mw) st); [| |exact Hrun]];
    unfold P; clear P.
  - intros [_ H]. apply (H i item c); try done. apply lookup_lt_Some in Hi. lia.
  - split.
    + intros c' y _ Hy. simpl in Hy. rewrite list_lookup_fmap in Hy.
      destruct (mw !! Z.to_nat c'); [|done]. injection Hy as <-.
      unfold stacked. simpl. lia.
    + intros ? ? ? ?. lia.
  - intros k itemk s s' Hk (HA & HB) Hb. simpl in *.
    apply placeItem_Some in Hb as (ck & xk & yk & lw & fw & iw & w & H).
    destruct H as (Hck & Hck0 & Hxk & Hyk & Hw & Hmw & Hlt & ->). simpl.
    assert (Hwrap : wraps f xk lw (rx inner + rwidth inner) = false).
    { unfold wraps. by rewrite Hv. }
    rewrite Hwrap, Hv.
    assert (Hyk' := HA ck yk Hck0 Hyk).
    split.
    + intros c' y Hc0 Hy. rewrite stacked_S, Hk, Hck.
      destruct (decide (ck = c')) as [->|Hne].
      * rewrite list_lookup_insert_eq in Hy by (by eapply lookup_lt_Some).
        injection Hy as <-. lia.
      * rewrite list_lookup_insert_ne in Hy by lia.
        rewrite (HA c' y Hc0 Hy). lia.
    + intros i' item' c' Hi' Hitem' Hc'.
      destruct (decide (i' = k)) as [->|Hne].
      * rewrite Hk in Hitem'. injection Hitem' as <-.
        rewrite Hck in Hc'. injection Hc' as <-.
        exists xk, w. split; [done|]. split; [done|].
        rewrite list_lookup_insert_eq by done. by rewrite Hyk'.
      * rewrite list_lookup_insert_ne by done.
        apply (HB i' item' c'); try done. lia.
Qed.
End VerticalItems.

(** X23.  In a vertical form whose fields all have a column, every field is
    placed at the start of its column, as wide as the column and as high as
    the field itself; its row is the top limit plus the heights of the
    earlier fields of the same column, each followed by the item padding.
    Fields of other columns do not move it. *)
Theorem Draw_vertical_stack (f : Form) (focused : Target → bool)
    (DefaultFormFieldWidth : Z) (inner : Rect) :
  columnsOK f → horizontal f = false →
  ∃ r maxColWidth maxColLabelWidth maxColFieldWidth,
    Draw f focused DefaultFormFieldWidth inner = Some r ∧
    getMaxWidthItems f = Some (maxColWidth, maxColLabelWidth, maxColFieldWidth) ∧
    ∀ i item column, inColumn f column i item →
      ∃ x w, columnsX f inner maxColWidth !! Z.to_nat column = Some x ∧
             maxColWidth !! Z.to_nat column = Some w ∧
             positions (layout r) !! i
             = Some (mkRect x (ry inner + stacked f column i) w (itemHeight item)).
Proof.
  intros Hok Hv.
  destruct (Draw_total f focused DefaultFormFieldWidth inner Hok) as (r & Hr).
  pose proof (Draw_Some _ _ _ _ _ Hr) as (Hplace & _).
  apply place_Some in Hplace as (mw & ml & mf & st1 & h & Hw & Hitems & _ & Hbuttons).
  apply placeButtons_frame in Hbuttons as (_ & _ & _ & Htake). simpl in Htake.
  exists r, mw, ml, mf. split; [done|]. split; [done|].
  intros i item c [Hi Hc].
  destruct (placeItems_vertical f focused DefaultFormFieldWidth inner mw ml st1 Hv
              Hitems i item c Hi Hc) as (x & w & Hx & Hmw & Hp).
  exists x, w. split; [done|]. split; [done|].
  assert (positions (layout r) !! i = positions st1 !! i) as ->; [|done].
  apply lookup_lt_Some in Hi.
  rewrite <- (lookup_take_lt _ (length (items f))) by done.
  rewrite Htake. by rewrite lookup_take_lt.
Qed.

Lemma Draw_vertical_stack_witness :
  columnsOK mixedColumns ∧ horizontal mixedColumns = false ∧
  ∃ r maxColWidth maxColLabelWidth maxColFieldWidth,
    Draw mixedColumns (λ _, false) 10 (mkRect 0 0 40 10) = Some r ∧
    getMaxWidthItems mixedColumns
    = Some (maxColWidth, maxColLabelWidth, maxColFieldWidth) ∧
    ∀ i item column, inColumn mixedColumns column i item →
      ∃ x w, columnsX mixedColumns (mkRect 0 0 40 10) maxColWidth !! Z.to_nat column
             = Some x ∧
             maxColWidth !! Z.to_nat column = Some w ∧
             positions (layout r) !! i
             = Some (mkRect x (ry (mkRect 0 0 40 10) + stacked mixedColumns column i) w
                       (itemHeight item)).
Proof.
  split; [exact mixedColumns_columnsOK|]. split; [reflexivity|].
  apply (Draw_vertical_stack mixedColumns (λ _, false) 10 (mkRect 0 0 40 10)
           mixedColumns_columnsOK eq_refl).
Defined.

(** X24.  In a vertical form the widths passed to a left-, right- or
    center-aligned field fill its column: label width, field width and the
    two paddings add up to the width of the column.  A left-aligned field
    keeps its label width, a right-aligned field keeps its field width, and
    a centered field gets the label maximum of the column less its left
    padding.  A field with another alignment is passed its own widths. *)
Theorem Draw_vertical_widths_fill_column (f : Form) (focused : Target → bool)
    (DefaultFormFieldWidth : Z) (inner : Rect) :
  columnsOK f → horizontal f = false →
  ∃ r maxColWidth maxColLabelWidth maxColFieldWidth,
    Draw f focused DefaultFormFieldWidth inner = Some r ∧
    getMaxWidthItems f = Some (maxColWidth, maxColLabelWidth, maxColFieldWidth) ∧
    ∀ i item column, inColumn f column i item →
      ∃ a, attributes (layout r) !! i = Some a ∧
        let filled w :=
          attrLabelWidth a + attrFieldWidth a + leftPadding item + rightPadding item = w in
        (GetFieldAlign item = AlignLeft →
           ∃ w, maxColWidth !! Z.to_nat column = Some w ∧ filled w ∧
                attrLabelWidth a = GetLabelWidth item) ∧
        (GetFieldAlign item = AlignRight →
           ∃ w, maxColWidth !! Z.to_nat column = Some w ∧ filled w ∧
                attrFieldWidth a = GetFieldWidth item) ∧
        (GetFieldAlign item = AlignCenter →
           ∃ w l, maxColWidth !! Z.to_nat column = Some w ∧
                  maxColLabelWidth !! Z.to_nat column = Some l ∧ filled w ∧
                  attrLabelWidth a = l - leftPadding item) ∧
        (∀ n, GetFieldAlign item = AlignOther n →
           attrLabelWidth a = GetLabelWidth item ∧
           attrFieldWidth a = GetFieldWidth item).
Proof.
  intros Hok Hv.
  destruct (Draw_total f focused DefaultFormFieldWidth inner Hok) as (r & Hr).
  pose proof (Draw_Some _ _ _ _ _ Hr) as (Hplace & _).
  apply place_Some in Hplace as (mw & ml & mf & st1 & h & Hw & Hitems & _ & Hbuttons).
  apply placeButtons_frame in Hbuttons as (_ & Ha & _).
  destruct (placeItems_attributes _ _ _ _ _ _ _ Hitems) as (_ & Hall).
  exists r, mw, ml, mf. split; [done|]. split; [done|].
  intros i item c [Hi Hc].
  destruct (Hall i item Hi) as (c' & iw & a & Hc' & Hat & Hwid & _).
  rewrite Hc in Hc'. injection Hc' as <-.
  exists a. rewrite Ha. split; [done|]. simpl.
  unfold itemWidths in Hwid. rewrite Hv in Hwid.
  destruct (GetFieldAlign item) eqn:Hal.
  - destruct (goIndex mw c) as [w|] eqn:Hgw; [|done]. simpl in Hwid.
    injection Hwid as Hl Hf _. apply goIndex_Some in Hgw as [_ Hgw].
    repeat split; try done. intros _. exists w. split; [done|]. split; lia.
  - destruct (goIndex ml c) as [l|] eqn:Hgl; [|done]. simpl in Hwid.
    destruct (goIndex mw c) as [w|] eqn:Hgw; [|done]. simpl in Hwid.
    injection Hwid as Hl Hf _.
    apply goIndex_Some in Hgw as [_ Hgw]. apply goIndex_Some in Hgl as [_ Hgl].
    repeat split; try done. intros _. exists w, l.
    split; [done|]. split; [done|]. split; lia.
  - destruct (goIndex mw c) as [w|] eqn:Hgw; [|done]. simpl in Hwid.
    injection Hwid as Hl Hf _. apply goIndex_Some in Hgw as [_ Hgw].
    repeat split; try done. intros _. exists w. split; [done|]. split; lia.
  - injection Hwid as Hl Hf _. repeat split; try done.
Qed.

Lemma Draw_vertical_widths_fill_column_witness :
  inColumn mixedColumns 1 2 (centredItem 4 6 3) ∧
  ∃ r a,
    Draw mixedColumns (λ _, false) 10 (mkRect 0 0 40 10) = Some r ∧
    attributes (layout r) !! 2%nat = Some a ∧
    attrLabelWidth a + attrFieldWidth a + 1 + 1 = 15 ∧
    attrLabelWidth a = 6 - 1.
Proof.
  split; [split; reflexivity|].
  destruct (Draw_vertical_widths_fill_column mixedColumns (λ _, false) 10
              (mkRect 0 0 40 10) mixedColumns_columnsOK eq_refl)
    as (r & mw & ml & mf & Hr & Hw & Hall).
  destruct (Hall 2%nat (centredItem 4 6 3) 1 (conj eq_refl eq_refl))
    as (a & Ha & _ & _ & Hcenter & _).
  destruct (Hcenter eq_refl) as (w & l & Hmw & Hml & Hfill & Hlabel).
  vm_compute in Hw. injection Hw as <- <- <-.
  injection Hmw as <-. injection Hml as <-.
  exists r, a. split; [exact Hr|]. split; [exact Ha|]. split; [exact Hfill|exact Hlabel].
Defined.

(** X25.  The offset of a draw brings the focused element into view.  When
    its top edge is not above the top limit, the offset is not negative and
    the shifted top edge is still not above the top limit; an element no
    higher than the box then also ends at or above the bottom limit, and is
    moved only as far as needed: the offset is 0 or its bottom edge is on the
    bottom limit.  An element higher than the box is shown from its top
    edge. *)
Theorem Draw_focused_in_view (f : Form) (focused : Target → bool)
    (DefaultFormFieldWidth : Z) (inner : Rect) :
  columnsOK f →
  ∃ r, Draw f focused DefaultFormFieldWidth inner = Some r ∧
    let focusedPos := focusedPosition (layout r) in
    let topLimit := ry inner in
    let bottomLimit := ry inner + rheight inner in
    let y := ry focusedPos - offset r in
    topLimit ≤ ry focusedPos →
    0 ≤ offset r ∧ topLimit ≤ y ∧
    (rheight focusedPos ≤ rheight inner →
       y + rheight focusedPos ≤ bottomLimit ∧
       (offset r = 0 ∨ y + rheight focusedPos = bottomLimit)) ∧
    (rheight focusedPos > rheight inner → y = topLimit).
Proof.
  intros Hok.
  destruct (Draw_total f focused DefaultFormFieldWidth inner Hok) as (r & Hr).
  exists r. split; [done|].
  pose proof (Draw_Some _ _ _ _ _ Hr) as (_ & Hoff & _).
  simpl. rewrite Hoff. unfold viewportOffset. intros Htop.
  repeat case_decide; lia.
Qed.

Lemma Draw_focused_in_view_witness :
  ∃ r,
    Draw oneFieldTwoButtons (holds (Some (TButton 1%nat))) 10 (mkRect 0 0 40 3) = Some r ∧
    ry (focusedPosition (layout r)) = 3 ∧ offset r = 1 ∧
    0 ≤ offset r ∧ 0 ≤ ry (focusedPosition (layout r)) - offset r ∧
    ry (focusedPosition (layout r)) - offset r + rheight (focusedPosition (layout r)) ≤ 3.
Proof.
  destruct (Draw_focused_in_view oneFieldTwoButtons (holds (Some (TButton 1%nat))) 10
              (mkRect 0 0 40 3) oneFieldTwoButtons_columnsOK) as (r & Hr & Hin).
  exists r. split; [exact Hr|].
  vm_compute in Hr. injection Hr as <-.
  split; [reflexivity|]. split; [reflexivity|].
  destruct Hin as (H0 & Htop & Hfit & _); [vm_compute; discriminate|].
  split; [exact H0|]. split; [exact Htop|].
  apply Hfit. vm_compute. discriminate.
Defined.

(** *** The buttons that are placed, and the order of drawing *)

Section ButtonStyles.
Variables (f : Form) (focused : Target → bool).
Variables (startX rightLimit boxWidth : Z).

(** The loop over the buttons sets the colours of the buttons it places,
    which are the first ones, and leaves the slots of the others alone. *)
Lemma placeButtons_styled (bs : list (nat * Button)) :
  ∀ (index : nat) (x y : Z) (st st' : Layout),
    placeButtons f focused startX rightLimit boxWidth index bs x y st = Some st' →
    ∃ k : nat,
      (k ≤ length bs)%nat ∧
      styled st' = styled st ++ ((λ p, (p.1, buttonColors f)) <$> take k bs) ∧
      drop (index + k + length (items f)) (positions st')
      = drop (index + k + length (items f)) (positions st) ∧
      (∀ i p, (i < k)%nat →
         positions st' !! (index + i + length (items f))%nat = Some p → rheight p = 1) ∧
      (horizontal f = true → k = length bs).
Proof.
  induction bs as [|[j b] bs IH]; intros index x y st st'; simpl.
  - intros [= <-]. exists 0%nat. rewrite app_nil_r.
    repeat split; try done. intros i p Hi. lia.
  - destruct (negb (horizontal f) && bool_decide _) eqn:Hbreak.
    + intros [= <-]. exists 0%nat. rewrite take_0, app_nil_r.
      split; [lia|]. split; [done|]. split; [done|]. split; [intros i p Hi; lia|].
      intros Hh. rewrite Hh in Hbreak. done.
    + destruct (goStore _ _ _) as [p'|] eqn:Hp; [|done].
      apply goStore_inv in Hp as [Hr ->].
      replace (Z.to_nat (Z.of_nat index + len (items f)))
        with (index + length (items f))%nat by (unfold len; lia).
      intros H. pose proof H as Hframe.
      apply placeButtons_frame in Hframe as (_ & _ & Hl & Ht). simpl in Hl, Ht.
      rewrite length_insert in Hl.
      apply IH in H as (k & Hk & Hst & Hdrop & Hpos & Hall). simpl in Hst, Hdrop.
      exists (S k). split; [lia|]. split; [|split; [|split]].
      * rewrite Hst, <- app_assoc. done.
      * replace (index + S k + length (items f))%nat
          with (S index + k + length (items f))%nat by lia.
        cbn [Nat.add]. rewrite Hdrop. apply drop_insert_lt. lia.
      * intros i p Hi Hp. destruct i as [|i].
        -- rewrite Nat.add_0_r in Hp.
           assert (Hn : (index + length (items f) < length (positions st))%nat)
             by (unfold len in Hr; lia).
           rewrite <- (lookup_take_lt _ (S (index + length (items f)))) in Hp by lia.
           rewrite Ht, lookup_take_lt, list_lookup_insert_eq in Hp by lia.
           by injection Hp as <-.
        -- apply (Hpos i p); [lia|].
           by replace (S index + i + length (items f))%nat
             with (index + S i + length (items f))%nat by lia.
      * intros Hh. by rewrite (Hall Hh).
Qed.
End ButtonStyles.

(** X26.  [Draw] sets the colours of exactly the buttons it places, the first
    ones of the visible buttons in their order: the label colour and the
    activated background are the button text colour of the form, the
    activated label colour and the background are its button background
    colour.  A placed button is one row high; the visible buttons that are
    not placed keep the zero rectangle.  A horizontal form places every
    visible button. *)
Theorem Draw_styles_placed_buttons (f : Form) (focused : Target → bool)
    (DefaultFormFieldWidth : Z) (inner : Rect) :
  columnsOK f →
  ∃ r (k : nat),
    Draw f focused DefaultFormFieldWidth inner = Some r ∧
    (k ≤ length (Buttons f))%nat ∧
    styled (layout r) = (λ p, (p.1, buttonColors f)) <$> take k (Buttons f) ∧
    (∀ i p, (i < k)%nat →
       positions (layout r) !! (length (items f) + i)%nat = Some p → rheight p = 1) ∧
    drop (length (items f) + k) (positions (layout r))
    = replicate (length (Buttons f) - k) zeroRect ∧
    (horizontal f = true → k = length (Buttons f)).
Proof.
  intros Hok.
  destruct (Draw_total f focused DefaultFormFieldWidth inner Hok) as (r & Hr).
  pose proof (Draw_Some _ _ _ _ _ Hr) as (Hplace & _).
  apply place_Some in Hplace as (mw & ml & mf & st1 & h & Hw & Hitems & _ & Hbuttons).
  destruct (placeItems_slots _ _ _ _ _ _ _ Hitems) as (Hslots & Hlen1 & Hsty).
  apply placeButtons_styled in Hbuttons as (k & Hk & Hst & Hdrop & Hpos & Hall).
  simpl in Hdrop, Hpos.
  exists r, k. split; [done|]. split; [done|]. split; [by rewrite Hst, Hsty|].
  split; [|split; [|done]].
  - intros i p Hi Hp. apply (Hpos i p Hi).
    by replace (i + length (items f))%nat with (length (items f) + i)%nat by lia.
  - replace (length (items f) + k)%nat with (k + length (items f))%nat by lia.
    rewrite Hdrop.
    replace (k + length (items f))%nat with (length (items f) + k)%nat by lia.
    rewrite <- drop_drop, Hslots, drop_replicate. done.
Qed.

Lemma Draw_styles_placed_buttons_witness :
  ∃ r,
    Draw oneFieldTwoButtons (λ _, false) 10 (mkRect 0 0 8 5) = Some r ∧
    styled (layout r) = [(0%nat, buttonColors oneFieldTwoButtons)] ∧
    drop 2 (positions (layout r)) = [zeroRect].
Proof.
  destruct (Draw_styles_placed_buttons oneFieldTwoButtons (λ _, false) 10
              (mkRect 0 0 8 5) oneFieldTwoButtons_columnsOK)
    as (r & k & Hr & Hk & Hst & _ & Hdrop & _).
  exists r. split; [exact Hr|].
  vm_compute in Hr. injection Hr as <-.
  destruct k as [|[|[|k]]]; [discriminate Hst|split; [exact Hst|exact Hdrop]
                            |discriminate Hst|simpl in Hk; lia].
Defined.

Section DrawOrder.
Variables (f : Form) (focused : Target → bool).
Variables (DefaultFormFieldWidth : Z) (inner : Rect).

Local Abbreviation topLimit := (ry inner).
Local Abbreviation bottomLimit := (ry inner + rheight inner).

(** The loop "Draw items": what is drawn at once and what is deferred. *)
Lemma drawItems_order (positions : list Rect) (offset : Z)
    (l : list FormItem) (d : Drawing) :
  (length l ≤ length positions)%nat →
  rangeItems (drawItem focused positions offset topLimit bottomLimit) 0%nat l
    (mkDrawing [] [] []) = Some d →
  let rects := shifted offset <$> take (length l) positions in
  drawnNow d = drawnItems focused topLimit bottomLimit rects false ∧
  deferred d = drawnItems focused topLimit bottomLimit rects true.
Proof.
  intros Hlen H. simpl.
  set (P := λ (n : nat) (d : Drawing),
         (n ≤ length l)%nat →
         drawnNow d = drawnItems focused topLimit bottomLimit
                        (shifted offset <$> take n positions) false ∧
         deferred d = drawnItems focused topLimit bottomLimit
                        (shifted offset <$> take n positions) true).
  cut (P (0 + length l)%nat d);
    [|apply (rangeItems_invariant
               (drawItem focused positions offset topLimit bottomLimit) P l 0%nat
               (mkDrawing [] [] []) d); [| |exact H]]; unfold P; clear P.
  - intros Hfin. apply Hfin. lia.
  - intros _. by rewrite take_0.
  - intros k item d1 d2 Hk Hinv Hb HSk. simpl in *.
    destruct Hinv as [Hnow Hdef]; [lia|].
    unfold drawItem in Hb. rewrite goIndex_nat in Hb.
    destruct (positions !! k) as [p|] eqn:Hp; [|done]. simpl in Hb.
    rewrite (take_S_r _ _ _ Hp), fmap_app. simpl.
    unfold drawnItems in *. rewrite !imap_app, !omap_app. simpl.
    rewrite length_fmap, length_take, Nat.min_l, Nat.add_0_r by lia.
    unfold itemShown.
    change (ry (shifted offset p)) with (ry p - offset).
    change (rheight (shifted offset p)) with (rheight p).
    destruct (decide (ry p - offset + rheight p ≤ ry inner
                      ∨ ry p - offset > ry inner + rheight inner)) as [Hout|Hin].
    + injection Hb as <-. simpl.
      rewrite !decide_False by tauto. rewrite !app_nil_r. done.
    + destruct (focused (TItem k)) eqn:Hf; injection Hb as <-; simpl.
      * rewrite (decide_False (P := _ ∧ true = false)) by (intros [_ ?]; done).
        rewrite (decide_True (P := _ ∧ true = true)) by done.
        rewrite app_nil_r. by rewrite Hnow, Hdef.
      * rewrite (decide_True (P := _ ∧ false = false)) by done.
        rewrite (decide_False (P := _ ∧ false = true)) by (intros [_ ?]; done).
        rewrite app_nil_r. by rewrite Hnow, Hdef.
Qed.

(** The loop "Draw buttons" draws at once. *)
Lemma drawButtons_order (positions : list Rect) (offset : Z)
    (nItems : nat) (l : list (nat * Button)) (d0 d : Drawing) :
  (nItems + length l ≤ length positions)%nat →
  rangeItems (drawButton (Z.of_nat nItems) positions offset topLimit bottomLimit
                (rheight inner)) 0%nat l d0 = Some d →
  drawnNow d
  = drawnNow d0 ++
    drawnButtons topLimit bottomLimit (rheight inner) l
      (shifted offset <$> take (length l) (drop nItems positions)) ∧
  deferred d = deferred d0.
Proof.
  intros Hlen H.
  set (P := λ (n : nat) (d : Drawing),
         (n ≤ length l)%nat →
         drawnNow d
         = drawnNow d0 ++
           drawnButtons topLimit bottomLimit (rheight inner) (take n l)
             (shifted offset <$> take n (drop nItems positions)) ∧
         deferred d = deferred d0).
  cut (P (0 + length l)%nat d);
    [|apply (rangeItems_invariant
               (drawButton (Z.of_nat nItems) positions offset topLimit bottomLimit
                  (rheight inner)) P l 0%nat d0 d); [| |exact H]]; unfold P; clear P.
  - intros Hfin. simpl in Hfin. rewrite firstn_all in Hfin. apply Hfin. lia.
  - intros _. rewrite !take_0. unfold drawnButtons. simpl. by rewrite app_nil_r.
  - intros k b d1 d2 Hk Hinv Hb HSk. simpl in *.
    destruct Hinv as [Hnow Hdef]; [lia|].
    unfold drawButton in Hb.
    replace (Z.of_nat k + Z.of_nat nItems) with (Z.of_nat (nItems + k)) in Hb by lia.
    rewrite goIndex_nat in Hb.
    destruct (positions !! (nItems + k)%nat) as [p|] eqn:Hp; [|done]. simpl in Hb.
    rewrite <- lookup_drop in Hp.
    rewrite (take_S_r _ _ _ Hp), (take_S_r _ _ _ Hk), fmap_app. simpl.
    unfold drawnButtons in *.
    rewrite zip_with_app
      by (rewrite length_fmap, !length_take, length_drop; lia).
    rewrite omap_app. simpl. unfold buttonShown.
    destruct (decide (ry p - offset + rheight p ≤ ry inner
                      ∨ ry p - offset >= ry inner + rheight inner
                        ∧ rheight inner > 0)) as [Hout|Hin].
    + injection Hb as <-. simpl. rewrite decide_False by tauto.
      rewrite app_nil_r. done.
    + injection Hb as <-. simpl. rewrite decide_True by done.
      rewrite Hnow, <- app_assoc. done.
Qed.

(** X27.  The order of the draw calls of one [Draw]: first the fields that
    do not report focus, in their order, then the visible buttons, in their
    order, and at the end the fields that report focus, the last of them
    first.  A field is drawn unless the rectangle set on it ends at or above
    the top limit or starts below the bottom limit; a button is drawn unless
    its rectangle ends at or above the top limit, or starts at or below the
    bottom limit while the box has a height. *)
Theorem Draw_order :
  columnsOK f →
  ∃ r, Draw f focused DefaultFormFieldWidth inner = Some r ∧
    drawOrder r
    = drawnItems focused topLimit bottomLimit (itemRects r) false ++
      drawnButtons topLimit bottomLimit (rheight inner) (Buttons f) (buttonRects r) ++
      reverse (drawnItems focused topLimit bottomLimit (itemRects r) true).
Proof.
  intros Hok.
  destruct (Draw_total f focused DefaultFormFieldWidth inner Hok) as (r & Hr).
  exists r. split; [done|].
  pose proof (Draw_Some _ _ _ _ _ Hr) as (Hplace & Hoff & Hir & Hbr).
  destruct (place_total f focused DefaultFormFieldWidth inner Hok) as (st & Hst & Hlen).
  rewrite Hplace in Hst. injection Hst as Hst. rewrite <- Hst in Hlen.
  unfold Draw in Hr. rewrite Hplace in Hr. simpl in Hr.
  destruct (rangeItems (drawItem _ _ _ _ _) _ _ _) as [di|] eqn:Hdi; [|done].
  simpl in Hr.
  destruct (rangeItems (drawButton _ _ _ _ _ _) _ _ _) as [db|] eqn:Hdb; [|done].
  simpl in Hr.
  apply drawItems_order in Hdi as [Hnow Hdef]; [|lia].
  apply drawButtons_order in Hdb as [Hnowb _]; [|lia]. simpl in Hnowb.
  assert (drawOrder r = drawnNow db ++ reverse (deferred di)) as ->
    by (by injection Hr as <-).
  rewrite Hnowb, Hnow, Hdef, <- Hoff, <- Hir, <- Hbr, <- app_assoc. done.
Qed.
End DrawOrder.


Lemma Draw_order_witness :
  ∃ r,
    Draw oneFieldTwoButtons (holds (Some (TItem 0%nat))) 10 (mkRect 0 0 40 10) = Some r ∧
    drawOrder r = [TButton 0%nat; TButton 1%nat; TItem 0%nat].
Proof.
  destruct (Draw_order oneFieldTwoButtons (holds (Some (TItem 0%nat))) 10
              (mkRect 0 0 40 10) oneFieldTwoButtons_columnsOK) as (r & Hr & Ho).
  exists r. split; [exact Hr|]. rewrite Ho.
  vm_compute in Hr. injection Hr as <-. reflexivity.
Defined.

(** *** Elements that refuse focus *)

Lemma landing_spec (takes : Z → bool) (bound current : Z) (indexes : list Z) :
  ∀ last,
    let final := landing takes bound current last indexes in
    (final < bound ∧ final ≠ current ∧ takes final = true ∧ final ∈ indexes) ∨
    (Forall (λ c, c < bound → c ≠ current → takes c = false) indexes ∧
     (final = last ∨ (final ∈ indexes ∧ final < bound))).
Proof.
  induction indexes as [|c rest IH]; intros last; simpl.
  - right. split; [constructor|by left].
  - destruct (decide (c >= bound)) as [Hhigh|Hin].
    { destruct (IH last) as [(H1 & H2 & H3 & H4)|(H1 & H2)].
      - left. repeat split; try done. by right.
      - right. split; [constructor; [lia|done]|].
        destruct H2 as [->|[H2 H3]]; [by left|right]. split; [by right|done]. }
    destruct (decide (c ≠ current)) as [Hne|Heq].
    + destruct (takes c) eqn:Ht.
      * left. repeat split; try done; [lia|by left].
      * destruct (IH c) as [(H1 & H2 & H3 & H4)|(H1 & H2)].
        -- left. repeat split; try done. by right.
        -- right. split; [constructor; [by intros|done]|]. right.
           destruct H2 as [->|[H2 H3]]; [split; [by left|lia]|split; [by right|done]].
    + destruct (IH c) as [(H1 & H2 & H3 & H4)|(H1 & H2)].
      * left. repeat split; try done. by right.
      * right. split; [constructor; [intros; lia|done]|]. right.
        destruct H2 as [->|[H2 H3]]; [split; [by left|lia]|split; [by right|done]].
Qed.

Section Refusals.
Context {World : Type}.
Variable hasFocus : World → Target → bool.
Variable delegate : Target → World → World.
Variable accepts : Target → bool.
Hypothesis honest : ∀ t w, hasFocus (delegate t w) t = accepts t.

(** After [Focus] on an index in range, the two acceptance tests of
    [nextStep] tell whether the element took focus. *)
Lemma Focus_takes (s : State World) :
  indexInRange (form s) →
  ∃ s', Focus delegate s = Some s' ∧ form s' = form s ∧
    let took := takesFocus accepts (form s) (focusedElement (form s)) in
    (if decide (focusedElement (form s) < len (items (form s)))
     then itemAccepted hasFocus s' = Some took
     else itemAccepted hasFocus s' = Some false ∧
          buttonAccepted hasFocus s' = Some took) ∧
    (took = false → buttonAccepted hasFocus s' = Some false).
Proof.
  intros Hr. destruct (Focus_in_range delegate s Hr) as (t & Ht & ->).
  eexists. split; [done|]. split; [done|]. simpl.
  unfold takesFocus. rewrite Ht.
  unfold indexInRange in Hr. unfold targetAt in Ht.
  unfold itemAccepted, buttonAccepted. simpl.
  destruct (decide (focusedElement (form s) < len (items (form s)))) as [Hi|Hb].
  - destruct (decide (0 ≤ _)); [|lia]. injection Ht as <-.
    destruct (goIndex_lt (items (form s)) (focusedElement (form s))) as (e & -> & _);
      [lia|]. simpl. rewrite honest.
    split; [done|]. intros _. destruct (decide (_ >= _)); [lia|done].
  - destruct (goIndex _ _) as [[j b]|] eqn:E; [|done]. simpl in Ht. injection Ht as <-.
    destruct (decide (_ >= _)); [|lia]. simpl. rewrite honest.
    split; [done|]. by intros ->.
Qed.

(** The second loop of [nextStep] ends on [landing]. *)
Lemma walk_landing (current : Z) (indexes : list Z) :
  ∀ s : State World,
    distinctIDs (form s) →
    0 ≤ current < len (items (form s)) + len (Buttons (form s)) →
    indexInRange (form s) →
    Forall (λ c, 0 ≤ c) indexes →
    ∃ s', walk hasFocus delegate current indexes s = Some s' ∧
          sameElements s s' ∧
          focusedElement (form s')
          = landing (takesFocus accepts (form s))
              (len (items (form s)) + len (Buttons (form s))) current
              (focusedElement (form s)) indexes.
Proof.
  induction indexes as [|c rest IH]; intros s Hid Hcur Hr Hpos; cbn [walk landing].
  - exists s. by split.
  - apply list.Forall_cons in Hpos as [Hc Hrest].
    set (f := form s) in *.
    destruct (decide (c >= len (items f) + len (Buttons f))) as [Hhigh|Hin].
    { by apply IH. }
    set (s1 := withForm (setFocusedElement c) s).
    assert (Hitems : items (form s1) = items f) by done.
    assert (Hbuttons : Buttons (form s1) = Buttons f) by done.
    assert (Hr1 : indexInRange (form s1)).
    { unfold indexInRange. rewrite Hitems, Hbuttons. simpl. lia. }
    assert (Htakes : ∀ g : Form, items g = items f → buttons g = buttons f →
              takesFocus accepts g = takesFocus accepts f).
    { intros g Hgi Hgb. unfold takesFocus, targetAt, Buttons. by rewrite Hgi, Hgb. }
    assert (Hnext : ∀ s2 : State World, form s2 = form s1 →
              ∃ s', walk hasFocus delegate current rest s2 = Some s' ∧
                    sameElements s s' ∧
                    focusedElement (form s')
                    = landing (takesFocus accepts f)
                        (len (items f) + len (Buttons f)) current c rest).
    { intros s2 Hf2. destruct (IH s2) as (s' & Hs' & [Hi' Hb'] & Hfe'); try done.
      - rewrite Hf2. by apply (distinctIDs_kept f).
      - by rewrite Hf2, Hitems, Hbuttons.
      - by rewrite Hf2.
      - exists s'. split; [done|]. split; [split; [by rewrite Hi', Hf2|by rewrite Hb', Hf2]|].
        rewrite Hfe', Hf2, Hitems, Hbuttons. rewrite (Htakes (form s1)) by done. done. }
    destruct (decide (c ≠ current)) as [Hne|Heq].
    + assert (sameItem (form s1) current c = Some false) as ->.
      { destruct (decide (c < len (items f) ∧ current < len (items f))).
        - apply sameItem_other; rewrite ?Hitems;
            first [done|lia|by apply (distinctIDs_kept f)].
        - apply sameItem_button. rewrite Hitems. lia. }
      assert (sameButton (form s1) current c = Some false) as ->.
      { destruct (decide (len (items f) ≤ c ∧ len (items f) ≤ current)).
        - apply sameButton_other; rewrite ?Hitems, ?Hbuttons;
            first [done|lia|by apply (distinctIDs_kept f)].
        - apply sameButton_item. rewrite Hitems. lia. }
      destruct (Focus_takes s1 Hr1) as (s2 & -> & Hform & Hacc & Hrefused).
      cbv zeta in Hacc, Hrefused.
      change (focusedElement (form s1)) with c in Hacc, Hrefused.
      rewrite (Htakes (form s1)) in Hacc, Hrefused by done.
      rewrite Hitems in Hacc.
      destruct (takesFocus accepts f c) eqn:Ht.
      * destruct (decide (c < len (items f))).
        -- rewrite Hacc. eexists. split; [done|]. simpl. rewrite Hform.
           split; [split; simpl; by rewrite Hform|done].
        -- destruct Hacc as [-> ->]. eexists. split; [done|]. simpl. rewrite Hform.
           split; [split; simpl; by rewrite Hform|done].
      * assert (itemAccepted hasFocus s2 = Some false) as ->.
        { destruct (decide (c < len (items f))); [done|by destruct Hacc]. }
        rewrite (Hrefused eq_refl). by apply Hnext.
    + assert (c = current) as -> by lia.
      assert (Hsame : sameItem (form s1) current current = Some true ∨
                      (sameItem (form s1) current current = Some false ∧
                       sameButton (form s1) current current = Some true)).
      { destruct (decide (current < len (items f))).
        - left. apply sameItem_self. rewrite Hitems. lia.
        - right. split; [apply sameItem_button; rewrite Hitems; lia|].
          apply sameButton_self. rewrite Hitems, Hbuttons. lia. }
      destruct (Hnext s1 eq_refl) as (s' & Hs' & Hsame' & Hfe').
      exists s'. split; [|done]. destruct Hsame as [->|[-> ->]]; done.
Qed.

(** X28.  In a form whose elements have distinct identities, when an element
    reports focus after being handed it exactly if it accepts focus,
    [nextStep] ends on the first candidate, in the rotated order, that is in
    range, is not the current index and accepts focus: candidates that
    refuse are passed over.  When no candidate accepts, the focus index is
    not put back: it stays on the last candidate in range. *)
Theorem nextStep_skips_refusing (indexes : list Z) (s : State World) :
  distinctIDs (form s) → indexInRange (form s) → Forall (λ c, 0 ≤ c) indexes →
  let f := form s in
  let bound := len (items f) + len (Buttons f) in
  let current := focusedElement f in
  let candidates := rotateIndexes current indexes in
  ∃ s', nextStep hasFocus delegate indexes s = Some s' ∧ sameElements s s' ∧
    focusedElement (form s')
    = landing (takesFocus accepts f) bound current current candidates ∧
    ((focusedElement (form s') < bound ∧ focusedElement (form s') ≠ current ∧
      takesFocus accepts f (focusedElement (form s')) = true ∧
      focusedElement (form s') ∈ candidates) ∨
     (Forall (λ c, c < bound → c ≠ current → takesFocus accepts f c = false) candidates ∧
      (focusedElement (form s') = current ∨
       (focusedElement (form s') ∈ candidates ∧ focusedElement (form s') < bound)))).
Proof.
  intros Hid Hr Hpos f bound current candidates. unfold nextStep.
  destruct (walk_landing current candidates s) as (s' & Hs' & Hsame & Hfe); try done.
  { by apply rotateIndexes_Forall. }
  exists s'. split; [done|]. split; [done|]. split; [done|].
  rewrite Hfe. apply landing_spec.
Qed.
End Refusals.

Lemma threeFields_distinctIDs : distinctIDs threeFields.
Proof.
  split; apply (bool_decide_unpack _); vm_compute; exact I.
Qed.

Lemma nextStep_skips_refusing_witness :
  ∃ s', nextStep holds giveFocusUnlessShy (makeRange 0 3)
          (mkState threeFields (None : holder) []) = Some s' ∧
        focusedElement (form s') = 2.
Proof.
  destruct (nextStep_skips_refusing holds giveFocusUnlessShy shy) with
    (indexes := makeRange 0 3) (s := mkState threeFields (None : holder) [])
    as (s' & Hs' & _ & Hfe & _).
  - intros t w. unfold holds, giveFocusUnlessShy. destruct (shy t).
    + by rewrite bool_decide_eq_true_2.
    + by rewrite bool_decide_eq_false_2.
  - exact threeFields_distinctIDs.
  - vm_compute. split; [discriminate|reflexivity].
  - apply makeRange_nonneg; lia.
  - exists s'. split; [exact Hs'|]. rewrite Hfe. reflexivity.
Defined.

(** *** Hiding the button the focus index is on *)

Lemma HiddenButton_true_Some (index : Z) (f : Form) :
  0 ≤ index < len (buttons f) →
  ∃ f', HiddenButton index true f = Some f' ∧ items f' = items f ∧
        focusedElement f' = focusedElement f ∧
        Buttons f' = filter (λ p, p.1 ≠ Z.to_nat index) (Buttons f).
Proof.
  intros Hi. unfold HiddenButton. destruct (decide _); [|lia].
  destruct (goIndex_lt (buttons f) index Hi) as (b & -> & Hb). simpl.
  rewrite goStore_Some by done. simpl. eexists. split; [done|].
  split; [done|]. split; [done|].
  unfold Buttons. simpl.
  apply (visible_from_hide (buttons f) 0 (Z.to_nat index) b Hb).
Qed.

Lemma filter_keeps_all {A : Type} (P : A → Prop) `{!∀ x, Decision (P x)}
    (l : list A) :
  Forall P l → filter P l = l.
Proof.
  induction 1 as [|x l Hx _ IH]; [done|].
  rewrite filter_cons. destruct (decide (P x)); [|done]. by rewrite IH.
Qed.

Lemma filter_out_one {A : Type} (l : list (nat * A)) (j : nat) (b : A) :
  NoDup l.*1 → (j, b) ∈ l →
  S (length (filter (λ p : nat * A, p.1 ≠ j) l)) = length l.
Proof.
  induction l as [|[j' b'] l IH]; intros Hnd Hin.
  - by apply elem_of_nil in Hin.
  - rewrite fmap_cons in Hnd. apply NoDup_cons in Hnd as [Hnot Hnd].
    rewrite filter_cons. simpl in *.
    apply elem_of_cons in Hin as [[= <- <-]|Hin].
    + destruct (decide (j ≠ j)); [done|]. simpl. f_equal.
      assert (filter (λ p : nat * A, p.1 ≠ j) l = l) as ->; [|done].
      apply filter_keeps_all. apply list.Forall_forall. intros [j2 b2] Hin2 E.
      simpl in E. subst j2.
      apply Hnot. apply list_elem_of_fmap. by exists (j, b2).
    + destruct (decide (j' ≠ j)) as [Hne|Heq].
      * simpl. f_equal. by apply IH.
      * exfalso. assert (j' = j) as -> by lia.
        apply Hnot. apply list_elem_of_fmap. by exists (j, b).
Qed.

Section HiddenFocus.
Context {World : Type}.
Variable delegate : Target → World → World.

(** X29.  With the focus index on the last button index, hiding a visible
    button leaves the index out of range: [HiddenButton] does not move it.
    The next [Focus] resets it to 0 and hands focus to the element index 0
    stands for, not to a button next to the hidden one. *)
Theorem HiddenButton_then_Focus_resets (index : Z) (b : Button) (s : State World) :
  let f := form s in
  GetFormButton index f = Some b → GetHidden b = false →
  focusedElement f = len (items f) + len (Buttons f) - 1 →
  focusedElement f ≠ 0 →
  ∃ f' t,
    HiddenButton index true f = Some f' ∧
    len (Buttons f') = len (Buttons f) - 1 ∧
    focusedElement f' = focusedElement f ∧ ¬ indexInRange f' ∧
    targetAt f' 0 = Some t ∧
    Focus delegate (mkState f' (world s) (events s))
    = Some (mkState (setFocusedElement 0 f') (delegate t (world s))
              (events s ++ [registration t; EvDelegate t])).
Proof.
  intros f Hb Hv Hfe Hne. unfold GetFormButton in Hb.
  apply goIndex_Some in Hb as [H0 Hb].
  assert (Hi : 0 ≤ index < len (buttons f)).
  { apply lookup_lt_Some in Hb. unfold len. lia. }
  destruct (HiddenButton_true_Some index f Hi) as (f' & Hf' & Hitems & Hfe' & HB).
  assert (Hin : (Z.to_nat index, b) ∈ Buttons f).
  { unfold Buttons. apply list_elem_of_filter. split; [done|].
    apply list_elem_of_lookup. exists (Z.to_nat index). by rewrite list_lookup_imap, Hb. }
  assert (Hlen : len (Buttons f') = len (Buttons f) - 1).
  { unfold len. rewrite HB.
    pose proof (filter_out_one (Buttons f) (Z.to_nat index) b (Buttons_NoDup f) Hin). lia. }
  assert (Hout : ¬ indexInRange f').
  { unfold indexInRange. rewrite Hfe', Hitems, Hlen. lia. }
  pose proof (len_nonneg (items f)). pose proof (len_nonneg (Buttons f')).
  destruct (Focus_delegates delegate (mkState f' (world s) (events s)))
    as (_ & t & Ht & HF).
  { simpl. rewrite Hitems, Hlen. lia. }
  simpl in Ht, HF. destruct (decide (indexInRange f')); [done|]. simpl in Ht.
  exists f', t. repeat split; try done.
Qed.
End HiddenFocus.

Lemma HiddenButton_then_Focus_resets_witness :
  ∃ f' t,
    HiddenButton 0 true (setFocusedElement 2 oneFieldTwoButtons) = Some f' ∧
    len (Buttons f') = len (Buttons oneFieldTwoButtons) - 1 ∧
    focusedElement f' = 2 ∧ ¬ indexInRange f' ∧
    targetAt f' 0 = Some t ∧
    Focus giveFocus (mkState f' None [])
    = Some (mkState (setFocusedElement 0 f') (giveFocus t None)
              [registration t; EvDelegate t]).
Proof.
  apply (HiddenButton_then_Focus_resets giveFocus 0 (mkButton 6 false 100)
           (mkState (setFocusedElement 2 oneFieldTwoButtons) (None : holder) []));
    [reflexivity|reflexivity|reflexivity|discriminate].
Defined.
